(** * The SCPI lexer (libscpi/src/lexer.c): a shallow embedding and its properties

    The lexer walks a cursor [pos] through a caller-owned byte buffer.  Every
    C function that takes [lex_state_t * state] becomes a computation in a
    small state monad over the lexer state; a detector additionally takes the
    caller's token (an in/out parameter in C) and returns the updated token
    together with the [int] it returns. *)

From Stdlib Require Import ZArith List Bool Lia.
From Stdlib Require Import Strings.Byte Strings.String.
Import ListNotations.

Local Open Scope Z_scope.

(** ** Data model *)

(** Modelled from the spec: the enumeration [scpi_token_type_t] is declared in
    a header that is not among the sources; the constructors are the tags
    that lexer.c assigns, under the names it uses for them. *)
Inductive scpi_token_type_t : Set :=
| SCPI_TOKEN_COMMA
| SCPI_TOKEN_SEMICOLON
| SCPI_TOKEN_COLON
| SCPI_TOKEN_SPECIFIC_CHARACTER
| SCPI_TOKEN_HEXNUM
| SCPI_TOKEN_OCTNUM
| SCPI_TOKEN_BINNUM
| SCPI_TOKEN_PROGRAM_MNEMONIC
| SCPI_TOKEN_DECIMAL_NUMERIC_PROGRAM_DATA
| SCPI_TOKEN_SUFFIX_PROGRAM_DATA
| SCPI_TOKEN_ARBITRARY_BLOCK_PROGRAM_DATA
| SCPI_TOKEN_SINGLE_QUOTE_PROGRAM_DATA
| SCPI_TOKEN_DOUBLE_QUOTE_PROGRAM_DATA
| SCPI_TOKEN_PROGRAM_EXPRESSION
| SCPI_TOKEN_COMPOUND_PROGRAM_HEADER
| SCPI_TOKEN_INCOMPLETE_COMPOUND_PROGRAM_HEADER
| SCPI_TOKEN_COMMON_PROGRAM_HEADER
| SCPI_TOKEN_INCOMPLETE_COMMON_PROGRAM_HEADER
| SCPI_TOKEN_COMPOUND_QUERY_PROGRAM_HEADER
| SCPI_TOKEN_COMMON_QUERY_PROGRAM_HEADER
| SCPI_TOKEN_WS
| SCPI_TOKEN_NL
| SCPI_TOKEN_UNKNOWN.

Definition token_type_eqb (a b : scpi_token_type_t) : bool :=
  match a, b with
  | SCPI_TOKEN_COMMA, SCPI_TOKEN_COMMA
  | SCPI_TOKEN_SEMICOLON, SCPI_TOKEN_SEMICOLON
  | SCPI_TOKEN_COLON, SCPI_TOKEN_COLON
  | SCPI_TOKEN_SPECIFIC_CHARACTER, SCPI_TOKEN_SPECIFIC_CHARACTER
  | SCPI_TOKEN_HEXNUM, SCPI_TOKEN_HEXNUM
  | SCPI_TOKEN_OCTNUM, SCPI_TOKEN_OCTNUM
  | SCPI_TOKEN_BINNUM, SCPI_TOKEN_BINNUM
  | SCPI_TOKEN_PROGRAM_MNEMONIC, SCPI_TOKEN_PROGRAM_MNEMONIC
  | SCPI_TOKEN_DECIMAL_NUMERIC_PROGRAM_DATA, SCPI_TOKEN_DECIMAL_NUMERIC_PROGRAM_DATA
  | SCPI_TOKEN_SUFFIX_PROGRAM_DATA, SCPI_TOKEN_SUFFIX_PROGRAM_DATA
  | SCPI_TOKEN_ARBITRARY_BLOCK_PROGRAM_DATA, SCPI_TOKEN_ARBITRARY_BLOCK_PROGRAM_DATA
  | SCPI_TOKEN_SINGLE_QUOTE_PROGRAM_DATA, SCPI_TOKEN_SINGLE_QUOTE_PROGRAM_DATA
  | SCPI_TOKEN_DOUBLE_QUOTE_PROGRAM_DATA, SCPI_TOKEN_DOUBLE_QUOTE_PROGRAM_DATA
  | SCPI_TOKEN_PROGRAM_EXPRESSION, SCPI_TOKEN_PROGRAM_EXPRESSION
  | SCPI_TOKEN_COMPOUND_PROGRAM_HEADER, SCPI_TOKEN_COMPOUND_PROGRAM_HEADER
  | SCPI_TOKEN_INCOMPLETE_COMPOUND_PROGRAM_HEADER, SCPI_TOKEN_INCOMPLETE_COMPOUND_PROGRAM_HEADER
  | SCPI_TOKEN_COMMON_PROGRAM_HEADER, SCPI_TOKEN_COMMON_PROGRAM_HEADER
  | SCPI_TOKEN_INCOMPLETE_COMMON_PROGRAM_HEADER, SCPI_TOKEN_INCOMPLETE_COMMON_PROGRAM_HEADER
  | SCPI_TOKEN_COMPOUND_QUERY_PROGRAM_HEADER, SCPI_TOKEN_COMPOUND_QUERY_PROGRAM_HEADER
  | SCPI_TOKEN_COMMON_QUERY_PROGRAM_HEADER, SCPI_TOKEN_COMMON_QUERY_PROGRAM_HEADER
  | SCPI_TOKEN_WS, SCPI_TOKEN_WS
  | SCPI_TOKEN_NL, SCPI_TOKEN_NL
  | SCPI_TOKEN_UNKNOWN, SCPI_TOKEN_UNKNOWN => true
  | _, _ => false
  end.

(** Modelled from the spec: [lex_state_t] is declared in lexer_private.h,
    which is not among the sources.  lexer.c uses three fields: the buffer,
    its length and the scan cursor.  The pointer [pos] is kept as its offset
    from [buffer], so [buffer + len <= pos] reads [len <= pos]. *)
Record lex_state_t : Set := mkState {
  buffer : list byte;
  pos : Z;
  len : Z
}.

(** Modelled from the spec: [scpi_token_t] is declared in a header that is not
    among the sources.  lexer.c uses the fields [type], [ptr] and [len]; [ptr]
    is kept as an offset into the same buffer. *)
Record scpi_token_t : Set := mkToken {
  tok_type : scpi_token_type_t;
  tok_ptr : Z;
  tok_len : Z
}.

(** The value of a buffer byte as the [int] the classifiers receive.  The
    unsigned value is used; every classifier below is false on the whole
    upper half 128..255, hence equally false on the negative values a signed
    [char] would give, and the [(uint8_t)] casts are the identity.  The one
    classifier called without the cast, isNonzeroDigit, is read the same
    way: false outside ['1'..'9']. *)
Definition chr (b : byte) : Z := Z.of_N (Byte.to_N b).
Arguments chr b%_byte.

Definition set_pos (st : lex_state_t) (p : Z) : lex_state_t :=
  mkState (buffer st) p (len st).

(** [state->pos[0]] *)
Definition cur (st : lex_state_t) : Z :=
  chr (nth (Z.to_nat (pos st)) (buffer st) x00).

(** [state->pos++] *)
Definition advance (st : lex_state_t) : lex_state_t := set_pos st (pos st + 1).

(** The state invariant of the data model: the cursor is an offset inside
    the buffer, whose length is [len]. *)
Definition wf_state (st : lex_state_t) : Prop :=
  len st = Z.of_nat (List.length (buffer st)) /\ 0 <= pos st <= len st.

(** The bytes a token views. *)
Definition token_bytes (st : lex_state_t) (t : scpi_token_t) : list byte :=
  firstn (Z.to_nat (tok_len t)) (skipn (Z.to_nat (tok_ptr t)) (buffer st)).

(** ** Character classifiers *)

Definition is_ws (c : Z) : bool := (c =? chr " ") || (c =? chr x09).

Definition is_b_digit (c : Z) : bool := (c =? chr "0") || (c =? chr "1").

Definition is_q_digit (c : Z) : bool :=
  (c =? chr "0") || (c =? chr "1") || (c =? chr "2") || (c =? chr "3")
  || (c =? chr "4") || (c =? chr "5") || (c =? chr "6") || (c =? chr "7").

Definition is_eos (st : lex_state_t) : bool := len st <=? pos st.

Definition scpiLex_IsEos (st : lex_state_t) : bool := is_eos st.

Definition ischr (st : lex_state_t) (c : Z) : bool := cur st =? c.

Definition is_plus_minus (c : Z) : bool := (c =? chr "+") || (c =? chr "-").

Definition isH (c : Z) : bool := (c =? chr "h") || (c =? chr "H").
Definition isB (c : Z) : bool := (c =? chr "b") || (c =? chr "B").
Definition isQ (c : Z) : bool := (c =? chr "q") || (c =? chr "Q").
Definition isE (c : Z) : bool := (c =? chr "e") || (c =? chr "E").

(** The <ctype.h> classifiers, in the "C" locale. *)
Definition isdigit (c : Z) : bool := (chr "0" <=? c) && (c <=? chr "9").
Definition isupper (c : Z) : bool := (chr "A" <=? c) && (c <=? chr "Z").
Definition islower (c : Z) : bool := (chr "a" <=? c) && (c <=? chr "z").
Definition isalpha (c : Z) : bool := isupper c || islower c.
Definition isalnum (c : Z) : bool := isalpha c || isdigit c.
Definition isxdigit (c : Z) : bool :=
  isdigit c || ((chr "A" <=? c) && (c <=? chr "F"))
  || ((chr "a" <=? c) && (c <=? chr "f")).

Definition SKIP_NONE : Z := 0.
Definition SKIP_OK : Z := 1.
Definition SKIP_INCOMPLETE : Z := -1.

(** A C [int] used as a condition. *)
Definition truthy (r : Z) : bool := negb (r =? 0).

(** ** The lexer monad: state passing over [lex_state_t] *)

Definition Lex (A : Type) : Type := lex_state_t -> A * lex_state_t.

Definition ret {A} (a : A) : Lex A := fun st => (a, st).

Definition bind {A B} (m : Lex A) (k : A -> Lex B) : Lex B :=
  fun st => let (a, st') := m st in k a st'.

Definition get_pos : Lex Z := fun st => (pos st, st).
Definition put_pos (p : Z) : Lex unit := fun st => (tt, set_pos st p).
Definition step : Lex unit := fun st => (tt, advance st).
Definition at_eos : Lex bool := fun st => (is_eos st, st).
Definition peek : Lex Z := fun st => (cur st, st).
Definition end_pos : Lex Z := fun st => (len st, st).

Declare Scope lex_scope.
Delimit Scope lex_scope with lex.
Notation "x <- m ;; k" := (bind m (fun x => k))
  (at level 61, m at next level, right associativity) : lex_scope.
Notation "m ;;; k" := (bind m (fun _ => k))
  (at level 61, right associativity) : lex_scope.
Local Open Scope lex_scope.

(** Bytes left between the cursor and the end of the buffer: every loop of
    the lexer advances the cursor by at least one byte per iteration while it
    is not at the end, so this many iterations always suffice. *)
Definition remaining (st : lex_state_t) : nat := Z.to_nat (len st - pos st).

(** ** Skip primitives *)

(** The loop [while (!is_eos(state) && p(state->pos[0])) { state->pos++; n++; }]
    shared by skipWs, skipNumbers, skipAlpha, skipHexNum, skipOctNum,
    skipBinNum, skipProgramExpression and the tail of a mnemonic. *)
Fixpoint skip_run (p : Z -> bool) (fuel : nat) (n : Z) (st : lex_state_t)
  : Z * lex_state_t :=
  match fuel with
  | O => (n, st)
  | S fuel' =>
      if negb (is_eos st) && p (cur st)
      then skip_run p fuel' (n + 1) (advance st)
      else (n, st)
  end.

Definition skip_while (p : Z -> bool) : Lex Z :=
  fun st => skip_run p (remaining st) 0 st.

(** The shape [if (!is_eos(state) && p(state->pos[0])) { state->pos++; return
    SKIP_OK; } return SKIP_NONE;] *)
Definition skip_one (p : Z -> bool) : Lex Z :=
  fun st =>
    if negb (is_eos st) && p (cur st) then (SKIP_OK, advance st)
    else (SKIP_NONE, st).

Definition skipWs : Lex Z := skip_while is_ws.

Definition skipDigit : Lex Z := skip_one isdigit.

Definition skipNumbers : Lex Z := skip_while isdigit.

Definition skipPlusmn : Lex Z := skip_one is_plus_minus.

Definition skipAlpha : Lex Z := skip_while isalpha.

Definition skipChr (c : Z) : Lex Z := skip_one (fun x => x =? c).

Definition skipSlashDot : Lex Z :=
  skip_one (fun x => (x =? chr "/") || (x =? chr ".")).

Definition skipStar : Lex Z := skip_one (fun x => x =? chr "*").

Definition skipColon : Lex Z := skip_one (fun x => x =? chr ":").

Definition is_mnemonic_tail (c : Z) : bool := isalnum c || (c =? chr "_").

(** The cursor walk shared by skipProgramMnemonic and
    scpiLex_CharacterProgramData: one letter, then letters, digits and
    underscores. *)
Definition walk_mnemonic : Lex unit :=
  e <- at_eos ;; c <- peek ;;
  if negb e && isalpha c
  then step ;;; skip_while is_mnemonic_tail ;;; ret tt
  else ret tt.

Definition skipProgramMnemonic : Lex Z :=
  startPos <- get_pos ;;
  walk_mnemonic ;;;
  e <- at_eos ;; p <- get_pos ;;
  if e then ret ((p - startPos) * SKIP_INCOMPLETE)
  else ret ((p - startPos) * SKIP_OK).

(** ** Token detectors *)

(** Assignments to the fields of [*token]. *)
Definition with_type (t : scpi_token_t) (ty : scpi_token_type_t) : scpi_token_t :=
  mkToken ty (tok_ptr t) (tok_len t).
Definition with_ptr (t : scpi_token_t) (p : Z) : scpi_token_t :=
  mkToken (tok_type t) p (tok_len t).
Definition with_len (t : scpi_token_t) (l : Z) : scpi_token_t :=
  mkToken (tok_type t) (tok_ptr t) l.

Definition is_unknown (t : scpi_token_t) : bool :=
  token_type_eqb (tok_type t) SCPI_TOKEN_UNKNOWN.

(** The closing [token->len = state->pos - token->ptr; if (token->len > 0)
    type = ty; else type = UNKNOWN;] of several detectors; [restore] tells
    whether the else branch also resets the cursor and the length. *)
Definition close_token (token : scpi_token_t) (ty : scpi_token_type_t)
  (restore : bool) : Lex scpi_token_t :=
  p <- get_pos ;;
  let token := with_len token (p - tok_ptr token) in
  if 0 <? tok_len token then ret (with_type token ty)
  else
    let token := with_type token SCPI_TOKEN_UNKNOWN in
    if restore then put_pos (tok_ptr token) ;;; ret (with_len token 0)
    else ret token.

Definition scpiLex_WhiteSpace (token : scpi_token_t) : Lex (scpi_token_t * Z) :=
  ptr <- get_pos ;;
  let token := with_ptr token ptr in
  skipWs ;;;
  token <- close_token token SCPI_TOKEN_WS false ;;
  ret (token, tok_len token).

Definition skipCommonProgramHeader : Lex Z :=
  s <- skipStar ;;
  if truthy s then
    res <- skipProgramMnemonic ;;
    e <- at_eos ;;
    if (res =? SKIP_NONE) && e then ret SKIP_INCOMPLETE
    else if (res <=? SKIP_INCOMPLETE) || (SKIP_OK <=? res) then ret SKIP_OK
    else ret SKIP_INCOMPLETE
  else ret SKIP_NONE.

(** [while (skipColon(state)) { ... }] of skipCompoundProgramHeader. *)
Fixpoint compound_loop (fuel : nat) : Lex Z :=
  match fuel with
  | O => ret SKIP_OK
  | S fuel' =>
      c <- skipColon ;;
      if truthy c then
        res <- skipProgramMnemonic ;;
        if res <=? SKIP_INCOMPLETE then ret SKIP_OK
        else if res =? SKIP_NONE then ret SKIP_INCOMPLETE
        else compound_loop fuel'
      else ret SKIP_OK
  end.

Definition skipCompoundProgramHeader : Lex Z :=
  firstColon <- skipColon ;;
  res <- skipProgramMnemonic ;;
  if SKIP_OK <=? res then
    fun st => compound_loop (remaining st) st
  else if res <=? SKIP_INCOMPLETE then ret SKIP_OK
  else if truthy firstColon then ret SKIP_INCOMPLETE
  else ret SKIP_NONE.

Definition scpiLex_ProgramHeader (token : scpi_token_t) : Lex (scpi_token_t * Z) :=
  ptr <- get_pos ;;
  let token := with_type (with_ptr token ptr) SCPI_TOKEN_UNKNOWN in
  res <- skipCommonProgramHeader ;;
  token <-
    (if SKIP_OK <=? res then
       q <- skipChr (chr "?") ;;
       if SKIP_OK <=? q
       then ret (with_type token SCPI_TOKEN_COMMON_QUERY_PROGRAM_HEADER)
       else ret (with_type token SCPI_TOKEN_COMMON_PROGRAM_HEADER)
     else if res <=? SKIP_INCOMPLETE then
       ret (with_type token SCPI_TOKEN_INCOMPLETE_COMMON_PROGRAM_HEADER)
     else
       res <- skipCompoundProgramHeader ;;
       if SKIP_OK <=? res then
         q <- skipChr (chr "?") ;;
         if SKIP_OK <=? q
         then ret (with_type token SCPI_TOKEN_COMPOUND_QUERY_PROGRAM_HEADER)
         else ret (with_type token SCPI_TOKEN_COMPOUND_PROGRAM_HEADER)
       else if res <=? SKIP_INCOMPLETE then
         ret (with_type token SCPI_TOKEN_INCOMPLETE_COMPOUND_PROGRAM_HEADER)
       else ret token) ;;
  if negb (is_unknown token) then
    p <- get_pos ;;
    let token := with_len token (p - tok_ptr token) in
    ret (token, tok_len token)
  else
    let token := with_len token 0 in
    put_pos (tok_ptr token) ;;;
    ret (token, tok_len token).

Definition scpiLex_CharacterProgramData (token : scpi_token_t)
  : Lex (scpi_token_t * Z) :=
  ptr <- get_pos ;;
  let token := with_ptr token ptr in
  walk_mnemonic ;;;
  token <- close_token token SCPI_TOKEN_PROGRAM_MNEMONIC false ;;
  ret (token, tok_len token).

Definition skipMantissa : Lex Z :=
  skipPlusmn ;;;
  n1 <- skipNumbers ;;
  dot <- skipChr (chr ".") ;;
  if truthy dot then n2 <- skipNumbers ;; ret (n1 + n2)
  else ret n1.

Definition skipExponent : Lex Z :=
  e <- at_eos ;; c <- peek ;;
  if negb e && isE c then
    step ;;; skipWs ;;; skipPlusmn ;;; skipNumbers
  else ret 0.

Definition scpiLex_DecimalNumericProgramData (token : scpi_token_t)
  : Lex (scpi_token_t * Z) :=
  ptr <- get_pos ;;
  let token := with_ptr token ptr in
  m <- skipMantissa ;;
  (if truthy m then
     rollback <- get_pos ;;
     skipWs ;;;
     x <- skipExponent ;;
     if truthy x then ret tt else put_pos rollback
   else put_pos (tok_ptr token)) ;;;
  token <- close_token token SCPI_TOKEN_DECIMAL_NUMERIC_PROGRAM_DATA false ;;
  ret (token, tok_len token).

(** [while (skipSlashDot(state)) { ... }] of scpiLex_SuffixProgramData. *)
Fixpoint suffix_loop (fuel : nat) : Lex unit :=
  match fuel with
  | O => ret tt
  | S fuel' =>
      s <- skipSlashDot ;;
      if truthy s then
        skipAlpha ;;; skipChr (chr "-") ;;; skipDigit ;;; suffix_loop fuel'
      else ret tt
  end.

Definition scpiLex_SuffixProgramData (token : scpi_token_t)
  : Lex (scpi_token_t * Z) :=
  ptr <- get_pos ;;
  let token := with_ptr token ptr in
  skipChr (chr "/") ;;;
  a <- skipAlpha ;;
  (if truthy a then
     skipChr (chr "-") ;;; skipDigit ;;;
     fun st => suffix_loop (remaining st) st
   else ret tt) ;;;
  token <- close_token token SCPI_TOKEN_SUFFIX_PROGRAM_DATA true ;;
  ret (token, tok_len token).

Definition skipHexNum : Lex Z := skip_while isxdigit.
Definition skipOctNum : Lex Z := skip_while is_q_digit.
Definition skipBinNum : Lex Z := skip_while is_b_digit.

Definition scpiLex_NondecimalNumericData (token : scpi_token_t)
  : Lex (scpi_token_t * Z) :=
  ptr <- get_pos ;;
  let token := with_ptr token ptr in
  h <- skipChr (chr "#") ;;
  r <-
    (if truthy h then
       e <- at_eos ;; c <- peek ;;
       if negb e then
         if isH c then
           step ;;; n <- skipHexNum ;; ret (n, with_type token SCPI_TOKEN_HEXNUM)
         else if isQ c then
           step ;;; n <- skipOctNum ;; ret (n, with_type token SCPI_TOKEN_OCTNUM)
         else if isB c then
           step ;;; n <- skipBinNum ;; ret (n, with_type token SCPI_TOKEN_BINNUM)
         else ret (0, token)
       else ret (0, token)
     else ret (0, token)) ;;
  let someNumbers := fst r in
  let token := snd r in
  token <-
    (if truthy someNumbers then
       let token := with_ptr token (tok_ptr token + 2) in
       p <- get_pos ;;
       ret (with_len token (p - tok_ptr token))
     else
       let token := with_type token SCPI_TOKEN_UNKNOWN in
       put_pos (tok_ptr token) ;;;
       ret (with_len token 0)) ;;
  ret (token, if 0 <? tok_len token then tok_len token + 2 else 0).

Definition isascii7bit (c : Z) : bool := (0 <=? c) && (c <=? 127).

(** The loop of skipQuoteProgramData.  The [state->pos--; break;] branch
    puts the cursor back on the quote that closes the body. *)
Fixpoint quote_loop (quote : Z) (fuel : nat) (st : lex_state_t) : lex_state_t :=
  match fuel with
  | O => st
  | S fuel' =>
      if is_eos st then st
      else if isascii7bit (cur st) && negb (ischr st quote)
      then quote_loop quote fuel' (advance st)
      else if ischr st quote then
        let st1 := advance st in
        if negb (is_eos st1) && ischr st1 quote
        then quote_loop quote fuel' (advance st1)
        else set_pos st1 (pos st1 - 1)
      else st
  end.

Definition skipQuoteProgramData (quote : Z) : Lex unit :=
  fun st => (tt, quote_loop quote (remaining st) st).

Definition skipDoubleQuoteProgramData : Lex unit := skipQuoteProgramData (chr x22).
Definition skipSingleQuoteProgramData : Lex unit := skipQuoteProgramData (chr "'").

(** One of the two branches of scpiLex_StringProgramData, which differ in
    the quote character, the body skipper and the token type only. *)
Definition quoted_branch (token : scpi_token_t) (skipBody : Lex unit)
  (quote : Z) (ty : scpi_token_type_t) : Lex scpi_token_t :=
  step ;;;
  let token := with_type token ty in
  skipBody ;;;
  e <- at_eos ;; c <- peek ;;
  if negb e && (c =? quote) then
    step ;;; p <- get_pos ;; ret (with_len token (p - tok_ptr token))
  else put_pos (tok_ptr token) ;;; ret token.

Definition scpiLex_StringProgramData (token : scpi_token_t)
  : Lex (scpi_token_t * Z) :=
  ptr <- get_pos ;;
  let token := with_ptr token ptr in
  e <- at_eos ;; c <- peek ;;
  token <-
    (if negb e then
       if c =? chr x22 then
         quoted_branch token skipDoubleQuoteProgramData (chr x22)
           SCPI_TOKEN_DOUBLE_QUOTE_PROGRAM_DATA
       else if c =? chr "'" then
         quoted_branch token skipSingleQuoteProgramData (chr "'")
           SCPI_TOKEN_SINGLE_QUOTE_PROGRAM_DATA
       else ret token
     else ret token) ;;
  p <- get_pos ;;
  let token := with_len token (p - tok_ptr token) in
  token <-
    (if 0 <? tok_len token then ret token
     else
       let token := with_type token SCPI_TOKEN_UNKNOWN in
       put_pos (tok_ptr token) ;;;
       ret (with_len token 0)) ;;
  ret (token, if 0 <? tok_len token then tok_len token else 0).

Definition isNonzeroDigit (c : Z) : bool := isdigit c && negb (c =? chr "0").

(** [for (; i > 0; i--) { if (digit) {...} else break; }]: returns the final
    [i] and the accumulated [arbitraryBlockLength].  At most nine digits are
    read, so the accumulator stays below 10^9 and the C [int] never wraps. *)
Fixpoint block_length_loop (i : nat) (arbitraryBlockLength : Z)
  (st : lex_state_t) : (Z * Z) * lex_state_t :=
  match i with
  | O => ((0, arbitraryBlockLength), st)
  | S i' =>
      if negb (is_eos st) && isdigit (cur st)
      then block_length_loop i'
             (arbitraryBlockLength * 10 + (cur st - chr "0")) (advance st)
      else ((Z.of_nat i, arbitraryBlockLength), st)
  end.

Definition scpiLex_ArbitraryBlockProgramData (token : scpi_token_t)
  : Lex (scpi_token_t * Z) :=
  ptr <- get_pos ;;
  let token := with_ptr token ptr in
  h <- skipChr (chr "#") ;;
  r <-
    (if truthy h then
       e <- at_eos ;; c <- peek ;;
       if negb e && isNonzeroDigit c then
         step ;;;
         il <- block_length_loop (Z.to_nat (c - chr "0")) 0 ;;
         let i := fst il in
         let arbitraryBlockLength := snd il in
         if i =? 0 then
           p <- get_pos ;;
           put_pos (p + arbitraryBlockLength) ;;;
           p' <- get_pos ;; n <- end_pos ;;
           if p' <=? n then
             ret (with_len (with_ptr token (p' - arbitraryBlockLength))
                    arbitraryBlockLength, 1)
           else ret (token, 0)
         else
           e <- at_eos ;; if e then ret (token, 0) else ret (token, -1)
       else
         e <- at_eos ;; if e then ret (token, 0) else ret (token, -1)
     else ret (token, -1)) ;;
  let token := fst r in
  let validData := snd r in
  token <-
    (if validData =? 1 then
       ret (with_type token SCPI_TOKEN_ARBITRARY_BLOCK_PROGRAM_DATA)
     else if validData =? 0 then
       let token := with_len (with_type token SCPI_TOKEN_UNKNOWN) 0 in
       n <- end_pos ;; put_pos n ;;; ret token
     else
       let token := with_type token SCPI_TOKEN_UNKNOWN in
       put_pos (tok_ptr token) ;;; ret (with_len token 0)) ;;
  ret (token, tok_len token + (tok_ptr token - ptr)).

Definition isProgramExpression (c : Z) : bool :=
  (32 <=? c) && (c <=? 126)
  && negb (c =? chr x22) && negb (c =? chr "#") && negb (c =? chr "'")
  && negb (c =? chr "(") && negb (c =? chr ")") && negb (c =? chr ";").

Definition skipProgramExpression : Lex unit :=
  skip_while isProgramExpression ;;; ret tt.

(** [token->len] is written only inside the [(] branch; outside it the
    test [token->len > 0] reads the field as the caller left it. *)
Definition scpiLex_ProgramExpression (token : scpi_token_t)
  : Lex (scpi_token_t * Z) :=
  ptr <- get_pos ;;
  let token := with_ptr token ptr in
  e <- at_eos ;; c <- peek ;;
  token <-
    (if negb e && (c =? chr "(") then
       step ;;; skipProgramExpression ;;;
       e <- at_eos ;; c <- peek ;;
       if negb e && (c =? chr ")") then
         step ;;; p <- get_pos ;; ret (with_len token (p - tok_ptr token))
       else ret (with_len token 0)
     else ret token) ;;
  if 0 <? tok_len token then
    let token := with_type token SCPI_TOKEN_PROGRAM_EXPRESSION in
    ret (token, tok_len token)
  else
    let token := with_type token SCPI_TOKEN_UNKNOWN in
    put_pos (tok_ptr token) ;;;
    let token := with_len token 0 in
    ret (token, tok_len token).

(** The shape of scpiLex_Comma, scpiLex_Semicolon, scpiLex_Colon and
    scpiLex_SpecificCharacter. *)
Definition single_char_token (c : Z) (ty : scpi_token_type_t)
  (token : scpi_token_t) : Lex (scpi_token_t * Z) :=
  ptr <- get_pos ;;
  let token := with_ptr token ptr in
  s <- skipChr c ;;
  let token :=
    if truthy s then with_type (with_len token 1) ty
    else with_type (with_len token 0) SCPI_TOKEN_UNKNOWN in
  ret (token, tok_len token).

Definition scpiLex_Comma := single_char_token (chr ",") SCPI_TOKEN_COMMA.
Definition scpiLex_Semicolon := single_char_token (chr ";") SCPI_TOKEN_SEMICOLON.
Definition scpiLex_Colon := single_char_token (chr ":") SCPI_TOKEN_COLON.
Definition scpiLex_SpecificCharacter (token : scpi_token_t) (c : Z) :=
  single_char_token c SCPI_TOKEN_SPECIFIC_CHARACTER token.

Definition scpiLex_NewLine (token : scpi_token_t) : Lex (scpi_token_t * Z) :=
  ptr <- get_pos ;;
  let token := with_ptr token ptr in
  skipChr (chr x0d) ;;;
  skipChr (chr x0a) ;;;
  token <- close_token token SCPI_TOKEN_NL true ;;
  ret (token, tok_len token).

(** ** The detectors as one family *)

Inductive detector : Set :=
| WhiteSpace
| ProgramHeader
| CharacterProgramData
| DecimalNumericProgramData
| SuffixProgramData
| NondecimalNumericData
| StringProgramData
| ArbitraryBlockProgramData
| ProgramExpression
| Comma
| Semicolon
| Colon
| SpecificCharacter (c : Z)
| NewLine.

Definition detect (d : detector) : scpi_token_t -> Lex (scpi_token_t * Z) :=
  match d with
  | WhiteSpace => scpiLex_WhiteSpace
  | ProgramHeader => scpiLex_ProgramHeader
  | CharacterProgramData => scpiLex_CharacterProgramData
  | DecimalNumericProgramData => scpiLex_DecimalNumericProgramData
  | SuffixProgramData => scpiLex_SuffixProgramData
  | NondecimalNumericData => scpiLex_NondecimalNumericData
  | StringProgramData => scpiLex_StringProgramData
  | ArbitraryBlockProgramData => scpiLex_ArbitraryBlockProgramData
  | ProgramExpression => scpiLex_ProgramExpression
  | Comma => scpiLex_Comma
  | Semicolon => scpiLex_Semicolon
  | Colon => scpiLex_Colon
  | SpecificCharacter c => fun token => scpiLex_SpecificCharacter token c
  | NewLine => scpiLex_NewLine
  end.

(** A call on a fresh state over [buf], with the cursor at offset [p]. *)
Definition lex_at (buf : list byte) (p : Z) : lex_state_t :=
  mkState buf p (Z.of_nat (List.length buf)).

Definition bytes (s : string) : list byte := list_byte_of_string s.
Arguments bytes s%_string.

(** What a call leaves behind: the token, the returned [int], the cursor. *)
Definition outcome (r : scpi_token_t * Z * lex_state_t)
  : scpi_token_type_t * Z * Z * Z * Z :=
  let '(t, n, st) := r in (tok_type t, tok_ptr t, tok_len t, n, pos st).

Definition tok0 : scpi_token_t := mkToken SCPI_TOKEN_UNKNOWN 0 0.

(** ** Vocabulary of the specifications *)

(** [buf[q]] as the classifiers see it. *)
Definition char_at (buf : list byte) (q : Z) : Z := chr (nth (Z.to_nat q) buf x00).

(** Weakest precondition of a lexer computation run from [st]. *)
Definition wp {A} (m : Lex A) (st : lex_state_t)
  (Q : A -> lex_state_t -> Prop) : Prop :=
  Q (fst (m st)) (snd (m st)).

(** A colon has been consumed and no mnemonic starts after it: the only
    way a compound header is reported incomplete. *)
Definition dangling_colon (buf : list byte) (l q' : Z) : Prop :=
  char_at buf (q' - 1) = chr ":"
  /\ (l <= q' \/ isalpha (char_at buf q') = false).

Definition no_star (buf : list byte) (q l : Z) : Prop :=
  l <= q \/ char_at buf q <> chr "*".

(** Everything scpiLex_ProgramHeader can answer, by classification. *)
Definition header_post (buf : list byte) (q l : Z)
  (tok : scpi_token_t) (n : Z) (s : lex_state_t) : Prop :=
  exists q',
    s = mkState buf q' l /\ q <= q' /\ (q' = q \/ q' <= l)
    /\ tok_ptr tok = q /\ tok_len tok = q' - q /\ n = q' - q
    /\ ((tok_type tok = SCPI_TOKEN_UNKNOWN /\ q' = q /\ no_star buf q l)
        \/ (tok_type tok = SCPI_TOKEN_INCOMPLETE_COMMON_PROGRAM_HEADER
            /\ q < l /\ char_at buf q = chr "*" /\ q' = q + 1
            /\ (l <= q + 1 \/ isalpha (char_at buf (q + 1)) = false))
        \/ ((tok_type tok = SCPI_TOKEN_COMMON_PROGRAM_HEADER
             \/ tok_type tok = SCPI_TOKEN_COMMON_QUERY_PROGRAM_HEADER)
            /\ q < l /\ char_at buf q = chr "*" /\ q + 1 < q'
            /\ isalpha (char_at buf (q + 1)) = true)
        \/ ((tok_type tok = SCPI_TOKEN_COMPOUND_PROGRAM_HEADER
             \/ tok_type tok = SCPI_TOKEN_COMPOUND_QUERY_PROGRAM_HEADER)
            /\ no_star buf q l /\ q < q')
        \/ (tok_type tok = SCPI_TOKEN_INCOMPLETE_COMPOUND_PROGRAM_HEADER
            /\ no_star buf q l /\ q < q' /\ dangling_colon buf l q')).

(** What every detector call guarantees.  [q] is the cursor before the call
    and [q'] the cursor after it.  Two detectors have a case of their own:
    the arbitrary-block detector reports an incomplete block as unknown with
    the cursor at the end of the buffer, and the expression detector, when no
    [(] is at the cursor, answers from the length the caller's token held. *)
Definition frame_post (d : detector) (token : scpi_token_t)
  (buf : list byte) (q l : Z) (tok : scpi_token_t) (n : Z) (s : lex_state_t)
  : Prop :=
  exists q',
    s = mkState buf q' l /\ q <= q' /\ (q' = q \/ q' <= l)
    /\ (tok_type tok = SCPI_TOKEN_UNKNOWN ->
          tok_len tok = 0 /\ n = 0 /\ tok_ptr tok = q
          /\ (q' = q
              \/ (d = ArbitraryBlockProgramData /\ q' = l
                  /\ q < l /\ char_at buf q = chr "#")))
    /\ (tok_type tok <> SCPI_TOKEN_UNKNOWN ->
          (q <= tok_ptr tok /\ 0 <= tok_len tok
           /\ tok_ptr tok + tok_len tok = q' /\ n = q' - q)
          \/ (d = ProgramExpression /\ 0 < tok_len token
              /\ (l <= q \/ char_at buf q <> chr "(")
              /\ q' = q /\ n = tok_len token /\ tok_len tok = tok_len token)).

(** The base letter and the digit class behind each non-decimal tag. *)
Definition base_of (ty : scpi_token_type_t)
  : option ((Z -> bool) * (Z -> bool)) :=
  match ty with
  | SCPI_TOKEN_HEXNUM => Some (isH, isxdigit)
  | SCPI_TOKEN_OCTNUM => Some (isQ, is_q_digit)
  | SCPI_TOKEN_BINNUM => Some (isB, is_b_digit)
  | _ => None
  end.

Definition nondecimal_post (buf : list byte) (q l : Z)
  (tok : scpi_token_t) (n : Z) (s : lex_state_t) : Prop :=
  exists q',
    s = mkState buf q' l
    /\ ((tok_type tok = SCPI_TOKEN_UNKNOWN /\ tok_ptr tok = q
         /\ tok_len tok = 0 /\ n = 0 /\ q' = q)
        \/ (exists letter digit,
              base_of (tok_type tok) = Some (letter, digit)
              /\ q + 1 < l /\ char_at buf q = chr "#"
              /\ letter (char_at buf (q + 1)) = true
              /\ tok_ptr tok = q + 2 /\ tok_len tok = q' - (q + 2)
              /\ 0 < tok_len tok /\ n = tok_len tok + 2 /\ q' <= l
              /\ (forall j, q + 2 <= j < q' -> digit (char_at buf j) = true)
              /\ (l <= q' \/ digit (char_at buf q') = false))).

(** The answers of scpiLex_StringProgramData.  On a match, [b] is where the
    body scan stopped: on the quote that closes the string. *)
Definition string_post (buf : list byte) (q l : Z)
  (tok : scpi_token_t) (n : Z) (s : lex_state_t) : Prop :=
  exists q',
    s = mkState buf q' l /\ tok_ptr tok = q
    /\ ((tok_type tok = SCPI_TOKEN_UNKNOWN /\ tok_len tok = 0 /\ n = 0 /\ q' = q)
        \/ (exists quote b,
              q < l /\ char_at buf q = quote
              /\ ((quote = chr x22
                   /\ tok_type tok = SCPI_TOKEN_DOUBLE_QUOTE_PROGRAM_DATA)
                  \/ (quote = chr "'"
                      /\ tok_type tok = SCPI_TOKEN_SINGLE_QUOTE_PROGRAM_DATA))
              /\ quote_loop quote (Z.to_nat (l - (q + 1))) (mkState buf (q + 1) l)
                 = mkState buf b l
              /\ q + 1 <= b < l /\ char_at buf b = quote
              /\ q' = b + 1 /\ tok_len tok = q' - q /\ n = q' - q)).

(** The bytes of [buf] from offset [a] up to offset [b]. *)
Definition slice (buf : list byte) (a b : Z) : list byte :=
  firstn (Z.to_nat (b - a)) (skipn (Z.to_nat a) buf).

(** The value of a run of decimal digits, as the header loop of the
    arbitrary-block detector accumulates it. *)
Definition decimal_step (a : Z) (b : byte) : Z := a * 10 + (chr b - chr "0").
Definition decimal_value (ds : list byte) : Z := fold_left decimal_step ds 0.

Definition all_digits (ds : list byte) : Prop :=
  Forall (fun b => isdigit (chr b) = true) ds.

(** A mnemonic starts at offset [q] and runs up to the end of the buffer. *)
Definition mnemonic_to_end (buf : list byte) (q l : Z) : Prop :=
  q < l /\ isalpha (char_at buf q) = true
  /\ (forall j, q < j < l -> is_mnemonic_tail (char_at buf j) = true).

(** A mnemonic occupies the offsets from [q] up to [e]: a letter, then
    letters, digits and underscores. *)
Definition mnemonic_span (buf : list byte) (q e : Z) : Prop :=
  q < e /\ isalpha (char_at buf q) = true
  /\ (forall j, q < j < e -> is_mnemonic_tail (char_at buf j) = true).

(** From offset [q] on, the buffer holds mnemonics separated by single
    colons, and the last of them runs up to the end of the buffer. *)
Inductive mnemonics_to_end (buf : list byte) (l : Z) : Z -> Prop :=
| last_mnemonic q :
    mnemonic_to_end buf q l -> mnemonics_to_end buf l q
| more_mnemonics q e :
    mnemonic_span buf q e -> e < l -> char_at buf e = chr ":" ->
    mnemonics_to_end buf l (e + 1) ->
    mnemonics_to_end buf l q.

(** A compound header that the end of the buffer cuts inside its last
    mnemonic: an optional leading colon, then [mnemonics_to_end]. *)
Definition compound_to_end (buf : list byte) (q l : Z) : Prop :=
  mnemonics_to_end buf l q
  \/ (q < l /\ char_at buf q = chr ":" /\ mnemonics_to_end buf l (q + 1)).

(** The exponent digits found behind an exponent letter at the cursor:
    what skipExponent returns once it has seen the letter. *)
Definition exponent_digits (st : lex_state_t) : Z :=
  fst ((step ;;; skipWs ;;; skipPlusmn ;;; skipNumbers) st).

(** The token type that goes with an opening quote. *)
Definition string_type_of (quote : Z) : scpi_token_type_t :=
  if quote =? chr x22 then SCPI_TOKEN_DOUBLE_QUOTE_PROGRAM_DATA
  else SCPI_TOKEN_SINGLE_QUOTE_PROGRAM_DATA.

(** The bytes strictly between [q] and [c] are 7-bit and none is [quote]. *)
Definition plain_body (buf : list byte) (quote q c : Z) : Prop :=
  forall j, q < j < c ->
    isascii7bit (char_at buf j) = true /\ char_at buf j <> quote.

Definition dquote : byte := x22.

(** The bytes strictly between [q] and [c] may all stand inside an
    expression. *)
Definition expression_body (buf : list byte) (q c : Z) : Prop :=
  forall j, q < j < c -> isProgramExpression (char_at buf j) = true.

(** The call is not the one case in which scpiLex_ProgramExpression answers
    from the length its caller left in the token. *)
Definition len_is_written (d : detector) (token : scpi_token_t)
  (st : lex_state_t) : Prop :=
  d = ProgramExpression ->
  tok_len token <= 0 \/ (is_eos st = false /\ cur st = chr "(").

(** Neither a colon nor a letter stands at offset [q]: no compound header
    can begin there. *)
Definition header_cannot_start_compound (buf : list byte) (q l : Z) : Prop :=
  l <= q \/ (char_at buf q <> chr ":" /\ isalpha (char_at buf q) = false).

(** What scpiLex_ProgramHeader guarantees about the first byte and about the
    question mark of a query. *)
Definition header_marks (buf : list byte) (q l : Z)
  (tok : scpi_token_t) (s : lex_state_t) : Prop :=
  exists q',
    s = mkState buf q' l
    /\ (tok_type tok = SCPI_TOKEN_UNKNOWN
        <-> no_star buf q l /\ header_cannot_start_compound buf q l)
    /\ (tok_type tok = SCPI_TOKEN_COMMON_QUERY_PROGRAM_HEADER
        \/ tok_type tok = SCPI_TOKEN_COMPOUND_QUERY_PROGRAM_HEADER ->
        q + 1 < q' /\ q' <= l /\ char_at buf (q' - 1) = chr "?")
    /\ (tok_type tok = SCPI_TOKEN_COMMON_PROGRAM_HEADER
        \/ tok_type tok = SCPI_TOKEN_COMPOUND_PROGRAM_HEADER ->
        l <= q' \/ char_at buf q' <> chr "?").

(** A reported match has moved the cursor forward, unless the expression
    detector, finding no [(] at the cursor, answered from the length left in
    the caller's token. *)
Definition advances (d : detector) (token : scpi_token_t) (st : lex_state_t)
  (tok : scpi_token_t) (s : lex_state_t) : Prop :=
  tok_type tok <> SCPI_TOKEN_UNKNOWN ->
  pos st < pos s
  \/ (d = ProgramExpression /\ 0 < tok_len token
      /\ (is_eos st = true \/ cur st <> chr "(")).

(** Two states with the same cursor and the same [len] whose buffers hold
    the same bytes below [len]; what lies at or beyond [len] may differ. *)
Definition same_window (st st' : lex_state_t) : Prop :=
  pos st' = pos st /\ len st' = len st
  /\ forall j, j < len st -> char_at (buffer st') j = char_at (buffer st) j.

(** A computation whose result depends on the bytes below [len] only. *)
Definition respects {A} (m : Lex A) : Prop :=
  forall st st', same_window st st' ->
    fst (m st') = fst (m st) /\ same_window (snd (m st)) (snd (m st')).

(** The bytes a suffix token is made of. *)
Definition is_suffix_byte (c : Z) : bool :=
  isalpha c || isdigit c || (c =? chr "/") || (c =? chr ".") || (c =? chr "-").

(** Every byte of [buf] from offset [a] up to offset [b] satisfies [p]. *)
Definition all_in (p : Z -> bool) (buf : list byte) (a b : Z) : Prop :=
  forall j, a <= j < b -> p (char_at buf j) = true.

Definition suffix_post (buf : list byte) (q : Z)
  (tok : scpi_token_t) (n : Z) (s : lex_state_t) : Prop :=
  tok_type tok = SCPI_TOKEN_SUFFIX_PROGRAM_DATA ->
  tok_ptr tok = q /\ 0 < tok_len tok /\ n = tok_len tok
  /\ pos s = q + tok_len tok
  /\ (char_at buf q = chr "/" \/ isalpha (char_at buf q) = true)
  /\ all_in is_suffix_byte buf q (q + tok_len tok).

(** ** Reasoning about lexer computations *)

Lemma wp_ret {A} (a : A) st Q : Q a st -> wp (ret a) st Q.
Proof. exact (fun H => H). Qed.

Lemma wp_bind {A B} (m : Lex A) (k : A -> Lex B) st Q :
  wp m st (fun a s => wp (k a) s Q) -> wp (bind m k) st Q.
Proof. unfold wp, bind. destruct (m st) as [a s]. exact (fun H => H). Qed.

Lemma wp_conseq {A} (m : Lex A) st (Q Q' : A -> lex_state_t -> Prop) :
  wp m st Q -> (forall a s, Q a s -> Q' a s) -> wp m st Q'.
Proof. unfold wp. intros H HQ. apply HQ, H. Qed.

Lemma wp_run {A} (m : Lex A) st Q a s : wp m st Q -> m st = (a, s) -> Q a s.
Proof. unfold wp. intros H E. rewrite E in H. exact H. Qed.

Lemma wp_fun {A} (f : lex_state_t -> A * lex_state_t) st Q :
  Q (fst (f st)) (snd (f st)) -> wp (fun s => f s) st Q.
Proof. exact (fun H => H). Qed.

Lemma wp_get_pos st Q : Q (pos st) st -> wp get_pos st Q.
Proof. exact (fun H => H). Qed.

Lemma wp_put_pos p st Q : Q tt (set_pos st p) -> wp (put_pos p) st Q.
Proof. exact (fun H => H). Qed.

Lemma wp_step st Q : Q tt (advance st) -> wp step st Q.
Proof. exact (fun H => H). Qed.

Lemma wp_at_eos st Q : Q (is_eos st) st -> wp at_eos st Q.
Proof. exact (fun H => H). Qed.

Lemma wp_peek st Q : Q (cur st) st -> wp peek st Q.
Proof. exact (fun H => H). Qed.

Lemma wp_end_pos st Q : Q (len st) st -> wp end_pos st Q.
Proof. exact (fun H => H). Qed.

Lemma wp_skip_one p buf q l Q :
  (q < l -> p (char_at buf q) = true -> Q SKIP_OK (mkState buf (q + 1) l)) ->
  (l <= q \/ p (char_at buf q) = false -> Q SKIP_NONE (mkState buf q l)) ->
  wp (skip_one p) (mkState buf q l) Q.
Proof.
  intros Hok Hnone. unfold wp, skip_one, is_eos, cur. cbn [pos len buffer].
  fold (char_at buf q).
  destruct (l <=? q) eqn:E; cbn [negb andb].
  - apply Hnone. left. apply Z.leb_le, E.
  - apply Z.leb_gt in E. destruct (p (char_at buf q)) eqn:P.
    + apply Hok; [exact E | reflexivity].
    + apply Hnone. right. reflexivity.
Qed.

(** What a run of [skip_run] with enough fuel computes: it stops exactly
    where the C loop does, at the first byte that is past the end or fails
    [p], having counted the bytes it passed. *)
Lemma skip_run_spec p fuel : forall n buf q l,
  (Z.to_nat (l - q) <= fuel)%nat ->
  exists k,
    skip_run p fuel n (mkState buf q l) = (n + k, mkState buf (q + k) l)
    /\ 0 <= k /\ (k = 0 \/ q + k <= l)
    /\ (l <= q + k \/ p (char_at buf (q + k)) = false)
    /\ (forall j, q <= j < q + k -> p (char_at buf j) = true).
Proof.
  induction fuel as [|fuel IH]; intros n buf q l Hf.
  - exists 0. cbn [skip_run]. rewrite !Z.add_0_r.
    repeat split; lia.
  - cbn [skip_run]. unfold is_eos, cur. cbn [pos len buffer].
    fold (char_at buf q).
    destruct (l <=? q) eqn:E; cbn [negb andb].
    + apply Z.leb_le in E. exists 0. rewrite !Z.add_0_r.
      repeat split; lia.
    + apply Z.leb_gt in E. destruct (p (char_at buf q)) eqn:P.
      * unfold advance, set_pos. cbn [pos len buffer].
        destruct (IH (n + 1) buf (q + 1) l) as (k & Hk & H0 & Hb & Hs & Ha);
          [lia|].
        exists (k + 1). rewrite Hk.
        replace (n + 1 + k) with (n + (k + 1)) by lia.
        replace (q + 1 + k) with (q + (k + 1)) in * by lia.
        repeat split; try lia; try assumption.
        intros j Hj. destruct (Z.eq_dec j q) as [->|Hne]; [exact P|].
        apply Ha. lia.
      * exists 0. rewrite !Z.add_0_r.
        repeat split; try lia. right. exact P.
Qed.

Lemma wp_skip_while p buf q l Q :
  (forall k, 0 <= k -> (k = 0 \/ q + k <= l) ->
     (l <= q + k \/ p (char_at buf (q + k)) = false) ->
     (forall j, q <= j < q + k -> p (char_at buf j) = true) ->
     Q k (mkState buf (q + k) l)) ->
  wp (skip_while p) (mkState buf q l) Q.
Proof.
  intros H. unfold wp, skip_while, remaining. cbn [pos len buffer].
  destruct (skip_run_spec p (Z.to_nat (l - q)) 0 buf q l) as
    (k & Hk & H0 & Hb & Hs & Ha); [lia|].
  rewrite Hk. cbn [fst snd]. rewrite Z.add_0_l. apply H; assumption.
Qed.

(** One step of symbolic execution: open the next bind or run a
    primitive of the monad. *)
Ltac wp_prim :=
  lazymatch goal with
  | |- wp (bind _ _) _ _ => apply wp_bind
  | |- wp (ret _) _ _ => apply wp_ret
  | |- wp get_pos _ _ => apply wp_get_pos
  | |- wp (put_pos _) _ _ => apply wp_put_pos
  | |- wp step _ _ => apply wp_step
  | |- wp at_eos _ _ => apply wp_at_eos
  | |- wp peek _ _ => apply wp_peek
  | |- wp end_pos _ _ => apply wp_end_pos
  end.

Ltac wp_simpl :=
  cbv beta zeta delta [set_pos advance is_eos cur with_type with_ptr with_len] in *;
  cbn [pos len buffer fst snd tok_type tok_ptr tok_len] in *;
  repeat match goal with
    | |- context [chr (nth (Z.to_nat ?q) ?buf x00)] => fold (char_at buf q)
    end.

Ltac wp_basic := repeat (wp_prim; wp_simpl).

(** Decide the comparisons of the tri-state [int] results. *)
Ltac zc :=
  cbn [Z.leb Z.ltb Z.compare Pos.compare Pos.compare_cont Z.eqb Pos.eqb
       negb andb orb Z.opp CompOpp].
Ltac skips := unfold SKIP_NONE, SKIP_OK, SKIP_INCOMPLETE, truthy; zc.

(** Equal results, field by field. *)
Ltac eq_done := repeat first [reflexivity | lia | progress f_equal].

(** ** Specifications of the skip functions *)

Lemma wp_walk_mnemonic buf q l Q :
  (forall k, 0 <= k -> (k = 0 \/ q + k <= l) ->
     (k = 0 -> l <= q \/ isalpha (char_at buf q) = false) ->
     (0 < k -> isalpha (char_at buf q) = true
               /\ (l <= q + k \/ is_mnemonic_tail (char_at buf (q + k)) = false)) ->
     (forall j, q < j < q + k -> is_mnemonic_tail (char_at buf j) = true) ->
     Q tt (mkState buf (q + k) l)) ->
  wp walk_mnemonic (mkState buf q l) Q.
Proof.
  intros H. unfold walk_mnemonic. wp_basic.
  destruct (l <=? q) eqn:E; cbn [negb andb]; [|destruct (isalpha (char_at buf q)) eqn:A].
  - apply Z.leb_le in E. wp_basic.
    specialize (H 0). rewrite Z.add_0_r in H. apply H; try lia.
  - apply Z.leb_gt in E. wp_basic. apply wp_skip_while.
    intros k Hk Hb Hs Ha. wp_basic.
    replace (q + 1 + k) with (q + (k + 1)) in * by lia.
    apply H; try lia.
    + intros _. split; [reflexivity|]. exact Hs.
    + intros j Hj. apply Ha. lia.
  - wp_basic. specialize (H 0). rewrite Z.add_0_r in H.
    apply H; try lia; try (intros _; right; reflexivity).
Qed.

(** skipProgramMnemonic: the sign of the result tells whether the buffer
    ended where the mnemonic stopped, its magnitude is the mnemonic length. *)
Lemma wp_skipProgramMnemonic buf q l Q :
  (forall k, 0 <= k -> (k = 0 \/ q + k <= l) ->
     (k = 0 -> l <= q \/ isalpha (char_at buf q) = false) ->
     (0 < k -> isalpha (char_at buf q) = true
               /\ (l <= q + k \/ is_mnemonic_tail (char_at buf (q + k)) = false)) ->
     (forall j, q < j < q + k -> is_mnemonic_tail (char_at buf j) = true) ->
     Q (if l <=? q + k then - k else k) (mkState buf (q + k) l)) ->
  wp skipProgramMnemonic (mkState buf q l) Q.
Proof.
  intros H. unfold skipProgramMnemonic. wp_basic.
  apply wp_walk_mnemonic. intros k Hk Hb H0 H1 Ha. wp_basic.
  specialize (H k Hk Hb H0 H1 Ha).
  unfold SKIP_INCOMPLETE, SKIP_OK.
  destruct (l <=? q + k); wp_basic.
  - replace ((q + k - q) * -1) with (- k) by lia. exact H.
  - replace ((q + k - q) * 1) with k by lia. exact H.
Qed.

(** The three results of skipCommonProgramHeader. *)
Lemma wp_skipCommonProgramHeader buf q l Q :
  (l <= q \/ char_at buf q <> chr "*" -> Q SKIP_NONE (mkState buf q l)) ->
  (q < l -> char_at buf q = chr "*" ->
     l <= q + 1 \/ isalpha (char_at buf (q + 1)) = false ->
     Q SKIP_INCOMPLETE (mkState buf (q + 1) l)) ->
  (forall k, q < l -> char_at buf q = chr "*" -> 0 < k -> q + 1 + k <= l ->
     isalpha (char_at buf (q + 1)) = true ->
     (l <= q + 1 + k \/ is_mnemonic_tail (char_at buf (q + 1 + k)) = false) ->
     (forall j, q + 1 < j < q + 1 + k -> is_mnemonic_tail (char_at buf j) = true) ->
     Q SKIP_OK (mkState buf (q + 1 + k) l)) ->
  wp skipCommonProgramHeader (mkState buf q l) Q.
Proof.
  intros Hnone Hinc Hok. unfold skipCommonProgramHeader, skipStar.
  apply wp_bind. apply wp_skip_one.
  - intros Hq Hc. apply Z.eqb_eq in Hc. cbn [truthy SKIP_OK Z.eqb negb].
    apply wp_bind. apply wp_skipProgramMnemonic.
    intros k Hk Hb H0 H1 Ha. wp_basic.
    destruct (Z.eq_dec k 0) as [->|Hne].
    + rewrite Z.add_0_r in *. specialize (H0 eq_refl).
      unfold SKIP_NONE, SKIP_INCOMPLETE, SKIP_OK.
      destruct (l <=? q + 1) eqn:E; cbn; apply Hinc; try assumption.
    + assert (0 < k) as Hpos by lia. destruct (H1 Hpos) as [A S].
      unfold SKIP_NONE, SKIP_INCOMPLETE, SKIP_OK.
      assert (((if l <=? q + 1 + k then - k else k) =? 0) = false) as ->.
      { destruct (l <=? q + 1 + k); apply Z.eqb_neq; lia. }
      cbn [andb].
      assert ((((if l <=? q + 1 + k then - k else k) <=? -1)
               || (1 <=? (if l <=? q + 1 + k then - k else k))) = true) as ->.
      { destruct (l <=? q + 1 + k); apply orb_true_iff;
          [left; apply Z.leb_le|right; apply Z.leb_le]; lia. }
      wp_basic. apply Hok; try assumption; try lia.
  - intros Hn. cbn [truthy SKIP_NONE Z.eqb negb]. wp_basic. apply Hnone.
    destruct Hn as [Hn|Hn]; [left; exact Hn|right].
    apply Z.eqb_neq. exact Hn.
Qed.

Lemma wp_compound_loop fuel : forall buf q l (Q : Z -> lex_state_t -> Prop),
  (forall r q', q <= q' -> (q' = q \/ q' <= l) ->
     (r = SKIP_OK \/ (r = SKIP_INCOMPLETE /\ q < q' /\ dangling_colon buf l q')) ->
     Q r (mkState buf q' l)) ->
  wp (compound_loop fuel) (mkState buf q l) Q.
Proof.
  induction fuel as [|fuel IH]; intros buf q l Q H.
  - cbn [compound_loop]. wp_basic. apply H; try lia; try (left; reflexivity).
  - cbn [compound_loop]. unfold skipColon. apply wp_bind. apply wp_skip_one.
    + intros Hq Hc. apply Z.eqb_eq in Hc. cbn [truthy SKIP_OK Z.eqb negb].
      apply wp_bind. apply wp_skipProgramMnemonic.
      intros k Hk Hb H0 H1 Ha.
      unfold SKIP_INCOMPLETE, SKIP_NONE.
      destruct (Z.eq_dec k 0) as [->|Hne].
      * rewrite Z.add_0_r in *. specialize (H0 eq_refl).
        assert (((if l <=? q + 1 then - 0 else 0) <=? -1) = false) as ->.
        { destruct (l <=? q + 1); reflexivity. }
        assert (((if l <=? q + 1 then - 0 else 0) =? 0) = true) as ->.
        { destruct (l <=? q + 1); reflexivity. }
        wp_basic. apply H; try lia. right. split; [reflexivity|].
        split; [lia|]. split.
        -- replace (q + 1 - 1) with q by lia. exact Hc.
        -- exact H0.
      * destruct (l <=? q + 1 + k) eqn:E.
        -- assert ((- k <=? -1) = true) as -> by (apply Z.leb_le; lia).
           wp_basic. apply H; try lia; try (left; reflexivity).
        -- assert ((k <=? -1) = false) as -> by (apply Z.leb_gt; lia).
           assert ((k =? 0) = false) as -> by (apply Z.eqb_neq; lia).
           apply IH. intros r q' Hq' Hb' Hr. apply H; try lia.
           destruct Hr as [->|(-> & Hlt & Hd)]; [left; reflexivity|].
           right. split; [reflexivity|]. split; [lia|exact Hd].
    + intros Hn. cbn [truthy SKIP_NONE Z.eqb negb]. wp_basic.
      apply H; try lia; try (left; reflexivity).
Qed.

(** The results of skipCompoundProgramHeader. *)
Lemma wp_skipCompoundProgramHeader buf q l Q :
  (forall r q', q <= q' -> (q' = q \/ q' <= l) ->
     (r = SKIP_NONE /\ q' = q)
     \/ (r = SKIP_OK /\ q < q')
     \/ (r = SKIP_INCOMPLETE /\ q < q' /\ dangling_colon buf l q') ->
     Q r (mkState buf q' l)) ->
  wp skipCompoundProgramHeader (mkState buf q l) Q.
Proof.
  intros H. unfold skipCompoundProgramHeader, skipColon.
  apply wp_bind. apply wp_skip_one.
  - intros Hq Hc. apply Z.eqb_eq in Hc.
    apply wp_bind. apply wp_skipProgramMnemonic.
    intros k Hk Hb H0 H1 Ha.
    unfold SKIP_INCOMPLETE, SKIP_NONE, SKIP_OK.
    destruct (Z.eq_dec k 0) as [->|Hne].
    + rewrite Z.add_0_r in *. specialize (H0 eq_refl).
      assert ((1 <=? (if l <=? q + 1 then - 0 else 0)) = false) as ->.
      { destruct (l <=? q + 1); reflexivity. }
      assert (((if l <=? q + 1 then - 0 else 0) <=? -1) = false) as ->.
      { destruct (l <=? q + 1); reflexivity. }
      cbn [truthy Z.eqb negb]. wp_basic. apply H; try lia.
      right. right. split; [reflexivity|]. split; [lia|]. split.
      * replace (q + 1 - 1) with q by lia. exact Hc.
      * exact H0.
    + destruct (l <=? q + 1 + k) eqn:E.
      * assert ((1 <=? - k) = false) as -> by (apply Z.leb_gt; lia).
        assert ((- k <=? -1) = true) as -> by (apply Z.leb_le; lia).
        wp_basic. apply H; try lia.
        right. left. split; [reflexivity|lia].
      * assert ((1 <=? k) = true) as -> by (apply Z.leb_le; lia).
        apply wp_fun. apply wp_compound_loop.
        intros r q' Hq' Hb' Hr. apply H; try lia.
        destruct Hr as [->|(-> & Hlt & Hd)].
        -- right. left. split; [reflexivity|lia].
        -- right. right. split; [reflexivity|]. split; [lia|exact Hd].
  - intros Hn. apply wp_bind. apply wp_skipProgramMnemonic.
    intros k Hk Hb H0 H1 Ha.
    unfold SKIP_INCOMPLETE, SKIP_NONE, SKIP_OK.
    destruct (Z.eq_dec k 0) as [->|Hne].
    + rewrite Z.add_0_r in *.
      assert ((1 <=? (if l <=? q then - 0 else 0)) = false) as ->.
      { destruct (l <=? q); reflexivity. }
      assert (((if l <=? q then - 0 else 0) <=? -1) = false) as ->.
      { destruct (l <=? q); reflexivity. }
      cbn [truthy Z.eqb negb]. wp_basic. apply H; try lia.
      left. split; reflexivity.
    + destruct (l <=? q + k) eqn:E.
      * assert ((1 <=? - k) = false) as -> by (apply Z.leb_gt; lia).
        assert ((- k <=? -1) = true) as -> by (apply Z.leb_le; lia).
        wp_basic. apply H; try lia.
        right. left. split; [reflexivity|lia].
      * assert ((1 <=? k) = true) as -> by (apply Z.leb_le; lia).
        apply wp_fun. apply wp_compound_loop.
        intros r q' Hq' Hb' Hr. apply H; try lia.
        destruct Hr as [->|(-> & Hlt & Hd)].
        -- right. left. split; [reflexivity|lia].
        -- right. right. split; [reflexivity|]. split; [lia|exact Hd].
Qed.

(** ** Specifications of the detectors *)

Ltac post_intro q' :=
  cbn [fst snd]; unfold header_post;
  exists q'; cbn [tok_type tok_ptr tok_len];
  split; [reflexivity|]; split; [lia|]; split; [lia|];
  split; [reflexivity|]; split; [lia|]; split; [lia|].

Lemma scpiLex_ProgramHeader_spec token buf q l :
  wp (scpiLex_ProgramHeader token) (mkState buf q l)
     (fun r s => header_post buf q l (fst r) (snd r) s).
Proof.
  unfold scpiLex_ProgramHeader. wp_basic.
  apply wp_skipCommonProgramHeader.
  - intros Hns. skips. apply wp_bind. apply wp_bind.
    apply wp_skipCompoundProgramHeader.
    intros r q' Hq' Hb [(-> & ->)|[(-> & Hlt)|(-> & Hlt & Hd)]];
      skips.
    + wp_basic. cbn [is_unknown token_type_eqb tok_type negb].
      wp_basic. post_intro q. left. repeat split. exact Hns.
    + apply wp_bind. unfold skipChr. apply wp_skip_one.
      * intros Hl Hc. skips. wp_basic.
        cbn [is_unknown token_type_eqb tok_type negb]. wp_basic.
        post_intro (q' + 1). right. right. right. left.
        split; [right; reflexivity|]. split; [exact Hns|lia].
      * intros Hn. skips. wp_basic.
        cbn [is_unknown token_type_eqb tok_type negb]. wp_basic.
        post_intro q'. right. right. right. left.
        split; [left; reflexivity|]. split; [exact Hns|lia].
    + wp_basic. cbn [is_unknown token_type_eqb tok_type negb]. wp_basic.
      post_intro q'. right. right. right. right.
      split; [reflexivity|]. split; [exact Hns|]. split; [lia|exact Hd].
  - intros Hl Hc Hm. skips. wp_basic.
    cbn [is_unknown token_type_eqb tok_type negb]. wp_basic.
    post_intro (q + 1). right. left.
    split; [reflexivity|]. split; [lia|]. split; [exact Hc|].
    split; [reflexivity|exact Hm].
  - intros k Hl Hc Hk Hb Ha Hs Hall. skips. apply wp_bind. apply wp_bind.
    unfold skipChr. apply wp_skip_one.
    + intros Hl' Hc'. skips. wp_basic.
      cbn [is_unknown token_type_eqb tok_type negb]. wp_basic.
      post_intro (q + 1 + k + 1). right. right. left.
      split; [right; reflexivity|]. split; [lia|]. split; [exact Hc|].
      split; [lia|exact Ha].
    + intros Hn. skips. wp_basic.
      cbn [is_unknown token_type_eqb tok_type negb]. wp_basic.
      post_intro (q + 1 + k). right. right. left.
      split; [left; reflexivity|]. split; [lia|]. split; [exact Hc|].
      split; [lia|exact Ha].
Qed.

Lemma wp_close_token token ty (restore : bool) buf p l Q :
  (0 < p - tok_ptr token ->
     Q (mkToken ty (tok_ptr token) (p - tok_ptr token)) (mkState buf p l)) ->
  (p - tok_ptr token <= 0 ->
     Q (mkToken SCPI_TOKEN_UNKNOWN (tok_ptr token)
          (if restore then 0 else p - tok_ptr token))
       (mkState buf (if restore then tok_ptr token else p) l)) ->
  wp (close_token token ty restore) (mkState buf p l) Q.
Proof.
  intros Hpos Hzero. unfold close_token. wp_basic.
  destruct (0 <? p - tok_ptr token) eqn:E.
  - apply Z.ltb_lt in E. wp_basic. apply Hpos, E.
  - apply Z.ltb_ge in E. destruct restore; wp_basic; apply Hzero, E.
Qed.

Lemma wp_skipMantissa buf q l Q :
  (forall m q', 0 <= m -> q + m <= q' -> (q' = q \/ q' <= l) ->
     Q m (mkState buf q' l)) ->
  wp skipMantissa (mkState buf q l) Q.
Proof.
  intros H. unfold skipMantissa, skipPlusmn, skipNumbers, skipChr.
  apply wp_bind. apply wp_skip_one; intros.
  - apply wp_bind. apply wp_skip_while. intros n1 ? ? ? ?.
    apply wp_bind. apply wp_skip_one; intros; skips.
    + apply wp_bind. apply wp_skip_while. intros n2 ? ? ? ?. wp_basic.
      apply H; lia.
    + wp_basic. apply H; lia.
  - apply wp_bind. apply wp_skip_while. intros n1 ? ? ? ?.
    apply wp_bind. apply wp_skip_one; intros; skips.
    + apply wp_bind. apply wp_skip_while. intros n2 ? ? ? ?. wp_basic.
      apply H; lia.
    + wp_basic. apply H; lia.
Qed.

Lemma wp_skipExponent buf q l Q :
  (forall x q', 0 <= x -> q + x <= q' -> (q' = q \/ q' <= l) ->
     Q x (mkState buf q' l)) ->
  wp skipExponent (mkState buf q l) Q.
Proof.
  intros H. unfold skipExponent, skipWs, skipPlusmn, skipNumbers. wp_basic.
  destruct (l <=? q) eqn:E; cbn [negb andb];
    [|destruct (isE (char_at buf q))].
  - wp_basic. apply H; lia.
  - apply Z.leb_gt in E. wp_basic. apply wp_skip_while. intros w ? ? ? ?.
    apply wp_bind. apply wp_skip_one; intros.
    + apply wp_skip_while. intros x ? ? ? ?. apply H; lia.
    + apply wp_skip_while. intros x ? ? ? ?. apply H; lia.
  - wp_basic. apply H; lia.
Qed.

Lemma wp_suffix_loop fuel : forall buf q l (Q : unit -> lex_state_t -> Prop),
  (forall q', q <= q' -> (q' = q \/ q' <= l) -> Q tt (mkState buf q' l)) ->
  wp (suffix_loop fuel) (mkState buf q l) Q.
Proof.
  induction fuel as [|fuel IH]; intros buf q l Q H.
  - cbn [suffix_loop]. wp_basic. apply H; lia.
  - cbn [suffix_loop]. unfold skipSlashDot, skipAlpha, skipChr, skipDigit.
    apply wp_bind. apply wp_skip_one; intros; skips.
    + apply wp_bind. apply wp_skip_while. intros a ? ? ? ?.
      apply wp_bind. apply wp_skip_one; intros;
        (apply wp_bind; apply wp_skip_one; intros;
         apply IH; intros; apply H; lia).
    + wp_basic. apply H; lia.
Qed.

Lemma wp_suffix_loop_run buf q l (Q : unit -> lex_state_t -> Prop) :
  (forall q', q <= q' -> (q' = q \/ q' <= l) -> Q tt (mkState buf q' l)) ->
  wp (fun st => suffix_loop (remaining st) st) (mkState buf q l) Q.
Proof.
  intros H. exact (wp_suffix_loop _ buf q l Q H).
Qed.

(** The cursor after skipQuoteProgramData, whatever the fuel. *)
Lemma quote_loop_range quote fuel : forall buf q l,
  exists q', quote_loop quote fuel (mkState buf q l) = mkState buf q' l
             /\ q <= q' /\ (q' = q \/ q' <= l).
Proof.
  induction fuel as [|fuel IH]; intros buf q l.
  - exists q. cbn [quote_loop]. repeat split; lia.
  - cbn [quote_loop]. unfold ischr. wp_simpl.
    destruct (l <=? q) eqn:E.
    { exists q. repeat split; lia. }
    apply Z.leb_gt in E.
    destruct (isascii7bit (char_at buf q) && negb (char_at buf q =? quote)).
    { destruct (IH buf (q + 1) l) as (q' & -> & ? & ?).
      exists q'. repeat split; lia. }
    destruct (char_at buf q =? quote).
    2:{ exists q. repeat split; lia. }
    destruct (negb (l <=? q + 1) && (char_at buf (q + 1) =? quote)) eqn:D.
    + apply andb_true_iff in D. destruct D as [D _].
      apply negb_true_iff, Z.leb_gt in D.
      destruct (IH buf (q + 1 + 1) l) as (q' & -> & ? & ?).
      exists q'. repeat split; lia.
    + exists (q + 1 - 1). repeat split; lia.
Qed.

Lemma wp_skipQuoteProgramData quote buf q l Q :
  (forall q', q <= q' -> (q' = q \/ q' <= l) -> Q tt (mkState buf q' l)) ->
  wp (skipQuoteProgramData quote) (mkState buf q l) Q.
Proof.
  intros H. unfold wp, skipQuoteProgramData. cbn [fst snd].
  destruct (quote_loop_range quote (remaining (mkState buf q l)) buf q l)
    as (q' & -> & ? & ?).
  apply H; assumption.
Qed.

(** The digit loop of the arbitrary-block header never moves the cursor
    back or past the end, and never makes the length negative. *)
Lemma block_length_loop_range i : forall acc buf q l, 0 <= acc ->
  exists k acc',
    block_length_loop i acc (mkState buf q l)
      = ((Z.of_nat i - k, acc'), mkState buf (q + k) l)
    /\ 0 <= k <= Z.of_nat i /\ (k = 0 \/ q + k <= l) /\ 0 <= acc'.
Proof.
  induction i as [|i IH]; intros acc buf q l Hacc.
  - exists 0, acc. cbn [block_length_loop Z.of_nat]. rewrite Z.add_0_r.
    repeat split; lia.
  - cbn [block_length_loop]. wp_simpl.
    destruct (l <=? q) eqn:E; cbn [negb andb].
    { exists 0, acc. rewrite Z.add_0_r, Z.sub_0_r. repeat split; lia. }
    apply Z.leb_gt in E.
    destruct (isdigit (char_at buf q)) eqn:D.
    + unfold isdigit in D. apply andb_true_iff in D. destruct D as [D1 D2].
      apply Z.leb_le in D1.
      destruct (IH (acc * 10 + (char_at buf q - chr "0")) buf (q + 1) l)
        as (k & acc' & -> & ? & ? & ?); [lia|].
      exists (k + 1), acc'.
      replace (Z.of_nat (S i) - (k + 1)) with (Z.of_nat i - k) by lia.
      replace (q + (k + 1)) with (q + 1 + k) by lia.
      repeat split; lia.
    + exists 0, acc. rewrite Z.add_0_r, Z.sub_0_r. repeat split; lia.
Qed.

Ltac frame_done :=
  cbn [fst snd]; unfold frame_post; eexists;
  cbn [tok_type tok_ptr tok_len];
  split; [reflexivity|]; split; [lia|]; split; [lia|];
  split; intros Hty;
  first [ discriminate Hty
        | exfalso; apply Hty; reflexivity
        | repeat split; lia
        | left; repeat split; lia
        | idtac ].

Lemma frame_WhiteSpace token buf q l :
  wp (scpiLex_WhiteSpace token) (mkState buf q l)
     (fun r s => frame_post WhiteSpace token buf q l (fst r) (snd r) s).
Proof.
  unfold scpiLex_WhiteSpace, skipWs. wp_basic.
  apply wp_skip_while. intros k ? ? ? ?.
  apply wp_bind. apply wp_close_token; wp_simpl; intros; wp_basic; frame_done.
Qed.

Lemma frame_ProgramHeader token buf q l :
  wp (scpiLex_ProgramHeader token) (mkState buf q l)
     (fun r s => frame_post ProgramHeader token buf q l (fst r) (snd r) s).
Proof.
  eapply wp_conseq; [apply scpiLex_ProgramHeader_spec|].
  intros [tok n] s (q' & -> & Hq & Hb & Hp & Hl & Hn & Hc). cbn [fst snd] in *.
  exists q'. split; [reflexivity|]. split; [lia|]. split; [lia|].
  split; intros Hty.
  - destruct Hc as [(_ & -> & _)|[(E & _)|[([E|E] & _)|[([E|E] & _)|(E & _)]]]];
      try (rewrite E in Hty; discriminate Hty).
    repeat split; try lia; try (left; reflexivity).
  - left. repeat split; lia.
Qed.

Lemma frame_CharacterProgramData token buf q l :
  wp (scpiLex_CharacterProgramData token) (mkState buf q l)
     (fun r s => frame_post CharacterProgramData token buf q l (fst r) (snd r) s).
Proof.
  unfold scpiLex_CharacterProgramData. wp_basic.
  apply wp_walk_mnemonic. intros k ? ? ? ? ?.
  apply wp_bind. apply wp_close_token; wp_simpl; intros; wp_basic; frame_done.
Qed.

Lemma frame_DecimalNumericProgramData token buf q l :
  wp (scpiLex_DecimalNumericProgramData token) (mkState buf q l)
     (fun r s =>
        frame_post DecimalNumericProgramData token buf q l (fst r) (snd r) s).
Proof.
  unfold scpiLex_DecimalNumericProgramData, skipWs. wp_basic.
  apply wp_skipMantissa. intros m q1 ? ? ?. apply wp_bind.
  unfold truthy. destruct (m =? 0); cbn [negb].
  - wp_basic.
    apply wp_close_token; wp_simpl; intros; wp_basic; frame_done.
  - wp_basic. apply wp_skip_while. intros w ? ? ? ?.
    apply wp_bind. apply wp_skipExponent. intros x q3 ? ? ?.
    destruct (x =? 0); cbn [negb]; wp_basic;
      (apply wp_close_token; wp_simpl; intros; wp_basic; frame_done).
Qed.

Lemma frame_SuffixProgramData token buf q l :
  wp (scpiLex_SuffixProgramData token) (mkState buf q l)
     (fun r s => frame_post SuffixProgramData token buf q l (fst r) (snd r) s).
Proof.
  unfold scpiLex_SuffixProgramData, skipChr, skipAlpha, skipDigit. wp_basic.
  assert (forall q1, q <= q1 -> (q1 = q \/ q1 <= l) ->
    wp (token0 <- close_token (mkToken (tok_type token) q (tok_len token))
                    SCPI_TOKEN_SUFFIX_PROGRAM_DATA true ;;
        ret (token0, tok_len token0)) (mkState buf q1 l)
       (fun r s => frame_post SuffixProgramData token buf q l (fst r) (snd r) s))
    as Hclose.
  { intros q1 ? ?. apply wp_bind.
    apply wp_close_token; wp_simpl; intros; wp_basic; frame_done. }
  assert (forall q1, q <= q1 -> (q1 = q \/ q1 <= l) ->
    wp (a <- skip_while isalpha ;;
        (if truthy a then
           skip_one (fun x => x =? chr "-") ;;; skip_one isdigit ;;;
           (fun st => suffix_loop (remaining st) st)
         else ret tt) ;;;
        token0 <- close_token (mkToken (tok_type token) q (tok_len token))
                    SCPI_TOKEN_SUFFIX_PROGRAM_DATA true ;;
        ret (token0, tok_len token0)) (mkState buf q1 l)
       (fun r s => frame_post SuffixProgramData token buf q l (fst r) (snd r) s))
    as Hrest.
  { intros q1 ? ?. apply wp_bind. apply wp_skip_while. intros a ? ? ? ?.
    apply wp_bind. unfold truthy. destruct (a =? 0); cbn [negb].
    - apply wp_ret. apply Hclose; lia.
    - apply wp_bind. apply wp_skip_one; intros;
        (apply wp_bind; apply wp_skip_one; intros;
         apply wp_suffix_loop_run; intros; apply Hclose; lia). }
  apply wp_skip_one; intros; apply Hrest; lia.
Qed.

Lemma frame_single_char c ty d token buf q l :
  ty <> SCPI_TOKEN_UNKNOWN ->
  wp (single_char_token c ty token) (mkState buf q l)
     (fun r s => frame_post d token buf q l (fst r) (snd r) s).
Proof.
  intros Hne. unfold single_char_token, skipChr. wp_basic.
  apply wp_skip_one; intros; skips; wp_basic.
  - cbn [fst snd]. exists (q + 1). cbn [tok_type tok_ptr tok_len].
    split; [reflexivity|]. split; [lia|]. split; [lia|].
    split; intros Hty; [contradiction|]. left. repeat split; lia.
  - frame_done.
Qed.

Lemma frame_NewLine token buf q l :
  wp (scpiLex_NewLine token) (mkState buf q l)
     (fun r s => frame_post NewLine token buf q l (fst r) (snd r) s).
Proof.
  unfold scpiLex_NewLine, skipChr. wp_basic.
  apply wp_skip_one; intros;
    (apply wp_bind; apply wp_skip_one; intros;
     apply wp_bind; apply wp_close_token; wp_simpl; intros; wp_basic;
     frame_done).
Qed.

Lemma nondecimal_tail (ty : scpi_token_type_t) letter digit
  (token : scpi_token_t) buf q l k :
  base_of ty = Some (letter, digit) ->
  q + 1 < l -> char_at buf q = chr "#" -> letter (char_at buf (q + 1)) = true ->
  0 <= k -> (k = 0 \/ q + 1 + 1 + k <= l) ->
  (l <= q + 1 + 1 + k \/ digit (char_at buf (q + 1 + 1 + k)) = false) ->
  (forall j, q + 1 + 1 <= j < q + 1 + 1 + k -> digit (char_at buf j) = true) ->
  wp (if negb (k =? 0) then
        p <- get_pos ;;
        ret (mkToken ty (q + 2) (p - (q + 2)))
      else
        put_pos q ;;; ret (mkToken SCPI_TOKEN_UNKNOWN q 0))
     (mkState buf (q + 1 + 1 + k) l)
     (fun a s =>
        wp (ret (a, if 0 <? tok_len a then tok_len a + 2 else 0)) s
           (fun r s0 => nondecimal_post buf q l (fst r) (snd r) s0)).
Proof.
  intros Hb Hl Hh Hlet Hk Hbound Hstop Hall.
  destruct (k =? 0) eqn:E; cbn [negb]; wp_basic.
  - exists q. split; [reflexivity|]. left. repeat split.
  - apply Z.eqb_neq in E. cbn [fst snd tok_len].
    assert ((0 <? q + 1 + 1 + k - (q + 2)) = true) as ->
      by (apply Z.ltb_lt; lia).
    exists (q + 1 + 1 + k). split; [reflexivity|]. right.
    exists letter, digit. cbn [tok_type tok_ptr tok_len].
    split; [exact Hb|]. split; [exact Hl|]. split; [exact Hh|].
    split; [exact Hlet|]. split; [reflexivity|]. split; [reflexivity|].
    split; [lia|]. split; [reflexivity|]. split; [lia|]. split.
    + intros j Hj. apply Hall. lia.
    + exact Hstop.
Qed.

Lemma scpiLex_NondecimalNumericData_spec token buf q l :
  wp (scpiLex_NondecimalNumericData token) (mkState buf q l)
     (fun r s => nondecimal_post buf q l (fst r) (snd r) s).
Proof.
  unfold scpiLex_NondecimalNumericData, skipChr, skipHexNum, skipOctNum,
    skipBinNum.
  wp_basic. apply wp_skip_one.
  - intros Hl Hc. apply Z.eqb_eq in Hc. skips. wp_basic.
    destruct (l <=? q + 1) eqn:E; cbn [negb].
    { wp_basic. skips. wp_basic.
      exists q. split; [reflexivity|]. left. repeat split. }
    apply Z.leb_gt in E.
    destruct (isH (char_at buf (q + 1))) eqn:EH;
      [|destruct (isQ (char_at buf (q + 1))) eqn:EQ;
        [|destruct (isB (char_at buf (q + 1))) eqn:EB]].
    + wp_basic. apply wp_skip_while. intros k ? ? ? ?. wp_basic.
      apply (nondecimal_tail SCPI_TOKEN_HEXNUM isH isxdigit token);
        try assumption; try reflexivity; lia.
    + wp_basic. apply wp_skip_while. intros k ? ? ? ?. wp_basic.
      apply (nondecimal_tail SCPI_TOKEN_OCTNUM isQ is_q_digit token);
        try assumption; try reflexivity; lia.
    + wp_basic. apply wp_skip_while. intros k ? ? ? ?. wp_basic.
      apply (nondecimal_tail SCPI_TOKEN_BINNUM isB is_b_digit token);
        try assumption; try reflexivity; lia.
    + wp_basic. skips. wp_basic.
      exists q. split; [reflexivity|]. left. repeat split.
  - intros Hn. skips. wp_basic. skips. wp_basic.
    exists q. split; [reflexivity|]. left. repeat split.
Qed.

Lemma frame_NondecimalNumericData token buf q l :
  wp (scpiLex_NondecimalNumericData token) (mkState buf q l)
     (fun r s => frame_post NondecimalNumericData token buf q l (fst r) (snd r) s).
Proof.
  eapply wp_conseq; [apply scpiLex_NondecimalNumericData_spec|].
  intros [tok n] s (q' & -> & Hc). cbn [fst snd] in *.
  exists q'. split; [reflexivity|].
  destruct Hc as [(Ety & Hp & Hlen & Hn & ->)
                 |(letter & digit & Hb & Hl & Hh & Hlet & Hp & Hlen & Hpos
                   & Hn & Hq' & _)].
  - split; [lia|]. split; [lia|]. split; intros Hty.
    + repeat split; try assumption. left. reflexivity.
    + contradiction.
  - split; [lia|]. split; [lia|]. split; intros Hty.
    + rewrite Hty in Hb. discriminate Hb.
    + left. repeat split; lia.
Qed.

Lemma string_branch (token : scpi_token_t) quote ty buf q l :
  q < l -> char_at buf q = quote ->
  (quote = chr x22 /\ ty = SCPI_TOKEN_DOUBLE_QUOTE_PROGRAM_DATA)
  \/ (quote = chr "'" /\ ty = SCPI_TOKEN_SINGLE_QUOTE_PROGRAM_DATA) ->
  wp (quoted_branch (mkToken (tok_type token) q (tok_len token))
        (skipQuoteProgramData quote) quote ty)
     (mkState buf q l)
     (fun a s =>
        wp (p <- get_pos ;;
            let token := with_len a (p - tok_ptr a) in
            token <-
              (if 0 <? tok_len token then ret token
               else
                 let token := with_type token SCPI_TOKEN_UNKNOWN in
                 put_pos (tok_ptr token) ;;; ret (with_len token 0)) ;;
            ret (token, if 0 <? tok_len token then tok_len token else 0)) s
           (fun r s0 => string_post buf q l (fst r) (snd r) s0)).
Proof.
  intros Hl Hc Hty. unfold quoted_branch. wp_basic.
  unfold wp at 1, skipQuoteProgramData, remaining. cbn [fst snd pos len].
  destruct (quote_loop_range quote (Z.to_nat (l - (q + 1))) buf (q + 1) l)
    as (b & Eb & Hb1 & Hb2).
  rewrite Eb. wp_basic.
  destruct (l <=? b) eqn:E; cbn [negb andb];
    [|destruct (char_at buf b =? quote) eqn:C].
  - wp_basic. rewrite Z.sub_diag. zc. wp_basic.
    exists q. split; [reflexivity|]. split; [reflexivity|]. left. repeat split.
  - apply Z.leb_gt in E. apply Z.eqb_eq in C. wp_basic.
    assert ((0 <? b + 1 - q) = true) as -> by (apply Z.ltb_lt; lia).
    wp_basic. cbn [fst snd tok_len].
    assert ((0 <? b + 1 - q) = true) as -> by (apply Z.ltb_lt; lia).
    exists (b + 1). split; [reflexivity|]. split; [reflexivity|]. right.
    exists quote, b. cbn [tok_type tok_len].
    split; [exact Hl|]. split; [exact Hc|]. split.
    { destruct Hty as [(-> & ->)|(-> & ->)]; [left|right]; split; reflexivity. }
    split; [exact Eb|]. split; [lia|]. split; [exact C|].
    repeat split.
  - wp_basic. rewrite Z.sub_diag. zc. wp_basic.
    exists q. split; [reflexivity|]. split; [reflexivity|]. left. repeat split.
Qed.

Lemma scpiLex_StringProgramData_spec token buf q l :
  wp (scpiLex_StringProgramData token) (mkState buf q l)
     (fun r s => string_post buf q l (fst r) (snd r) s).
Proof.
  unfold scpiLex_StringProgramData. wp_basic.
  destruct (l <=? q) eqn:E; cbn [negb];
    [|destruct (char_at buf q =? chr x22) eqn:D;
      [|destruct (char_at buf q =? chr "'") eqn:S]].
  - wp_basic. rewrite Z.sub_diag. zc. wp_basic.
    exists q. split; [reflexivity|]. split; [reflexivity|]. left. repeat split.
  - apply Z.leb_gt in E. apply Z.eqb_eq in D.
    apply (string_branch token (chr x22) SCPI_TOKEN_DOUBLE_QUOTE_PROGRAM_DATA
             buf q l E D).
    left. split; reflexivity.
  - apply Z.leb_gt in E. apply Z.eqb_eq in S.
    apply (string_branch token (chr "'") SCPI_TOKEN_SINGLE_QUOTE_PROGRAM_DATA
             buf q l E S).
    right. split; reflexivity.
  - wp_basic. rewrite Z.sub_diag. zc. wp_basic.
    exists q. split; [reflexivity|]. split; [reflexivity|]. left. repeat split.
Qed.

Lemma frame_StringProgramData token buf q l :
  wp (scpiLex_StringProgramData token) (mkState buf q l)
     (fun r s => frame_post StringProgramData token buf q l (fst r) (snd r) s).
Proof.
  eapply wp_conseq; [apply scpiLex_StringProgramData_spec|].
  intros [tok n] s (q' & -> & Hp & Hc). cbn [fst snd] in *.
  exists q'. split; [reflexivity|].
  destruct Hc as [(Ety & Hlen & Hn & ->)
                 |(quote & b & Hl & Hq & Hty & Eb & Hb & Hcb & -> & Hlen & Hn)].
  - split; [lia|]. split; [lia|]. split; intros Hty.
    + repeat split; try assumption. left. reflexivity.
    + contradiction.
  - split; [lia|]. split; [lia|]. split; intros Hu.
    + destruct Hty as [(_ & Hty)|(_ & Hty)]; rewrite Hu in Hty; discriminate Hty.
    + left. repeat split; lia.
Qed.

Lemma frame_ArbitraryBlockProgramData token buf q l :
  wp (scpiLex_ArbitraryBlockProgramData token) (mkState buf q l)
     (fun r s =>
        frame_post ArbitraryBlockProgramData token buf q l (fst r) (snd r) s).
Proof.
  unfold scpiLex_ArbitraryBlockProgramData, skipChr. wp_basic.
  apply wp_skip_one.
  - intros Hl Hc. apply Z.eqb_eq in Hc. skips. wp_basic.
    destruct (l <=? q + 1) eqn:E; cbn [negb andb];
      [|destruct (isNonzeroDigit (char_at buf (q + 1))) eqn:D].
    + wp_basic. rewrite E. wp_basic. zc. wp_basic. apply Z.leb_le in E.
      cbn [fst snd]. exists l. cbn [tok_type tok_ptr tok_len].
      split; [reflexivity|]. split; [lia|]. split; [lia|].
      split; intros Hty; [|contradiction].
      repeat split; try lia. right. repeat split; lia.
    + apply Z.leb_gt in E. wp_basic.
      unfold wp at 1.
      destruct (block_length_loop_range
                  (Z.to_nat (char_at buf (q + 1) - chr "0")) 0 buf (q + 1 + 1) l)
        as (k & acc & -> & Hk & Hb & Hacc); [lia|].
      cbn [fst snd].
      destruct (Z.of_nat (Z.to_nat (char_at buf (q + 1) - chr "0")) - k =? 0).
      * wp_basic.
        destruct (q + 1 + 1 + k + acc <=? l) eqn:F; wp_basic; zc; wp_basic.
        -- apply Z.leb_le in F. cbn [fst snd].
           exists (q + 1 + 1 + k + acc). cbn [tok_type tok_ptr tok_len].
           split; [reflexivity|]. split; [lia|]. split; [lia|].
           split; intros Hty; [discriminate Hty|].
           left. repeat split; lia.
        -- apply Z.leb_gt in F. cbn [fst snd].
           exists l. cbn [tok_type tok_ptr tok_len].
           split; [reflexivity|]. split; [lia|]. split; [lia|].
           split; intros Hty; [|contradiction].
           repeat split; try lia. right. repeat split; lia.
      * wp_basic. destruct (l <=? q + 1 + 1 + k) eqn:F; wp_basic; zc; wp_basic.
        -- apply Z.leb_le in F. cbn [fst snd].
           exists l. cbn [tok_type tok_ptr tok_len].
           split; [reflexivity|]. split; [lia|]. split; [lia|].
           split; intros Hty; [|contradiction].
           repeat split; try lia. right. repeat split; lia.
        -- frame_done.
    + wp_basic. assert ((l <=? q + 1) = false) as -> by exact E.
      wp_basic. zc. wp_basic. frame_done.
  - intros Hn. skips. wp_basic. zc. wp_basic. frame_done.
Qed.

Lemma frame_ProgramExpression token buf q l :
  wp (scpiLex_ProgramExpression token) (mkState buf q l)
     (fun r s => frame_post ProgramExpression token buf q l (fst r) (snd r) s).
Proof.
  unfold scpiLex_ProgramExpression, skipProgramExpression. wp_basic.
  destruct (l <=? q) eqn:E; cbn [negb andb];
    [|destruct (char_at buf q =? chr "(") eqn:C].
  - apply Z.leb_le in E. wp_basic.
    destruct (0 <? tok_len token) eqn:L; wp_basic.
    + apply Z.ltb_lt in L. cbn [fst snd]. exists q.
      cbn [tok_type tok_ptr tok_len].
      split; [reflexivity|]. split; [lia|]. split; [lia|].
      split; intros Hty; [discriminate Hty|]. right.
      repeat split; lia.
    + frame_done.
  - apply Z.leb_gt in E. wp_basic. apply wp_skip_while. intros k ? ? ? ?.
    wp_basic.
    destruct (l <=? q + 1 + k) eqn:F; cbn [negb andb];
      [|destruct (char_at buf (q + 1 + k) =? chr ")")].
    + wp_basic. zc. wp_basic. frame_done.
    + apply Z.leb_gt in F. wp_basic.
      assert ((0 <? q + 1 + k + 1 - q) = true) as -> by (apply Z.ltb_lt; lia).
      wp_basic. frame_done.
    + wp_basic. zc. wp_basic. frame_done.
  - apply Z.eqb_neq in C. wp_basic.
    destruct (0 <? tok_len token) eqn:L; wp_basic.
    + apply Z.ltb_lt in L. cbn [fst snd]. exists q.
      cbn [tok_type tok_ptr tok_len].
      split; [reflexivity|]. split; [lia|]. split; [lia|].
      split; intros Hty; [discriminate Hty|]. right.
      repeat split; lia.
    + frame_done.
Qed.

(** The frame of every detector. *)
Lemma detect_frame d token buf q l :
  wp (detect d token) (mkState buf q l)
     (fun r s => frame_post d token buf q l (fst r) (snd r) s).
Proof.
  destruct d; cbn [detect].
  - apply frame_WhiteSpace.
  - apply frame_ProgramHeader.
  - apply frame_CharacterProgramData.
  - apply frame_DecimalNumericProgramData.
  - apply frame_SuffixProgramData.
  - apply frame_NondecimalNumericData.
  - apply frame_StringProgramData.
  - apply frame_ArbitraryBlockProgramData.
  - apply frame_ProgramExpression.
  - apply frame_single_char. discriminate.
  - apply frame_single_char. discriminate.
  - apply frame_single_char. discriminate.
  - apply frame_single_char. discriminate.
  - apply frame_NewLine.
Qed.

(** ** Results on all detectors *)

Lemma detect_frame_run d token st tok n st' :
  detect d token st = (tok, n, st') ->
  frame_post d token (buffer st) (pos st) (len st) tok n st'.
Proof.
  destruct st as [buf q l]. intros E. cbn [buffer pos len].
  exact (wp_run _ _ _ _ _ (detect_frame d token buf q l) E).
Qed.

Lemma firstn_plus {A} (n m : nat) : forall l : list A,
  firstn (n + m) l = firstn n l ++ firstn m (skipn n l).
Proof.
  induction n as [|n IH]; intros l.
  - reflexivity.
  - destruct l as [|x l]; cbn [Nat.add firstn skipn app].
    + rewrite firstn_nil. reflexivity.
    + rewrite IH. reflexivity.
Qed.

Lemma slice_app buf a b c :
  0 <= a <= b -> b <= c -> slice buf a c = slice buf a b ++ slice buf b c.
Proof.
  intros Hab Hbc. unfold slice.
  replace (Z.to_nat (c - a)) with (Z.to_nat (b - a) + Z.to_nat (c - b))%nat
    by lia.
  rewrite firstn_plus, skipn_skipn.
  replace (Z.to_nat (b - a) + Z.to_nat a)%nat with (Z.to_nat b) by lia.
  reflexivity.
Qed.

Lemma token_bytes_slice st t :
  token_bytes st t = slice (buffer st) (tok_ptr t) (tok_ptr t + tok_len t).
Proof.
  unfold token_bytes, slice.
  replace (tok_ptr t + tok_len t - tok_ptr t) with (tok_len t) by lia.
  reflexivity.
Qed.

(** The part of C8 that the code keeps.  A call that reports a match
    returns the number of bytes the cursor advanced, and the consumed span
    is the stripped prefix followed by the token's bytes.  For the
    expression detector this needs a [(] at the cursor or an incoming token
    length that is not positive. *)
Lemma consumed_length_is_cursor_advance d token st tok n st' :
  wf_state st ->
  detect d token st = (tok, n, st') ->
  tok_type tok <> SCPI_TOKEN_UNKNOWN ->
  (d = ProgramExpression ->
     tok_len token <= 0 \/ (is_eos st = false /\ cur st = chr "(")) ->
  n = pos st' - pos st
  /\ pos st <= tok_ptr tok /\ tok_ptr tok + tok_len tok = pos st'
  /\ slice (buffer st) (pos st) (pos st')
     = slice (buffer st) (pos st) (tok_ptr tok) ++ token_bytes st tok.
Proof.
  intros [Hlen Hpos] E Hty Hexpr.
  destruct (detect_frame_run d token st tok n st' E)
    as (q' & -> & Hq & Hb & _ & Hm).
  cbn [pos].
  assert (pos st <= tok_ptr tok /\ 0 <= tok_len tok
          /\ tok_ptr tok + tok_len tok = q'
          /\ n = q' - pos st) as (H1 & H0 & H2 & H3).
  { destruct (Hm Hty) as [H|(Hd & Hl & Hc & _)]; [exact H|].
    exfalso. destruct (Hexpr Hd) as [Hle|(He & Hp)]; [lia|].
    unfold is_eos in He. apply Z.leb_gt in He.
    destruct Hc as [Hc|Hc]; [lia|]. apply Hc. exact Hp. }
  split; [exact H3|]. split; [exact H1|]. split; [exact H2|].
  rewrite token_bytes_slice, H2. apply slice_app; lia.
Qed.

(** ** Running a computation to its result *)

Lemma wp_eq {A} (m : Lex A) st (v : A * lex_state_t) :
  wp m st (fun a s => (a, s) = v) -> m st = v.
Proof. unfold wp. destruct (m st). exact (fun H => H). Qed.

Lemma wp_of_eq {A} (m : Lex A) st a s (Q : A -> lex_state_t -> Prop) :
  m st = (a, s) -> Q a s -> wp m st Q.
Proof. unfold wp. intros ->. exact (fun H => H). Qed.

Lemma skip_while_run p buf q l k s :
  skip_while p (mkState buf q l) = (k, s) ->
  s = mkState buf (q + k) l /\ 0 <= k.
Proof.
  intros E.
  apply (wp_run (skip_while p) (mkState buf q l)
           (fun k' s' => s' = mkState buf (q + k') l /\ 0 <= k') k s);
    [|exact E].
  apply wp_skip_while. intros k' Hk _ _ _. split; [reflexivity|exact Hk].
Qed.

Lemma skip_one_run p buf q l r s :
  skip_one p (mkState buf q l) = (r, s) ->
  exists k, s = mkState buf (q + k) l /\ 0 <= k <= 1 /\ (k = 0 \/ q + k <= l).
Proof.
  intros E.
  apply (wp_run (skip_one p) (mkState buf q l)
           (fun _ s' => exists k, s' = mkState buf (q + k) l /\ 0 <= k <= 1
                                  /\ (k = 0 \/ q + k <= l)) r s);
    [|exact E].
  apply wp_skip_one.
  - intros H _. exists 1. repeat split; lia.
  - intros _. exists 0. rewrite Z.add_0_r. repeat split; lia.
Qed.

Lemma skipProgramMnemonic_run buf q l r s :
  skipProgramMnemonic (mkState buf q l) = (r, s) ->
  exists k, s = mkState buf (q + k) l /\ 0 <= k.
Proof.
  intros E.
  apply (wp_run skipProgramMnemonic (mkState buf q l)
           (fun _ s' => exists k, s' = mkState buf (q + k) l /\ 0 <= k) r s);
    [|exact E].
  apply wp_skipProgramMnemonic. intros k Hk _ _ _ _. exists k.
  split; [reflexivity|exact Hk].
Qed.

Lemma skipMantissa_run buf q l m s :
  skipMantissa (mkState buf q l) = (m, s) ->
  exists q1, s = mkState buf q1 l /\ 0 <= m /\ q + m <= q1.
Proof.
  intros E.
  apply (wp_run skipMantissa (mkState buf q l)
           (fun m' s' => exists q1, s' = mkState buf q1 l
                                    /\ 0 <= m' /\ q + m' <= q1) m s);
    [|exact E].
  apply wp_skipMantissa. intros m' q' H1 H2 _. exists q'.
  repeat split; assumption.
Qed.

Lemma skipExponent_run buf q l x s :
  skipExponent (mkState buf q l) = (x, s) ->
  exists q1, s = mkState buf q1 l.
Proof.
  intros E.
  apply (wp_run skipExponent (mkState buf q l)
           (fun _ s' => exists q1, s' = mkState buf q1 l) x s);
    [|exact E].
  apply wp_skipExponent. intros x' q' _ _ _. exists q'. reflexivity.
Qed.

(** ** The loop bounds are enough

    Each loop of the lexer is modelled with a bound on its iterations, taken
    from the bytes left in the buffer.  A larger bound never changes the
    result: the bound is not what ends the loop. *)

Lemma skip_run_fuel p f1 : forall f2 n buf q l,
  (Z.to_nat (l - q) <= f1)%nat -> (Z.to_nat (l - q) <= f2)%nat ->
  skip_run p f1 n (mkState buf q l) = skip_run p f2 n (mkState buf q l).
Proof.
  induction f1 as [|f1 IH]; intros f2 n buf q l H1 H2.
  - destruct f2 as [|f2]; [reflexivity|].
    cbn [skip_run]. wp_simpl.
    assert ((l <=? q) = true) as -> by (apply Z.leb_le; lia). reflexivity.
  - destruct f2 as [|f2]; cbn [skip_run]; wp_simpl.
    + assert ((l <=? q) = true) as -> by (apply Z.leb_le; lia). reflexivity.
    + destruct (l <=? q) eqn:E; cbn [negb andb]; [reflexivity|].
      apply Z.leb_gt in E. destruct (p (char_at buf q)); [|reflexivity].
      apply IH; lia.
Qed.

(** Fuel beyond the bytes that are left changes nothing. *)
Lemma quote_loop_fuel quote f1 : forall f2 buf q l,
  (Z.to_nat (l - q) <= f1)%nat -> (Z.to_nat (l - q) <= f2)%nat ->
  quote_loop quote f1 (mkState buf q l) = quote_loop quote f2 (mkState buf q l).
Proof.
  induction f1 as [|f1 IH]; intros f2 buf q l H1 H2.
  - destruct f2 as [|f2]; [reflexivity|].
    cbn [quote_loop]. wp_simpl.
    assert ((l <=? q) = true) as -> by (apply Z.leb_le; lia). reflexivity.
  - destruct f2 as [|f2].
    + cbn [quote_loop]. wp_simpl.
      assert ((l <=? q) = true) as -> by (apply Z.leb_le; lia). reflexivity.
    + cbn [quote_loop]. unfold ischr. wp_simpl.
      destruct (l <=? q) eqn:E; [reflexivity|]. apply Z.leb_gt in E.
      destruct (isascii7bit (char_at buf q) && negb (char_at buf q =? quote)).
      { apply IH; lia. }
      destruct (char_at buf q =? quote); [|reflexivity].
      destruct (l <=? q + 1) eqn:F; cbn [negb andb]; [reflexivity|].
      apply Z.leb_gt in F.
      destruct (char_at buf (q + 1) =? quote); [|reflexivity].
      apply IH; lia.
Qed.

Lemma compound_loop_fuel f1 : forall f2 buf q l,
  (Z.to_nat (l - q) <= f1)%nat -> (Z.to_nat (l - q) <= f2)%nat ->
  compound_loop f1 (mkState buf q l) = compound_loop f2 (mkState buf q l).
Proof.
  assert (forall f buf q l, l <= q ->
            compound_loop f (mkState buf q l) = (SKIP_OK, mkState buf q l))
    as Hend.
  { intros [|f] buf q l H; [reflexivity|].
    cbn [compound_loop]. unfold bind, skipColon, skip_one. wp_simpl.
    assert ((l <=? q) = true) as -> by (apply Z.leb_le; lia). reflexivity. }
  induction f1 as [|f1 IH]; intros f2 buf q l H1 H2.
  - rewrite !Hend by lia. reflexivity.
  - destruct f2 as [|f2]; [rewrite !Hend by lia; reflexivity|].
    cbn [compound_loop]. unfold bind, skipColon, skip_one. wp_simpl.
    destruct (l <=? q) eqn:E; cbn [negb andb]; [reflexivity|].
    apply Z.leb_gt in E.
    destruct (char_at buf q =? chr ":"); [|reflexivity]. skips.
    destruct (skipProgramMnemonic (mkState buf (q + 1) l)) as [r s] eqn:Em.
    destruct (skipProgramMnemonic_run buf (q + 1) l r s Em) as (k & -> & Hk).
    destruct (r <=? -1); [reflexivity|].
    destruct (r =? 0); [reflexivity|].
    apply IH; lia.
Qed.

Lemma suffix_loop_step f st :
  suffix_loop (S f) st
  = if negb (is_eos st)
       && ((cur st =? chr "/") || (cur st =? chr "."))
    then
      let (_, s1) := skipAlpha (advance st) in
      let (_, s2) := skipChr (chr "-") s1 in
      let (_, s3) := skipDigit s2 in
      suffix_loop f s3
    else (tt, st).
Proof.
  cbn [suffix_loop]. unfold bind, skipSlashDot, skip_one.
  destruct (negb (is_eos st) && ((cur st =? chr "/") || (cur st =? chr ".")));
    reflexivity.
Qed.

Lemma suffix_loop_fuel f1 : forall f2 buf q l,
  (Z.to_nat (l - q) <= f1)%nat -> (Z.to_nat (l - q) <= f2)%nat ->
  suffix_loop f1 (mkState buf q l) = suffix_loop f2 (mkState buf q l).
Proof.
  assert (forall f buf q l, l <= q ->
            suffix_loop f (mkState buf q l) = (tt, mkState buf q l)) as Hend.
  { intros [|f] buf q l H; [reflexivity|].
    cbn [suffix_loop]. unfold bind, skipSlashDot, skip_one. wp_simpl.
    assert ((l <=? q) = true) as -> by (apply Z.leb_le; lia). reflexivity. }
  induction f1 as [|f1 IH]; intros f2 buf q l H1 H2.
  - rewrite !Hend by lia. reflexivity.
  - destruct f2 as [|f2]; [rewrite !Hend by lia; reflexivity|].
    rewrite !suffix_loop_step. wp_simpl.
    destruct (l <=? q) eqn:E; cbn [negb andb]; [reflexivity|].
    apply Z.leb_gt in E.
    destruct ((char_at buf q =? chr "/") || (char_at buf q =? chr "."));
      [|reflexivity].
    unfold skipAlpha, skipChr, skipDigit.
    destruct (skip_while isalpha (mkState buf (q + 1) l)) as [a s1] eqn:E1.
    destruct (skip_while_run _ _ _ _ _ _ E1) as (-> & Ha).
    destruct (skip_one (fun x => x =? chr "-") (mkState buf (q + 1 + a) l))
      as [c s2] eqn:E2.
    destruct (skip_one_run _ _ _ _ _ _ E2) as (k2 & -> & Hk2 & _).
    destruct (skip_one isdigit (mkState buf (q + 1 + a + k2) l))
      as [d s3] eqn:E3.
    destruct (skip_one_run _ _ _ _ _ _ E3) as (k3 & -> & Hk3 & _).
    apply IH; lia.
Qed.

(** skipCompoundProgramHeader and scpiLex_SuffixProgramData run their loops
    with the bytes left as the bound; so does every greater bound. *)
Lemma loops_run_to_their_end p quote buf q l fuel :
  (Z.to_nat (l - q) <= fuel)%nat ->
  skip_run p fuel 0 (mkState buf q l) = skip_while p (mkState buf q l)
  /\ compound_loop fuel (mkState buf q l)
     = compound_loop (remaining (mkState buf q l)) (mkState buf q l)
  /\ suffix_loop fuel (mkState buf q l)
     = suffix_loop (remaining (mkState buf q l)) (mkState buf q l)
  /\ (tt, quote_loop quote fuel (mkState buf q l))
     = skipQuoteProgramData quote (mkState buf q l).
Proof.
  intros H. unfold skip_while, skipQuoteProgramData, remaining.
  cbn [pos len]. repeat split.
  - apply skip_run_fuel; lia.
  - apply compound_loop_fuel; lia.
  - apply suffix_loop_fuel; lia.
  - f_equal. apply quote_loop_fuel; lia.
Qed.

(** ** Arbitrary blocks *)

Lemma char_at_middle pre x rest :
  char_at (pre ++ x :: rest) (Z.of_nat (List.length pre)) = chr x.
Proof. unfold char_at. rewrite Nat2Z.id, nth_middle. reflexivity. Qed.

Lemma char_at_split buf pre x rest q :
  buf = pre ++ x :: rest -> q = Z.of_nat (List.length pre) ->
  char_at buf q = chr x.
Proof. intros -> ->. apply char_at_middle. Qed.

Lemma block_length_loop_digits ds : forall pre rest acc l,
  all_digits ds ->
  Z.of_nat (List.length pre) + Z.of_nat (List.length ds) <= l ->
  block_length_loop (List.length ds) acc
    (mkState (pre ++ ds ++ rest) (Z.of_nat (List.length pre)) l)
  = ((0, fold_left decimal_step ds acc),
     mkState (pre ++ ds ++ rest)
       (Z.of_nat (List.length pre) + Z.of_nat (List.length ds)) l).
Proof.
  induction ds as [|d ds IH]; intros pre rest acc l Hd Hl.
  - cbn [block_length_loop List.length fold_left Z.of_nat].
    rewrite Z.add_0_r. reflexivity.
  - inversion Hd as [|? ? Hd1 Hd2]; subst.
    cbn [List.length] in Hl.
    cbn [block_length_loop List.length fold_left]. wp_simpl.
    assert ((l <=? Z.of_nat (List.length pre)) = false) as ->
      by (apply Z.leb_gt; lia).
    cbn [app]. rewrite char_at_middle, Hd1. cbn [negb andb].
    assert (pre ++ d :: ds ++ rest = (pre ++ [d]) ++ ds ++ rest) as ->
      by (rewrite <- app_assoc; reflexivity).
    replace (Z.of_nat (List.length pre) + 1)
      with (Z.of_nat (List.length (pre ++ [d])))
      by (rewrite length_app; cbn [List.length]; lia).
    rewrite IH; [|exact Hd2|rewrite length_app; cbn [List.length]; lia].
    unfold decimal_step at 2. f_equal. f_equal.
    rewrite length_app. cbn [List.length]. lia.
Qed.

Lemma skipn_prefix {A} (pre rest : list A) n :
  n = List.length pre -> skipn n (pre ++ rest) = rest.
Proof.
  intros ->. rewrite skipn_app, Nat.sub_diag, skipn_all. reflexivity.
Qed.

Lemma arbitrary_block_by_content token pre d ds rest :
  isNonzeroDigit (chr d) = true ->
  Z.of_nat (List.length ds) = chr d - chr "0" ->
  all_digits ds ->
  let buf := pre ++ "#"%byte :: d :: ds ++ rest in
  let q := Z.of_nat (List.length pre) in
  let hdr := 2 + Z.of_nat (List.length ds) in
  let L := decimal_value ds in
  scpiLex_ArbitraryBlockProgramData token (lex_at buf q)
  = if L <=? Z.of_nat (List.length rest)
    then (mkToken SCPI_TOKEN_ARBITRARY_BLOCK_PROGRAM_DATA (q + hdr) L,
          hdr + L,
          mkState buf (q + hdr + L) (Z.of_nat (List.length buf)))
    else (mkToken SCPI_TOKEN_UNKNOWN q 0, 0,
          mkState buf (Z.of_nat (List.length buf)) (Z.of_nat (List.length buf))).
Proof.
  intros Hnz Hn Hds buf q hdr L. apply wp_eq. unfold lex_at.
  assert (Z.of_nat (List.length buf) = q + hdr + Z.of_nat (List.length rest))
    as Hl.
  { subst buf q hdr. rewrite length_app. cbn [List.length].
    rewrite length_app. lia. }
  set (l := Z.of_nat (List.length buf)) in *.
  assert (char_at buf q = chr "#") as Hc0 by apply char_at_middle.
  assert (char_at buf (q + 1) = chr d) as Hc1.
  { apply (char_at_split buf (pre ++ ["#"%byte]) d (ds ++ rest)).
    - subst buf. rewrite <- app_assoc. reflexivity.
    - subst q. rewrite length_app. cbn [List.length]. lia. }
  assert (buf = (pre ++ ["#"%byte; d]) ++ ds ++ rest) as Hbuf.
  { subst buf. rewrite <- app_assoc. reflexivity. }
  assert (q + 1 + 1 = Z.of_nat (List.length (pre ++ ["#"%byte; d]))) as Hq2.
  { subst q. rewrite length_app. cbn [List.length]. lia. }
  assert (block_length_loop (Z.to_nat (chr d - chr "0")) 0
            (mkState buf (q + 1 + 1) l)
          = ((0, L), mkState buf (q + 1 + 1 + Z.of_nat (List.length ds)) l))
    as Hloop.
  { replace (Z.to_nat (chr d - chr "0")) with (List.length ds) by lia.
    clearbody buf. rewrite Hq2, Hbuf.
    apply block_length_loop_digits; [exact Hds|lia]. }
  unfold scpiLex_ArbitraryBlockProgramData, skipChr. wp_basic.
  apply wp_skip_one.
  - intros _ _. skips. wp_basic.
    assert ((l <=? q + 1) = false) as -> by (apply Z.leb_gt; lia).
    rewrite Hc1, Hnz. cbn [negb andb]. wp_basic. unfold wp at 1.
    rewrite Hloop. cbn [fst snd]. zc. wp_basic.
    destruct (L <=? Z.of_nat (List.length rest)) eqn:F.
    + apply Z.leb_le in F.
      assert ((q + 1 + 1 + Z.of_nat (List.length ds) + L <=? l) = true) as ->
        by (apply Z.leb_le; lia).
      wp_basic. zc. wp_basic. cbn [fst snd tok_len tok_ptr].
      f_equal; [f_equal|]; [f_equal| |f_equal]; lia.
    + apply Z.leb_gt in F.
      assert ((q + 1 + 1 + Z.of_nat (List.length ds) + L <=? l) = false) as ->
        by (apply Z.leb_gt; lia).
      wp_basic. zc. wp_basic. cbn [fst snd tok_len tok_ptr].
      f_equal. f_equal. lia.
  - intros [H|H]; [lia|]. rewrite Hc0, Z.eqb_refl in H. discriminate H.
Qed.

Lemma arbitrary_block_type token buf q l :
  wp (scpiLex_ArbitraryBlockProgramData token) (mkState buf q l)
     (fun r _ =>
        tok_type (fst r) = SCPI_TOKEN_ARBITRARY_BLOCK_PROGRAM_DATA
        \/ tok_type (fst r) = SCPI_TOKEN_UNKNOWN).
Proof.
  unfold scpiLex_ArbitraryBlockProgramData, skipChr. wp_basic.
  apply wp_skip_one.
  - intros Hl Hc. skips. wp_basic.
    destruct (negb (l <=? q + 1) && isNonzeroDigit (char_at buf (q + 1))).
    + wp_basic. unfold wp at 1.
      destruct (block_length_loop (Z.to_nat (char_at buf (q + 1) - chr "0")) 0
                  (mkState buf (q + 1 + 1) l)) as [[i acc] [b p n]].
      cbn [fst snd]. destruct (i =? 0); wp_basic.
      * destruct (p + acc <=? n); wp_basic; zc; wp_basic; cbn; auto.
      * destruct (n <=? p); wp_basic; zc; wp_basic; cbn; auto.
    + wp_basic. destruct (l <=? q + 1); wp_basic; zc; wp_basic; cbn; auto.
  - intros Hn. skips. wp_basic. zc. wp_basic. cbn. auto.
Qed.

Lemma arbitrary_block_needs_nonzero_digit token pre x rest :
  isNonzeroDigit (chr x) = false ->
  let buf := pre ++ "#"%byte :: x :: rest in
  let q := Z.of_nat (List.length pre) in
  scpiLex_ArbitraryBlockProgramData token (lex_at buf q)
  = (mkToken SCPI_TOKEN_UNKNOWN q 0, 0, lex_at buf q).
Proof.
  intros Hx buf q. apply wp_eq. unfold lex_at.
  assert (q + 1 < Z.of_nat (List.length buf)) as Hl.
  { subst buf q. rewrite length_app. cbn [List.length]. lia. }
  set (l := Z.of_nat (List.length buf)) in *.
  assert (char_at buf q = chr "#") as Hc0 by apply char_at_middle.
  assert (char_at buf (q + 1) = chr x) as Hc1.
  { apply (char_at_split buf (pre ++ ["#"%byte]) x rest).
    - subst buf. rewrite <- app_assoc. reflexivity.
    - subst q. rewrite length_app. cbn [List.length]. lia. }
  unfold scpiLex_ArbitraryBlockProgramData, skipChr. wp_basic.
  apply wp_skip_one.
  - intros _ _. skips. wp_basic.
    assert ((l <=? q + 1) = false) as -> by (apply Z.leb_gt; lia).
    rewrite Hc1, Hx. cbn [negb andb]. wp_basic.
    assert ((l <=? q + 1) = false) as -> by (apply Z.leb_gt; lia).
    wp_basic. zc. wp_basic. cbn [fst snd tok_len tok_ptr].
    f_equal. f_equal. lia.
  - intros [H|H]; [lia|]. rewrite Hc0, Z.eqb_refl in H. discriminate H.
Qed.

(** ** Program headers *)

Lemma header_star_without_mnemonic token buf q l :
  q < l -> char_at buf q = chr "*" ->
  l <= q + 1 \/ isalpha (char_at buf (q + 1)) = false ->
  scpiLex_ProgramHeader token (mkState buf q l)
  = (mkToken SCPI_TOKEN_INCOMPLETE_COMMON_PROGRAM_HEADER q 1, 1,
     mkState buf (q + 1) l).
Proof.
  intros Hl Hc Hm.
  pose proof (scpiLex_ProgramHeader_spec token buf q l) as H. unfold wp in H.
  destruct (scpiLex_ProgramHeader token (mkState buf q l)) as [[tok n] s].
  cbn [fst snd] in H. destruct H as (q' & -> & Hq & Hb & Hp & Hlen & Hn & Hc').
  destruct tok as [ty p ln]. cbn [tok_type tok_ptr tok_len] in *.
  destruct Hc' as [(_ & _ & [Hs|Hs])
                  |[(-> & _ & _ & -> & _)
                   |[(_ & _ & _ & Hlt & Ha)
                    |[(_ & [Hs|Hs] & _)|(_ & [Hs|Hs] & _)]]]];
    try lia; try contradiction.
  - subst. eq_done.
  - exfalso. destruct Hm as [Hm|Hm]; [lia|]. rewrite Hm in Ha. discriminate Ha.
Qed.

Lemma header_star_mnemonic_to_end token buf q l :
  q < l -> char_at buf q = chr "*" -> mnemonic_to_end buf (q + 1) l ->
  scpiLex_ProgramHeader token (mkState buf q l)
  = (mkToken SCPI_TOKEN_COMMON_PROGRAM_HEADER q (l - q), l - q,
     mkState buf l l).
Proof.
  intros Hl Hc (Hl1 & Ha & Hall). apply wp_eq.
  unfold scpiLex_ProgramHeader. wp_basic. apply wp_skipCommonProgramHeader.
  - intros [H|H]; [lia|contradiction].
  - intros _ _ [H|H]; [lia|]. rewrite H in Ha. discriminate Ha.
  - intros k _ _ Hk Hb _ Hstop _.
    assert (q + 1 + k = l) as Hend.
    { destruct Hstop as [H|H]; [lia|].
      assert (q + 1 + k < l \/ q + 1 + k = l) as [Hlt|He] by lia; [|exact He].
      rewrite Hall in H by lia. discriminate H. }
    skips. apply wp_bind. apply wp_bind. unfold skipChr. apply wp_skip_one.
    + intros H. lia.
    + intros _. skips. wp_basic.
      cbn [is_unknown token_type_eqb tok_type negb]. wp_basic.
      eq_done.
Qed.

Lemma header_mnemonic_to_end token buf q l :
  char_at buf q <> chr "*" -> mnemonic_to_end buf q l ->
  scpiLex_ProgramHeader token (mkState buf q l)
  = (mkToken SCPI_TOKEN_COMPOUND_PROGRAM_HEADER q (l - q), l - q,
     mkState buf l l).
Proof.
  intros Hns (Hl & Ha & Hall). apply wp_eq.
  assert (char_at buf q <> chr ":") as Hnc.
  { intros H. rewrite H in Ha. vm_compute in Ha. discriminate Ha. }
  unfold scpiLex_ProgramHeader. wp_basic. apply wp_skipCommonProgramHeader.
  - intros _. skips. apply wp_bind. apply wp_bind.
    unfold skipCompoundProgramHeader, skipColon.
    apply wp_bind. apply wp_skip_one.
    + intros _ H. apply Z.eqb_eq in H. contradiction.
    + intros _. apply wp_bind. apply wp_skipProgramMnemonic.
      intros k Hk Hb H0 H1 _.
      assert (q + k = l) as Hend.
      { assert (k = 0 \/ 0 < k) as [->|Hpos] by lia.
        - destruct (H0 eq_refl) as [H|H]; [lia|].
          rewrite H in Ha. discriminate Ha.
        - destruct (H1 Hpos) as (_ & [H|H]); [lia|].
          assert (q + k < l \/ q + k = l) as [Hlt|He] by lia; [|exact He].
          rewrite Hall in H by lia. discriminate H. }
      assert ((l <=? q + k) = true) as -> by (apply Z.leb_le; lia).
      unfold SKIP_OK, SKIP_INCOMPLETE.
      assert ((1 <=? - k) = false) as -> by (apply Z.leb_gt; lia).
      assert ((- k <=? -1) = true) as -> by (apply Z.leb_le; lia).
      wp_basic. zc. unfold skipChr. wp_basic. apply wp_skip_one.
      * intros H. lia.
      * intros _. skips. wp_basic.
        cbn [is_unknown token_type_eqb tok_type negb]. wp_basic.
        eq_done.
  - intros _ H. contradiction.
  - intros k _ H. contradiction.
Qed.

(** Where skipProgramMnemonic stops is fixed by the span of the mnemonic. *)
Lemma mnemonic_span_end buf q l e k :
  mnemonic_span buf q e -> e <= l ->
  e = l \/ is_mnemonic_tail (char_at buf e) = false ->
  0 <= k -> (k = 0 \/ q + k <= l) ->
  (k = 0 -> l <= q \/ isalpha (char_at buf q) = false) ->
  (0 < k -> isalpha (char_at buf q) = true
            /\ (l <= q + k \/ is_mnemonic_tail (char_at buf (q + k)) = false)) ->
  (forall j, q < j < q + k -> is_mnemonic_tail (char_at buf j) = true) ->
  q + k = e.
Proof.
  intros (Hqe & Ha & Hall) Hel Hstop Hk Hb H0 H1 Htail.
  assert (0 < k) as Hpos.
  { assert (k = 0 \/ 0 < k) as [->|H] by lia; [|exact H].
    destruct (H0 eq_refl) as [H|H]; [lia|].
    rewrite H in Ha. discriminate Ha. }
  destruct (H1 Hpos) as (_ & Hs).
  assert (q + k < e \/ q + k = e \/ e < q + k) as [Hlt|[He|Hgt]] by lia.
  - exfalso. destruct Hs as [Hs|Hs]; [lia|].
    rewrite Hall in Hs by lia. discriminate Hs.
  - exact He.
  - exfalso. destruct Hstop as [Hstop|Hstop]; [lia|].
    rewrite Htail in Hstop by lia. discriminate Hstop.
Qed.

Lemma colon_is_no_mnemonic_tail buf e :
  char_at buf e = chr ":" -> is_mnemonic_tail (char_at buf e) = false.
Proof. intros ->. reflexivity. Qed.

(** The loop of skipCompoundProgramHeader, started on a colon behind which
    the mnemonics run up to the end of the buffer, ends there with SKIP_OK. *)
Lemma compound_loop_to_end buf l q :
  mnemonics_to_end buf l q ->
  forall fuel e,
    e + 1 = q -> e < l -> char_at buf e = chr ":" ->
    (Z.to_nat (l - e) <= fuel)%nat ->
    compound_loop fuel (mkState buf e l) = (SKIP_OK, mkState buf l l).
Proof.
  induction 1 as [q Hspan|q e' Hspan He' Hc' Hrest IH];
    intros fuel e Heq Hel Hc Hfuel;
    (destruct fuel as [|fuel]; [lia|]); subst q;
    apply wp_eq; cbn [compound_loop]; unfold skipColon;
    apply wp_bind; apply wp_skip_one;
    try (intros [H|H]; [lia|rewrite Hc, Z.eqb_refl in H; discriminate H]);
    intros _ _; skips; apply wp_bind; apply wp_skipProgramMnemonic;
    intros k Hk Hb H0 H1 Ha.
  - pose proof Hspan as (Hql & _).
    assert (e + 1 + k = l) as Hend
      by (apply (mnemonic_span_end buf (e + 1) l l k Hspan); auto; lia).
    assert ((l <=? e + 1 + k) = true) as -> by (apply Z.leb_le; lia).
    unfold SKIP_INCOMPLETE.
    assert ((- k <=? -1) = true) as -> by (apply Z.leb_le; lia).
    wp_basic. rewrite Hend. reflexivity.
  - assert (e + 1 + k = e') as Hend.
    { apply (mnemonic_span_end buf (e + 1) l e' k); auto; try lia.
      right. apply colon_is_no_mnemonic_tail, Hc'. }
    assert ((l <=? e + 1 + k) = false) as -> by (apply Z.leb_gt; lia).
    unfold SKIP_INCOMPLETE, SKIP_NONE.
    destruct Hspan as (Hlt & _).
    assert ((k <=? -1) = false) as -> by (apply Z.leb_gt; lia).
    assert ((k =? 0) = false) as -> by (apply Z.eqb_neq; lia).
    rewrite Hend. apply wp_of_eq with (a := SKIP_OK) (s := mkState buf l l);
      [|reflexivity].
    apply (IH fuel e'); [reflexivity|exact He'|exact Hc'|lia].
Qed.

(** skipCompoundProgramHeader behind its optional leading colon. *)
Lemma compound_mnemonics_to_end buf l q (other : Lex Z) :
  mnemonics_to_end buf l q ->
  (res <- skipProgramMnemonic ;;
   if SKIP_OK <=? res then fun st => compound_loop (remaining st) st
   else if res <=? SKIP_INCOMPLETE then ret SKIP_OK
   else other) (mkState buf q l)
  = (SKIP_OK, mkState buf l l).
Proof.
  intros H. apply wp_eq. apply wp_bind. apply wp_skipProgramMnemonic.
  intros k Hk Hb H0 H1 Ha.
  destruct H as [q Hspan|q e Hspan He Hc Hrest].
  - pose proof Hspan as (Hql & _).
    assert (q + k = l) as Hend
      by (apply (mnemonic_span_end buf q l l k Hspan); auto; lia).
    assert ((l <=? q + k) = true) as -> by (apply Z.leb_le; lia).
    unfold SKIP_OK, SKIP_INCOMPLETE.
    assert ((1 <=? - k) = false) as -> by (apply Z.leb_gt; lia).
    assert ((- k <=? -1) = true) as -> by (apply Z.leb_le; lia).
    wp_basic. rewrite Hend. reflexivity.
  - assert (q + k = e) as Hend.
    { apply (mnemonic_span_end buf q l e k); auto; try lia.
      right. apply colon_is_no_mnemonic_tail, Hc. }
    assert ((l <=? q + k) = false) as -> by (apply Z.leb_gt; lia).
    destruct Hspan as (Hlt & _). unfold SKIP_OK.
    assert ((1 <=? k) = true) as -> by (apply Z.leb_le; lia).
    rewrite Hend. apply wp_fun. cbn [fst snd].
    rewrite (compound_loop_to_end buf l (e + 1) Hrest _ e eq_refl He Hc);
      [reflexivity|].
    unfold remaining. cbn [pos len]. lia.
Qed.

Lemma mnemonics_start_with_letter buf l q :
  mnemonics_to_end buf l q -> q < l /\ isalpha (char_at buf q) = true.
Proof.
  intros [q' (Hl & Ha & _)|q' e (Hlt & Ha & _) He _ _]; split;
    try assumption; lia.
Qed.

Lemma skipCompound_to_end buf q l :
  compound_to_end buf q l ->
  skipCompoundProgramHeader (mkState buf q l) = (SKIP_OK, mkState buf l l).
Proof.
  intros [H|(Hl & Hc & H)]; apply wp_eq;
    unfold skipCompoundProgramHeader, skipColon;
    apply wp_bind; apply wp_skip_one.
  - intros _ Hcol. apply Z.eqb_eq in Hcol.
    destruct (mnemonics_start_with_letter buf l q H) as (_ & Ha).
    rewrite Hcol in Ha. discriminate Ha.
  - intros _.
    eapply wp_of_eq; [apply (compound_mnemonics_to_end buf l q _ H)|].
    reflexivity.
  - intros _ _.
    eapply wp_of_eq; [apply (compound_mnemonics_to_end buf l (q + 1) _ H)|].
    reflexivity.
  - intros [Hn|Hn]; [lia|]. rewrite Hc, Z.eqb_refl in Hn. discriminate Hn.
Qed.

(** A compound header whose last mnemonic runs up to the end of the buffer
    is a complete compound header that spans the rest of the buffer. *)
Lemma header_compound_to_end token buf q l :
  compound_to_end buf q l ->
  scpiLex_ProgramHeader token (mkState buf q l)
  = (mkToken SCPI_TOKEN_COMPOUND_PROGRAM_HEADER q (l - q), l - q,
     mkState buf l l).
Proof.
  intros H.
  assert (q < l /\ char_at buf q <> chr "*") as (Hl & Hns).
  { destruct H as [H|(Hl & Hc & _)].
    - destruct (mnemonics_start_with_letter buf l q H) as (Hl & Ha).
      split; [exact Hl|]. intros E. rewrite E in Ha. discriminate Ha.
    - split; [exact Hl|]. rewrite Hc. discriminate. }
  apply wp_eq. unfold scpiLex_ProgramHeader. wp_basic.
  apply wp_skipCommonProgramHeader.
  - intros _. skips. apply wp_bind. apply wp_bind.
    eapply wp_of_eq; [apply (skipCompound_to_end buf q l H)|].
    skips. apply wp_bind. unfold skipChr. apply wp_skip_one.
    + intros Hlt. lia.
    + intros _. skips. wp_basic.
      cbn [is_unknown token_type_eqb tok_type negb]. wp_basic.
      eq_done.
  - intros _ Hc. contradiction.
  - intros k _ Hc. contradiction.
Qed.

(** ** Quoted strings *)

(** A byte of the body that is 7-bit and not the quote is passed over. *)
Lemma quote_loop_plain quote buf l c n : forall q fuel,
  Z.to_nat (c - q) = n -> q <= c <= l ->
  (forall j, q <= j < c ->
     isascii7bit (char_at buf j) = true /\ char_at buf j <> quote) ->
  (Z.to_nat (l - q) <= fuel)%nat ->
  quote_loop quote fuel (mkState buf q l)
  = quote_loop quote (Z.to_nat (l - c)) (mkState buf c l).
Proof.
  induction n as [|n IH]; intros q fuel Hn Hq Hall Hf.
  - assert (q = c) as -> by lia. apply quote_loop_fuel; lia.
  - destruct fuel as [|fuel]; [lia|].
    cbn [quote_loop]. unfold ischr. wp_simpl.
    assert ((l <=? q) = false) as -> by (apply Z.leb_gt; lia).
    destruct (Hall q ltac:(lia)) as [Ha Hne].
    rewrite Ha. apply Z.eqb_neq in Hne. rewrite Hne. cbn [negb andb].
    apply IH; try lia. intros j Hj. apply Hall. lia.
Qed.

(** A quote that is not followed by a second one stops the body scan, with
    the cursor left on it. *)
Lemma quote_loop_close quote buf q l fuel :
  q < l -> char_at buf q = quote ->
  l <= q + 1 \/ char_at buf (q + 1) <> quote ->
  (Z.to_nat (l - q) <= fuel)%nat ->
  quote_loop quote fuel (mkState buf q l) = mkState buf q l.
Proof.
  intros Hl Hc Hn Hf. destruct fuel as [|fuel]; [lia|].
  cbn [quote_loop]. unfold ischr. wp_simpl.
  assert ((l <=? q) = false) as -> by (apply Z.leb_gt; lia).
  rewrite Hc, Z.eqb_refl, andb_false_r.
  assert (negb (l <=? q + 1) && (char_at buf (q + 1) =? quote) = false) as ->.
  { destruct Hn as [Hn|Hn].
    - assert ((l <=? q + 1) = true) as -> by (apply Z.leb_le; lia). reflexivity.
    - apply Z.eqb_neq in Hn. rewrite Hn. apply andb_false_r. }
  f_equal. lia.
Qed.

(** A quote followed by a second one is passed over together with it. *)
Lemma quote_loop_doubled quote buf q l fuel :
  q + 1 < l -> char_at buf q = quote -> char_at buf (q + 1) = quote ->
  (Z.to_nat (l - q) <= fuel)%nat ->
  quote_loop quote fuel (mkState buf q l)
  = quote_loop quote (Z.to_nat (l - (q + 2))) (mkState buf (q + 2) l).
Proof.
  intros Hl Hc Hc1 Hf. destruct fuel as [|fuel]; [lia|].
  cbn [quote_loop]. unfold ischr. wp_simpl.
  assert ((l <=? q) = false) as -> by (apply Z.leb_gt; lia).
  rewrite Hc, Z.eqb_refl, andb_false_r.
  assert ((l <=? q + 1) = false) as -> by (apply Z.leb_gt; lia).
  rewrite Hc1, Z.eqb_refl. cbn [negb andb].
  replace (q + 1 + 1) with (q + 2) by lia. apply quote_loop_fuel; lia.
Qed.

Lemma quoted_branch_closed token quote ty buf q c l :
  q < c < l -> plain_body buf quote q c -> char_at buf c = quote ->
  l <= c + 1 \/ char_at buf (c + 1) <> quote ->
  quoted_branch token (skipQuoteProgramData quote) quote ty (mkState buf q l)
  = (mkToken ty (tok_ptr token) (c + 1 - tok_ptr token), mkState buf (c + 1) l).
Proof.
  intros Hc Hplain Hq Hn. apply wp_eq. unfold quoted_branch. wp_basic.
  unfold wp at 1, skipQuoteProgramData, remaining. cbn [fst snd pos len].
  rewrite (quote_loop_plain quote buf l c (Z.to_nat (c - (q + 1))) (q + 1));
    [|reflexivity|lia| |lia].
  2:{ intros j Hj. apply Hplain. lia. }
  rewrite quote_loop_close; [|lia|exact Hq|exact Hn|lia].
  wp_basic.
  assert ((l <=? c) = false) as -> by (apply Z.leb_gt; lia).
  rewrite Hq, Z.eqb_refl. cbn [negb andb]. wp_basic. reflexivity.
Qed.

Lemma string_plain_body token buf q c l :
  q < c < l ->
  char_at buf q = chr x22 \/ char_at buf q = chr "'" ->
  plain_body buf (char_at buf q) q c -> char_at buf c = char_at buf q ->
  l <= c + 1 \/ char_at buf (c + 1) <> char_at buf q ->
  scpiLex_StringProgramData token (mkState buf q l)
  = (mkToken (string_type_of (char_at buf q)) q (c + 1 - q), c + 1 - q,
     mkState buf (c + 1) l).
Proof.
  intros Hc Hquote Hplain Hclose Hn. apply wp_eq.
  unfold scpiLex_StringProgramData. wp_basic.
  assert ((l <=? q) = false) as -> by (apply Z.leb_gt; lia). cbn [negb].
  assert (forall ty,
    wp (quoted_branch (mkToken (tok_type token) q (tok_len token))
          (skipQuoteProgramData (char_at buf q)) (char_at buf q) ty)
       (mkState buf q l)
       (fun a s =>
          wp (p <- get_pos ;;
              token0 <-
                (if 0 <? p - tok_ptr a
                 then ret (mkToken (tok_type a) (tok_ptr a) (p - tok_ptr a))
                 else
                   put_pos (tok_ptr a) ;;;
                   ret (mkToken SCPI_TOKEN_UNKNOWN (tok_ptr a) 0)) ;;
              ret (token0, if 0 <? tok_len token0 then tok_len token0 else 0)) s
             (fun a0 s0 =>
                (a0, s0)
                = (mkToken ty q (c + 1 - q), c + 1 - q, mkState buf (c + 1) l))))
    as Hbranch.
  { intros ty. eapply wp_of_eq.
    - apply (quoted_branch_closed _ (char_at buf q) ty buf q c l);
        assumption.
    - wp_basic.
      assert ((0 <? c + 1 - q) = true) as -> by (apply Z.ltb_lt; lia).
      wp_basic. cbn [fst snd tok_len].
      assert ((0 <? c + 1 - q) = true) as -> by (apply Z.ltb_lt; lia).
      reflexivity. }
  unfold string_type_of. destruct Hquote as [Hq|Hq].
  - rewrite Hq in *. cbn [Z.eqb chr Byte.to_N Z.of_N Pos.eqb].
    apply Hbranch.
  - rewrite Hq in *. cbn [Z.eqb chr Byte.to_N Z.of_N Pos.eqb].
    apply Hbranch.
Qed.

Lemma string_unterminated token buf q l :
  q < l ->
  char_at buf q = chr x22 \/ char_at buf q = chr "'" ->
  is_eos (snd (skipQuoteProgramData (char_at buf q) (mkState buf (q + 1) l)))
  = true ->
  scpiLex_StringProgramData token (mkState buf q l)
  = (mkToken SCPI_TOKEN_UNKNOWN q 0, 0, mkState buf q l).
Proof.
  intros Hl Hquote Heos.
  pose proof (scpiLex_StringProgramData_spec token buf q l) as H. unfold wp in H.
  destruct (scpiLex_StringProgramData token (mkState buf q l)) as [[tok n] s].
  cbn [fst snd] in H. destruct H as (q' & -> & Hp & Hc).
  destruct tok as [ty p ln]. cbn [tok_type tok_ptr tok_len] in *.
  destruct Hc as [(-> & -> & -> & ->)
                 |(quote & b & _ & Hq & _ & Eb & Hb & _)].
  - subst p. reflexivity.
  - exfalso. subst quote.
    unfold skipQuoteProgramData, remaining in Heos. cbn [snd pos len] in Heos.
    rewrite Eb in Heos. unfold is_eos in Heos. cbn [pos len] in Heos.
    apply Z.leb_le in Heos. lia.
Qed.

(** ** Non-decimal numbers *)

Lemma base_letter_exclusive c :
  (isH c = true -> isQ c = true -> False)
  /\ (isH c = true -> isB c = true -> False)
  /\ (isQ c = true -> isB c = true -> False).
Proof.
  unfold isH, isQ, isB.
  repeat split; intros H1 H2;
    apply orb_true_iff in H1; apply orb_true_iff in H2;
    destruct H1 as [H1|H1]; destruct H2 as [H2|H2];
    apply Z.eqb_eq in H1; apply Z.eqb_eq in H2;
    rewrite H1 in H2; vm_compute in H2; discriminate H2.
Qed.

Lemma base_of_letter ty ty' letter digit letter' digit' c :
  base_of ty = Some (letter, digit) -> base_of ty' = Some (letter', digit') ->
  letter c = true -> letter' c = true -> digit' = digit.
Proof.
  destruct (base_letter_exclusive c) as (HQ & HB & QB).
  intros E E' L L'.
  destruct ty; try discriminate E; destruct ty'; try discriminate E';
    cbn [base_of] in E, E'; inversion E; inversion E'; subst;
    try reflexivity; exfalso; eauto.
Qed.

Lemma nondecimal_without_digits token ty letter digit buf q l :
  base_of ty = Some (letter, digit) ->
  q + 1 < l -> char_at buf q = chr "#" ->
  letter (char_at buf (q + 1)) = true ->
  l <= q + 2 \/ digit (char_at buf (q + 2)) = false ->
  scpiLex_NondecimalNumericData token (mkState buf q l)
  = (mkToken SCPI_TOKEN_UNKNOWN q 0, 0, mkState buf q l).
Proof.
  intros Hb Hl Hc Hlet Hnd.
  pose proof (scpiLex_NondecimalNumericData_spec token buf q l) as H.
  unfold wp in H.
  destruct (scpiLex_NondecimalNumericData token (mkState buf q l))
    as [[tok n] s].
  cbn [fst snd] in H. destruct H as (q' & -> & Hcase).
  destruct tok as [ty' p ln]. cbn [tok_type tok_ptr tok_len] in *.
  destruct Hcase as [(-> & -> & -> & -> & ->)
                    |(letter' & digit' & Hb' & _ & _ & Hlet' & Hp & Hlen & Hpos
                      & _ & Hq' & Hall & _)].
  - reflexivity.
  - exfalso.
    assert (digit' = digit) as -> by
      (exact (base_of_letter ty ty' letter digit letter' digit' _
                Hb Hb' Hlet Hlet')).
    destruct Hnd as [Hnd|Hnd]; [lia|].
    rewrite Hall in Hnd by lia. discriminate Hnd.
Qed.

(** ** Suffix data *)

(** What scpiLex_SuffixProgramData does with a [/] that no letter follows:
    the slash alone becomes the token. *)
Lemma suffix_lone_slash token buf q l :
  q < l -> char_at buf q = chr "/" ->
  l <= q + 1 \/ isalpha (char_at buf (q + 1)) = false ->
  scpiLex_SuffixProgramData token (mkState buf q l)
  = (mkToken SCPI_TOKEN_SUFFIX_PROGRAM_DATA q 1, 1, mkState buf (q + 1) l).
Proof.
  intros Hl Hc Hn. apply wp_eq.
  unfold scpiLex_SuffixProgramData, skipChr, skipAlpha. wp_basic.
  apply wp_skip_one.
  - intros _ _. apply wp_bind. apply wp_skip_while. intros k Hk Hb _ Hall.
    assert (k = 0) as ->.
    { assert (k = 0 \/ 0 < k) as [H|H] by lia; [exact H|]. exfalso.
      destruct Hn as [Hn|Hn]; [lia|].
      rewrite Hall in Hn by lia. discriminate Hn. }
    skips. wp_basic. rewrite Z.add_0_r.
    apply wp_close_token; wp_simpl; intros; wp_basic.
    + eq_done.
    + lia.
  - intros [H|H]; [lia|]. rewrite Hc, Z.eqb_refl in H. discriminate H.
Qed.

(** Without a leading slash, an input without leading letters is a
    no-match with the cursor unmoved. *)
Lemma suffix_without_slash_or_letter token buf q l :
  l <= q \/ (char_at buf q <> chr "/" /\ isalpha (char_at buf q) = false) ->
  scpiLex_SuffixProgramData token (mkState buf q l)
  = (mkToken SCPI_TOKEN_UNKNOWN q 0, 0, mkState buf q l).
Proof.
  intros Hn. apply wp_eq.
  unfold scpiLex_SuffixProgramData, skipChr, skipAlpha. wp_basic.
  apply wp_skip_one.
  - intros Hl Hc. exfalso. apply Z.eqb_eq in Hc.
    destruct Hn as [Hn|(Hn & _)]; [lia|contradiction].
  - intros _. apply wp_bind. apply wp_skip_while. intros k Hk Hb _ Hall.
    assert (k = 0) as ->.
    { assert (k = 0 \/ 0 < k) as [H|H] by lia; [exact H|]. exfalso.
      destruct Hn as [Hn|(_ & Hn)]; [lia|].
      rewrite Hall in Hn by lia. discriminate Hn. }
    skips. wp_basic. rewrite Z.add_0_r.
    apply wp_close_token; wp_simpl; intros; wp_basic.
    + lia.
    + eq_done.
Qed.

(** ** The properties of the specification *)




(** C2.  The three outcomes of scpiLex_ArbitraryBlockProgramData.  For a
    buffer that holds, at the cursor, [#], a non-zero digit [d] and as many
    decimal digits [ds] as [d] says, with [L] the number [ds] spell: if at
    least [L] bytes follow, the token is exactly those [L] bytes and the
    call returns header plus payload; if fewer follow, the answer is
    unknown with length 0 and the cursor at the end of the buffer.  A [#]
    followed by a byte that is not a non-zero digit is a no-match with the
    cursor back on the [#].  No call answers in any other way. *)
Theorem arbitrary_block_three_outcomes :
  (forall token pre d ds rest,
     isNonzeroDigit (chr d) = true ->
     Z.of_nat (List.length ds) = chr d - chr "0" ->
     all_digits ds ->
     let buf := pre ++ "#"%byte :: d :: ds ++ rest in
     let q := Z.of_nat (List.length pre) in
     let hdr := 2 + Z.of_nat (List.length ds) in
     let L := decimal_value ds in
     let r := scpiLex_ArbitraryBlockProgramData token (lex_at buf q) in
     (L <= Z.of_nat (List.length rest) ->
        r = (mkToken SCPI_TOKEN_ARBITRARY_BLOCK_PROGRAM_DATA (q + hdr) L,
             hdr + L, set_pos (lex_at buf q) (q + hdr + L))
        /\ token_bytes (snd r) (fst (fst r)) = firstn (Z.to_nat L) rest)
     /\ (Z.of_nat (List.length rest) < L ->
           r = (mkToken SCPI_TOKEN_UNKNOWN q 0, 0,
                set_pos (lex_at buf q) (len (lex_at buf q)))))
  /\ (forall token pre x rest,
        isNonzeroDigit (chr x) = false ->
        let buf := pre ++ "#"%byte :: x :: rest in
        let q := Z.of_nat (List.length pre) in
        scpiLex_ArbitraryBlockProgramData token (lex_at buf q)
        = (mkToken SCPI_TOKEN_UNKNOWN q 0, 0, lex_at buf q))
  /\ (forall token st tok n st',
        scpiLex_ArbitraryBlockProgramData token st = (tok, n, st') ->
        (tok_type tok = SCPI_TOKEN_ARBITRARY_BLOCK_PROGRAM_DATA
         /\ pos st <= tok_ptr tok /\ tok_ptr tok + tok_len tok = pos st'
         /\ n = pos st' - pos st)
        \/ (tok_type tok = SCPI_TOKEN_UNKNOWN /\ tok_len tok = 0 /\ n = 0
            /\ pos st' = len st /\ is_eos st = false /\ cur st = chr "#")
        \/ (tok_type tok = SCPI_TOKEN_UNKNOWN /\ tok_len tok = 0 /\ n = 0
            /\ pos st' = pos st))
  /\ (let r := scpiLex_ArbitraryBlockProgramData tok0 (lex_at (bytes "#15HELLO") 0) in
      outcome r = (SCPI_TOKEN_ARBITRARY_BLOCK_PROGRAM_DATA, 3, 5, 8, 8)
      /\ token_bytes (snd r) (fst (fst r)) = bytes "HELLO")
  /\ outcome (scpiLex_ArbitraryBlockProgramData tok0 (lex_at (bytes "#15HEL") 0))
     = (SCPI_TOKEN_UNKNOWN, 0, 0, 0, 6)
  /\ outcome (scpiLex_ArbitraryBlockProgramData tok0 (lex_at (bytes "#0") 0))
     = (SCPI_TOKEN_UNKNOWN, 0, 0, 0, 0).
Proof.
  split; [|split; [|split; [|split; [|split]]]].
  - intros token pre d ds rest Hnz Hn Hds buf q hdr L r.
    pose proof (arbitrary_block_by_content token pre d ds rest Hnz Hn Hds) as E.
    cbv zeta in E. fold buf q hdr L in E. fold r in E.
    split; intros HL.
    + assert ((L <=? Z.of_nat (List.length rest)) = true) as F
        by (apply Z.leb_le; exact HL).
      rewrite F in E. split; [exact E|]. rewrite E.
      unfold token_bytes. cbn [fst snd tok_len tok_ptr buffer].
      f_equal. subst buf.
      assert (pre ++ "#"%byte :: d :: ds ++ rest
              = (pre ++ "#"%byte :: d :: ds) ++ rest) as ->
        by (rewrite <- app_assoc; reflexivity).
      apply skipn_prefix. subst q hdr. rewrite length_app.
      cbn [List.length]. lia.
    + assert ((L <=? Z.of_nat (List.length rest)) = false) as F
        by (apply Z.leb_gt; exact HL).
      rewrite F in E. exact E.
  - intros token pre x rest Hx.
    exact (arbitrary_block_needs_nonzero_digit token pre x rest Hx).
  - intros token st tok n st' E.
    pose proof (detect_frame_run ArbitraryBlockProgramData token st tok n st' E)
      as (q' & -> & Hq & Hb & Hu & Hm).
    destruct st as [buf q l].
    pose proof (wp_run _ _ _ _ _ (arbitrary_block_type token buf q l) E) as Hty.
    cbn [fst snd pos len buffer] in *.
    destruct Hty as [Hty|Hty].
    + left. split; [exact Hty|].
      destruct Hm as [(H1 & H0 & H2 & H3)|(Hd & _)];
        [rewrite Hty; discriminate| |discriminate Hd].
      repeat split; assumption.
    + destruct (Hu Hty) as (Hl & Hn & Hp & [->|(_ & -> & Hlt & Hc)]).
      * right. right. repeat split; assumption.
      * right. left. repeat split; try assumption.
        unfold is_eos. cbn [pos len]. apply Z.leb_gt. exact Hlt.
  - cbv zeta. split; vm_compute; reflexivity.
  - vm_compute. reflexivity.
  - vm_compute. reflexivity.
Qed.

Lemma arbitrary_block_three_outcomes_witness :
  let pre := bytes "ab" in
  let ds := bytes "2" in
  let rest := bytes "XYZ" in
  let buf := pre ++ "#"%byte :: "1"%byte :: ds ++ rest in
  let r := scpiLex_ArbitraryBlockProgramData tok0 (lex_at buf 2) in
  isNonzeroDigit (chr "1") = true
  /\ Z.of_nat (List.length ds) = chr "1" - chr "0"
  /\ all_digits ds
  /\ decimal_value ds <= Z.of_nat (List.length rest)
  /\ r = (mkToken SCPI_TOKEN_ARBITRARY_BLOCK_PROGRAM_DATA 5 2, 5,
          set_pos (lex_at buf 2) 7)
  /\ token_bytes (snd r) (fst (fst r)) = bytes "XY".
Proof.
  cbv zeta.
  assert (isNonzeroDigit (chr "1") = true) as H1 by reflexivity.
  assert (Z.of_nat (List.length (bytes "2")) = chr "1" - chr "0") as H2
    by reflexivity.
  assert (all_digits (bytes "2")) as H3
    by (repeat constructor).
  assert (decimal_value (bytes "2") <= Z.of_nat (List.length (bytes "XYZ")))
    as H4 by (vm_compute; discriminate).
  split; [exact H1|]. split; [exact H2|]. split; [exact H3|].
  split; [exact H4|].
  exact (proj1 (proj1 arbitrary_block_three_outcomes tok0 (bytes "ab")
                  "1"%byte (bytes "2") (bytes "XYZ") H1 H2 H3) H4).
Defined.

(** C3, as the code has it.  A [*] that no mnemonic follows is an
    incomplete common header of one byte, and the compound grammar is not
    tried: the cursor stays right behind the [*].  A mnemonic that runs up to
    the end of the buffer is accepted as it stands: behind [*] as a common
    header, and otherwise as a compound header, whether it is the only
    mnemonic, follows a leading colon, or is the last of several mnemonics
    separated by colons.  A compound header is reported incomplete only with
    the cursor right behind a colon that no letter follows. *)
Theorem program_header_incomplete_cases :
  (forall token st,
     is_eos st = false -> cur st = chr "*" ->
     is_eos (advance st) = true \/ isalpha (cur (advance st)) = false ->
     scpiLex_ProgramHeader token st
     = (mkToken SCPI_TOKEN_INCOMPLETE_COMMON_PROGRAM_HEADER (pos st) 1, 1,
        advance st))
  /\ (forall token st,
        is_eos st = false -> cur st = chr "*" ->
        mnemonic_to_end (buffer st) (pos st + 1) (len st) ->
        scpiLex_ProgramHeader token st
        = (mkToken SCPI_TOKEN_COMMON_PROGRAM_HEADER (pos st) (len st - pos st),
           len st - pos st, set_pos st (len st)))
  /\ (forall token st,
        compound_to_end (buffer st) (pos st) (len st) ->
        scpiLex_ProgramHeader token st
        = (mkToken SCPI_TOKEN_COMPOUND_PROGRAM_HEADER (pos st) (len st - pos st),
           len st - pos st, set_pos st (len st)))
  /\ (forall token st tok n st',
        scpiLex_ProgramHeader token st = (tok, n, st') ->
        tok_type tok = SCPI_TOKEN_INCOMPLETE_COMPOUND_PROGRAM_HEADER ->
        pos st < pos st'
        /\ char_at (buffer st) (pos st' - 1) = chr ":"
        /\ (is_eos st' = true \/ isalpha (cur st') = false))
  /\ outcome (scpiLex_ProgramHeader tok0 (lex_at (bytes "*:ABC") 0))
     = (SCPI_TOKEN_INCOMPLETE_COMMON_PROGRAM_HEADER, 0, 1, 1, 1)
  /\ outcome (scpiLex_ProgramHeader tok0 (lex_at (bytes "*RS") 0))
     = (SCPI_TOKEN_COMMON_PROGRAM_HEADER, 0, 3, 3, 3)
  /\ outcome (scpiLex_ProgramHeader tok0 (lex_at (bytes "SYST:ER") 0))
     = (SCPI_TOKEN_COMPOUND_PROGRAM_HEADER, 0, 7, 7, 7)
  /\ outcome (scpiLex_ProgramHeader tok0 (lex_at (bytes ":SYST:ER") 0))
     = (SCPI_TOKEN_COMPOUND_PROGRAM_HEADER, 0, 8, 8, 8)
  /\ outcome (scpiLex_ProgramHeader tok0 (lex_at (bytes ":SYST:") 0))
     = (SCPI_TOKEN_INCOMPLETE_COMPOUND_PROGRAM_HEADER, 0, 6, 6, 6).
Proof.
  split; [|split; [|split; [|split]]].
  - intros token [buf q l] He Hc Hm. unfold is_eos, cur in *. wp_simpl.
    apply Z.leb_gt in He. apply header_star_without_mnemonic;
      [exact He|exact Hc|].
    destruct Hm as [Hm|Hm]; [left; apply Z.leb_le; exact Hm|right; exact Hm].
  - intros token [buf q l] He Hc Hm. unfold is_eos, cur in *. wp_simpl.
    apply Z.leb_gt in He.
    apply header_star_mnemonic_to_end; assumption.
  - intros token [buf q l] Hm. wp_simpl.
    apply header_compound_to_end. exact Hm.
  - intros token [buf q l] tok n st' E Hty.
    pose proof (wp_run _ _ _ _ _ (scpiLex_ProgramHeader_spec token buf q l) E)
      as (q' & -> & Hq & Hb & Hp & Hlen & Hn & Hc).
    cbn [fst snd] in Hc. unfold is_eos, cur. cbn [pos len buffer].
    fold (char_at buf q').
    destruct Hc as [(E1 & _)|[(E1 & _)|[([E1|E1] & _)
                   |[([E1|E1] & _)|(_ & _ & Hlt & Hd1 & Hd2)]]]];
      try (rewrite E1 in Hty; discriminate Hty).
    split; [exact Hlt|]. split; [exact Hd1|].
    destruct Hd2 as [H|H]; [left; apply Z.leb_le; exact H|right; exact H].
  - repeat split; vm_compute; reflexivity.
Qed.

Lemma program_header_incomplete_cases_witness :
  let st := lex_at (bytes "*:ABC") 0 in
  let st2 := lex_at (bytes ":SYST:ER") 0 in
  (is_eos st = false /\ cur st = chr "*"
   /\ (is_eos (advance st) = true \/ isalpha (cur (advance st)) = false)
   /\ scpiLex_ProgramHeader tok0 st
      = (mkToken SCPI_TOKEN_INCOMPLETE_COMMON_PROGRAM_HEADER (pos st) 1, 1,
         advance st))
  /\ (compound_to_end (buffer st2) (pos st2) (len st2)
      /\ scpiLex_ProgramHeader tok0 st2
         = (mkToken SCPI_TOKEN_COMPOUND_PROGRAM_HEADER (pos st2)
              (len st2 - pos st2),
            len st2 - pos st2, set_pos st2 (len st2))).
Proof.
  cbv zeta.
  assert (is_eos (lex_at (bytes "*:ABC") 0) = false) as H1 by reflexivity.
  assert (cur (lex_at (bytes "*:ABC") 0) = chr "*") as H2 by reflexivity.
  assert (is_eos (advance (lex_at (bytes "*:ABC") 0)) = true
          \/ isalpha (cur (advance (lex_at (bytes "*:ABC") 0))) = false) as H3
    by (right; reflexivity).
  assert (compound_to_end (buffer (lex_at (bytes ":SYST:ER") 0))
            (pos (lex_at (bytes ":SYST:ER") 0))
            (len (lex_at (bytes ":SYST:ER") 0))) as H4.
  { change (compound_to_end (bytes ":SYST:ER") 0 8).
    right. split; [reflexivity|]. split; [reflexivity|].
    apply (more_mnemonics _ _ (0 + 1) 5).
    - split; [reflexivity|]. split; [reflexivity|].
      intros j Hj. assert (j = 2 \/ j = 3 \/ j = 4) as [-> | [-> | ->]] by lia;
        reflexivity.
    - reflexivity.
    - reflexivity.
    - apply last_mnemonic. split; [reflexivity|]. split; [reflexivity|].
      intros j Hj. assert (j = 7) as -> by lia. reflexivity. }
  split.
  - split; [exact H1|]. split; [exact H2|]. split; [exact H3|].
    exact (proj1 program_header_incomplete_cases tok0
             (lex_at (bytes "*:ABC") 0) H1 H2 H3).
  - split; [exact H4|].
    exact (proj1 (proj2 (proj2 program_header_incomplete_cases)) tok0
             (lex_at (bytes ":SYST:ER") 0) H4).
Defined.

(** C3 as stated fails: with the buffer ending inside the mnemonic, [*RS]
    is classified as a common header and [SYST:ER] as a compound header,
    neither as incomplete. *)
Lemma header_ending_inside_mnemonic_is_complete :
  let r1 := scpiLex_ProgramHeader tok0 (lex_at (bytes "*RS") 0) in
  let r2 := scpiLex_ProgramHeader tok0 (lex_at (bytes "SYST:ER") 0) in
  cur (lex_at (bytes "*RS") 0) = chr "*"
  /\ tok_type (fst (fst r1)) = SCPI_TOKEN_COMMON_PROGRAM_HEADER
  /\ tok_type (fst (fst r1)) <> SCPI_TOKEN_INCOMPLETE_COMMON_PROGRAM_HEADER
  /\ is_eos (snd r1) = true
  /\ tok_type (fst (fst r2)) = SCPI_TOKEN_COMPOUND_PROGRAM_HEADER
  /\ tok_type (fst (fst r2)) <> SCPI_TOKEN_INCOMPLETE_COMPOUND_PROGRAM_HEADER
  /\ is_eos (snd r2) = true.
Proof.
  cbv zeta.
  repeat split; try (vm_compute; reflexivity); vm_compute; discriminate.
Qed.

(** C4.  When the mantissa has at least one digit and the exponent attempt
    behind it fails (no exponent letter, or a letter without exponent digits),
    the decimal token ends right behind the mantissa: the cursor returns to
    where skipMantissa left it, before the whitespace that was skipped in
    search of the exponent.  [1.5E] gives the token [1.5]; [1.5E-3] is one
    token of six bytes. *)
Theorem decimal_rolls_back_failed_exponent :
  (forall token st m st1 w st2,
     skipMantissa st = (m, st1) -> m <> 0 ->
     skipWs st1 = (w, st2) ->
     is_eos st2 = true \/ isE (cur st2) = false
     \/ (is_eos st2 = false /\ isE (cur st2) = true /\ exponent_digits st2 = 0) ->
     scpiLex_DecimalNumericProgramData token st
     = (mkToken SCPI_TOKEN_DECIMAL_NUMERIC_PROGRAM_DATA (pos st)
          (pos st1 - pos st),
        pos st1 - pos st, st1)
     /\ pos st < pos st1 <= pos st2)
  /\ (let r := scpiLex_DecimalNumericProgramData tok0 (lex_at (bytes "1.5E") 0) in
      outcome r = (SCPI_TOKEN_DECIMAL_NUMERIC_PROGRAM_DATA, 0, 3, 3, 3)
      /\ token_bytes (snd r) (fst (fst r)) = bytes "1.5")
  /\ (let r := scpiLex_DecimalNumericProgramData tok0
                 (lex_at (bytes "1.5  E+ ") 0) in
      outcome r = (SCPI_TOKEN_DECIMAL_NUMERIC_PROGRAM_DATA, 0, 3, 3, 3)
      /\ token_bytes (snd r) (fst (fst r)) = bytes "1.5")
  /\ (let r := scpiLex_DecimalNumericProgramData tok0
                 (lex_at (bytes "1.5E-3") 0) in
      outcome r = (SCPI_TOKEN_DECIMAL_NUMERIC_PROGRAM_DATA, 0, 6, 6, 6)
      /\ token_bytes (snd r) (fst (fst r)) = bytes "1.5E-3").
Proof.
  split.
  - intros token [buf q l] m st1 w st2 Em Hm Ew Hx.
    destruct (skipMantissa_run buf q l m st1 Em) as (q1 & -> & Hm0 & Hq1).
    unfold skipWs in Ew.
    destruct (skip_while_run is_ws buf q1 l w st2 Ew) as (-> & Hw).
    set (q2 := q1 + w) in *.
    cbn [pos]. split; [|lia].
    assert (exists q3, skipExponent (mkState buf q2 l) = (0, mkState buf q3 l))
      as (q3 & Ex).
    { destruct (skipExponent (mkState buf q2 l)) as [x s3] eqn:Ex.
      destruct (skipExponent_run buf q2 l x s3 Ex) as (q3 & ->).
      exists q3. f_equal.
      unfold skipExponent, bind, at_eos, peek, ret in Ex.
      destruct Hx as [Hx|[Hx|(Hx1 & Hx2 & Hx3)]].
      - rewrite Hx in Ex. cbn [negb andb] in Ex. congruence.
      - rewrite Hx, andb_false_r in Ex. congruence.
      - rewrite Hx1, Hx2 in Ex. cbn [negb andb] in Ex.
        unfold exponent_digits, bind in Hx3.
        rewrite Ex in Hx3. exact Hx3. }
    apply wp_eq. unfold scpiLex_DecimalNumericProgramData. wp_basic.
    eapply wp_of_eq; [exact Em|]. apply wp_bind. unfold truthy.
    assert ((m =? 0) = false) as -> by (apply Z.eqb_neq; exact Hm).
    cbn [negb]. wp_basic. eapply wp_of_eq; [exact Ew|].
    apply wp_bind. eapply wp_of_eq; [exact Ex|]. zc. wp_basic.
    apply wp_close_token; wp_simpl; intros; wp_basic.
    + reflexivity.
    + lia.
  - repeat split; vm_compute; reflexivity.
Qed.

Lemma decimal_rolls_back_failed_exponent_witness :
  let st := lex_at (bytes "1.5 E") 0 in
  let st1 := set_pos st 3 in
  let st2 := set_pos st 4 in
  skipMantissa st = (2, st1) /\ 2 <> 0 /\ skipWs st1 = (1, st2)
  /\ (is_eos st2 = true \/ isE (cur st2) = false
      \/ (is_eos st2 = false /\ isE (cur st2) = true /\ exponent_digits st2 = 0))
  /\ scpiLex_DecimalNumericProgramData tok0 st
     = (mkToken SCPI_TOKEN_DECIMAL_NUMERIC_PROGRAM_DATA (pos st)
          (pos st1 - pos st),
        pos st1 - pos st, st1)
  /\ pos st < pos st1 <= pos st2.
Proof.
  cbv zeta.
  assert (skipMantissa (lex_at (bytes "1.5 E") 0)
          = (2, set_pos (lex_at (bytes "1.5 E") 0) 3)) as H1
    by (vm_compute; reflexivity).
  assert (2 <> 0) as H2 by discriminate.
  assert (skipWs (set_pos (lex_at (bytes "1.5 E") 0) 3)
          = (1, set_pos (lex_at (bytes "1.5 E") 0) 4)) as H3
    by (vm_compute; reflexivity).
  assert (is_eos (set_pos (lex_at (bytes "1.5 E") 0) 4) = true
          \/ isE (cur (set_pos (lex_at (bytes "1.5 E") 0) 4)) = false
          \/ (is_eos (set_pos (lex_at (bytes "1.5 E") 0) 4) = false
              /\ isE (cur (set_pos (lex_at (bytes "1.5 E") 0) 4)) = true
              /\ exponent_digits (set_pos (lex_at (bytes "1.5 E") 0) 4) = 0))
    as H4 by (right; right; repeat split; vm_compute; reflexivity).
  split; [exact H1|]. split; [exact H2|]. split; [exact H3|].
  split; [exact H4|].
  exact (proj1 decimal_rolls_back_failed_exponent tok0
           (lex_at (bytes "1.5 E") 0) 2 _ 1 _ H1 H2 H3 H4).
Defined.

(** C5.  Inside the body a quote followed by the same quote is passed over
    as a pair and the scan goes on; a quote not followed by the same quote
    ends the body.  A string whose body is closed this way is one token from
    the opening quote to the closing one, both included.  When the body scan
    reaches the end of the buffer instead, the answer is no-match with the
    cursor back on the opening quote. *)
Theorem string_quote_doubling :
  (forall quote st,
     is_eos (advance st) = false -> cur st = quote -> cur (advance st) = quote ->
     skipQuoteProgramData quote st
     = skipQuoteProgramData quote (advance (advance st)))
  /\ (forall quote st,
        is_eos st = false -> cur st = quote ->
        is_eos (advance st) = true \/ cur (advance st) <> quote ->
        skipQuoteProgramData quote st = (tt, st))
  /\ (forall token st c,
        pos st < c < len st ->
        cur st = chr dquote \/ cur st = chr "'" ->
        plain_body (buffer st) (cur st) (pos st) c ->
        char_at (buffer st) c = cur st ->
        len st <= c + 1 \/ char_at (buffer st) (c + 1) <> cur st ->
        scpiLex_StringProgramData token st
        = (mkToken (string_type_of (cur st)) (pos st) (c + 1 - pos st),
           c + 1 - pos st, set_pos st (c + 1)))
  /\ (forall token st,
        is_eos st = false ->
        cur st = chr dquote \/ cur st = chr "'" ->
        is_eos (snd (skipQuoteProgramData (cur st) (advance st))) = true ->
        scpiLex_StringProgramData token st
        = (mkToken SCPI_TOKEN_UNKNOWN (pos st) 0, 0, st))
  /\ (let buf := dquote :: bytes "aa" ++ [dquote; dquote] ++ bytes "bb"
                   ++ [dquote] in
      let r := scpiLex_StringProgramData tok0 (lex_at buf 0) in
      outcome r = (SCPI_TOKEN_DOUBLE_QUOTE_PROGRAM_DATA, 0, 8, 8, 8)
      /\ token_bytes (snd r) (fst (fst r)) = buf)
  /\ outcome (scpiLex_StringProgramData tok0 (lex_at (dquote :: bytes "abc") 0))
     = (SCPI_TOKEN_UNKNOWN, 0, 0, 0, 0)
  /\ outcome (scpiLex_StringProgramData tok0 (lex_at (bytes "'it''s'") 0))
     = (SCPI_TOKEN_SINGLE_QUOTE_PROGRAM_DATA, 0, 7, 7, 7).
Proof.
  split; [|split; [|split; [|split]]].
  - intros quote [buf q l] He Hc Hc1. unfold is_eos, cur in *. wp_simpl.
    apply Z.leb_gt in He.
    unfold skipQuoteProgramData, remaining. cbn [pos len]. f_equal.
    rewrite quote_loop_doubled; [|lia|exact Hc|exact Hc1|lia].
    replace (q + 1 + 1) with (q + 2) by lia. reflexivity.
  - intros quote [buf q l] He Hc Hn. unfold is_eos, cur in *. wp_simpl.
    apply Z.leb_gt in He.
    unfold skipQuoteProgramData, remaining. cbn [pos len]. f_equal.
    apply quote_loop_close; [exact He|exact Hc| |lia].
    destruct Hn as [Hn|Hn]; [left; apply Z.leb_le; exact Hn|right; exact Hn].
  - intros token [buf q l] c Hc Hq Hplain Hclose Hn. unfold cur in *.
    wp_simpl. apply string_plain_body; assumption.
  - intros token [buf q l] He Hq Hend. unfold is_eos at 1 in He.
    unfold cur in *. wp_simpl. apply Z.leb_gt in He.
    apply string_unterminated; assumption.
  - repeat split; vm_compute; reflexivity.
Qed.

Lemma string_quote_doubling_witness :
  let st := lex_at (bytes "''''") 1 in
  is_eos (advance st) = false /\ cur st = chr "'" /\ cur (advance st) = chr "'"
  /\ skipQuoteProgramData (chr "'") st
     = skipQuoteProgramData (chr "'") (advance (advance st)).
Proof.
  cbv zeta.
  assert (is_eos (advance (lex_at (bytes "''''") 1)) = false) as H1
    by reflexivity.
  assert (cur (lex_at (bytes "''''") 1) = chr "'") as H2 by reflexivity.
  assert (cur (advance (lex_at (bytes "''''") 1)) = chr "'") as H3
    by reflexivity.
  split; [exact H1|]. split; [exact H2|]. split; [exact H3|].
  exact (proj1 string_quote_doubling (chr "'") (lex_at (bytes "''''") 1)
           H1 H2 H3).
Defined.

(** C6.  A matched non-decimal number: the token covers the digits only,
    starting two bytes behind the cursor the call began with, while the
    returned length counts the two prefix bytes as well and equals the
    advance of the cursor.  The digits are all of the base the letter names,
    and the run is maximal.  A recognised prefix without a digit of its base
    behind it is a no-match with the cursor back on the [#]. *)
Theorem nondecimal_token_excludes_prefix :
  (forall token st tok n st',
     scpiLex_NondecimalNumericData token st = (tok, n, st') ->
     tok_type tok <> SCPI_TOKEN_UNKNOWN ->
     exists letter digit,
       base_of (tok_type tok) = Some (letter, digit)
       /\ cur st = chr "#" /\ letter (cur (advance st)) = true
       /\ tok_ptr tok = pos st + 2 /\ tok_ptr tok + tok_len tok = pos st'
       /\ 0 < tok_len tok /\ n = tok_len tok + 2 /\ n = pos st' - pos st
       /\ (forall j, tok_ptr tok <= j < pos st' ->
             digit (char_at (buffer st) j) = true)
       /\ (is_eos st' = true \/ digit (cur st') = false))
  /\ (forall token st ty letter digit,
        base_of ty = Some (letter, digit) ->
        is_eos (advance st) = false -> cur st = chr "#" ->
        letter (cur (advance st)) = true ->
        is_eos (advance (advance st)) = true
        \/ digit (cur (advance (advance st))) = false ->
        scpiLex_NondecimalNumericData token st
        = (mkToken SCPI_TOKEN_UNKNOWN (pos st) 0, 0, st))
  /\ (let r := scpiLex_NondecimalNumericData tok0 (lex_at (bytes "#H2A") 0) in
      outcome r = (SCPI_TOKEN_HEXNUM, 2, 2, 4, 4)
      /\ token_bytes (snd r) (fst (fst r)) = bytes "2A")
  /\ outcome (scpiLex_NondecimalNumericData tok0 (lex_at (bytes "#Q9") 0))
     = (SCPI_TOKEN_UNKNOWN, 0, 0, 0, 0).
Proof.
  split; [|split].
  - intros token [buf q l] tok n st' E Hty.
    pose proof (wp_run _ _ _ _ _
                  (scpiLex_NondecimalNumericData_spec token buf q l) E)
      as (q' & -> & Hcase).
    cbn [fst snd] in Hcase. unfold is_eos, cur. cbn [pos len buffer advance set_pos].
    fold (char_at buf q) (char_at buf (q + 1)) (char_at buf q').
    destruct Hcase as [(Hu & _)
                      |(letter & digit & Hb & Hl & Hc & Hlet & Hp & Hlen & Hpos
                        & Hn & Hq' & Hall & Hstop)]; [contradiction|].
    exists letter, digit. split; [exact Hb|]. split; [exact Hc|].
    split; [exact Hlet|]. split; [exact Hp|]. split; [lia|].
    split; [exact Hpos|]. split; [exact Hn|]. split; [lia|]. split.
    + intros j Hj. apply Hall. lia.
    + destruct Hstop as [H|H]; [left; apply Z.leb_le; exact H|right; exact H].
  - intros token [buf q l] ty letter digit Hb He Hc Hlet Hnd.
    unfold is_eos, cur in *. wp_simpl. apply Z.leb_gt in He.
    apply (nondecimal_without_digits token ty letter digit);
      try assumption.
    replace (q + 2) with (q + 1 + 1) by lia.
    destruct Hnd as [H|H]; [left; apply Z.leb_le; exact H|right; exact H].
  - repeat split; vm_compute; reflexivity.
Qed.

Lemma nondecimal_token_excludes_prefix_witness :
  let st := lex_at (bytes "#B102") 0 in
  let r := scpiLex_NondecimalNumericData tok0 st in
  tok_type (fst (fst r)) <> SCPI_TOKEN_UNKNOWN
  /\ exists letter digit,
       base_of (tok_type (fst (fst r))) = Some (letter, digit)
       /\ cur st = chr "#" /\ letter (cur (advance st)) = true
       /\ tok_ptr (fst (fst r)) = pos st + 2
       /\ tok_ptr (fst (fst r)) + tok_len (fst (fst r)) = pos (snd r)
       /\ 0 < tok_len (fst (fst r))
       /\ snd (fst r) = tok_len (fst (fst r)) + 2
       /\ snd (fst r) = pos (snd r) - pos st
       /\ (forall j, tok_ptr (fst (fst r)) <= j < pos (snd r) ->
             digit (char_at (buffer st) j) = true)
       /\ (is_eos (snd r) = true \/ digit (cur (snd r)) = false).
Proof.
  cbv zeta.
  assert (tok_type (fst (fst (scpiLex_NondecimalNumericData tok0
                                (lex_at (bytes "#B102") 0))))
          <> SCPI_TOKEN_UNKNOWN) as H1 by (vm_compute; discriminate).
  split; [exact H1|].
  apply (proj1 nondecimal_token_excludes_prefix tok0
           (lex_at (bytes "#B102") 0)).
  - vm_compute. reflexivity.
  - exact H1.
Defined.

(** C7 on the inputs [/1] and [/].  No letter follows the slash, yet the
    call answers with a suffix token of one byte, the slash, and moves the
    cursor behind it. *)
Theorem suffix_slash_without_letters_matches :
  outcome (scpiLex_SuffixProgramData tok0 (lex_at (bytes "/1") 0))
  = (SCPI_TOKEN_SUFFIX_PROGRAM_DATA, 0, 1, 1, 1)
  /\ outcome (scpiLex_SuffixProgramData tok0 (lex_at (bytes "/") 0))
     = (SCPI_TOKEN_SUFFIX_PROGRAM_DATA, 0, 1, 1, 1)
  /\ outcome (scpiLex_SuffixProgramData tok0 (lex_at (bytes "1") 0))
     = (SCPI_TOKEN_UNKNOWN, 0, 0, 0, 0)
  /\ outcome (scpiLex_DecimalNumericProgramData tok0 (lex_at (bytes "+A") 0))
     = (SCPI_TOKEN_UNKNOWN, 0, 0, 0, 0).
Proof.
  repeat split; vm_compute; reflexivity.
Qed.

(** C8 on the expression detector.  Called where no [(] stands, with a
    token whose length field holds 5, it reports a matched expression and
    returns 5 although the cursor has not moved. *)
Theorem expression_match_without_advance :
  let token := mkToken SCPI_TOKEN_UNKNOWN 0 5 in
  let st := lex_at (bytes "A") 0 in
  let r := detect ProgramExpression token st in
  tok_type (fst (fst r)) = SCPI_TOKEN_PROGRAM_EXPRESSION
  /\ snd (fst r) = 5 /\ pos (snd r) - pos st = 0
  /\ snd (fst r) <> pos (snd r) - pos st.
Proof.
  cbv zeta. repeat split; try (vm_compute; reflexivity).
  vm_compute. discriminate.
Qed.

(** C9.  A detector started with the cursor inside the buffer leaves it
    inside the buffer and never before the place it started from; the
    buffer and its length are untouched.  This includes the arbitrary-block
    detector, which adds the declared length to the cursor before it
    compares with the end: the state it returns is within bounds again. *)
Theorem cursor_stays_within_buffer d token st tok n st' :
  wf_state st ->
  detect d token st = (tok, n, st') ->
  pos st <= pos st' <= len st
  /\ buffer st' = buffer st /\ len st' = len st /\ wf_state st'.
Proof.
  intros [Hlen Hpos] E.
  destruct (detect_frame_run d token st tok n st' E)
    as (q' & -> & Hq & Hb & _).
  unfold wf_state. cbn [buffer pos len]. repeat split; try lia; assumption.
Qed.

Lemma cursor_stays_within_buffer_witness :
  let st := lex_at (bytes "#15HEL") 0 in
  let r := detect ArbitraryBlockProgramData tok0 st in
  wf_state st
  /\ (pos st <= pos (snd r) <= len st
      /\ buffer (snd r) = buffer st /\ len (snd r) = len st /\ wf_state (snd r)).
Proof.
  cbv zeta. split.
  - split; [reflexivity|]. cbn. lia.
  - apply (cursor_stays_within_buffer ArbitraryBlockProgramData tok0
             (lex_at (bytes "#15HEL") 0)
             (fst (fst (detect ArbitraryBlockProgramData tok0
                          (lex_at (bytes "#15HEL") 0))))
             (snd (fst (detect ArbitraryBlockProgramData tok0
                          (lex_at (bytes "#15HEL") 0))))).
    + split; [reflexivity|]. cbn. lia.
    + vm_compute. reflexivity.
Defined.

(** C10.  When no [(] is at the cursor, scpiLex_ProgramExpression tests
    [token->len > 0] on the length the caller's token came with: a positive
    length is answered as a matched expression of that length with the
    cursor unmoved, and only a length that is not positive gives the
    no-match answer. *)
Theorem expression_without_paren_reads_caller_len token st :
  is_eos st = true \/ cur st <> chr "(" ->
  scpiLex_ProgramExpression token st
  = (if 0 <? tok_len token
     then (mkToken SCPI_TOKEN_PROGRAM_EXPRESSION (pos st) (tok_len token),
           tok_len token, st)
     else (mkToken SCPI_TOKEN_UNKNOWN (pos st) 0, 0, st))
  /\ (tok_type (fst (fst (scpiLex_ProgramExpression token st)))
      = SCPI_TOKEN_UNKNOWN <-> tok_len token <= 0).
Proof.
  intros H. destruct st as [buf q l].
  assert (negb (is_eos (mkState buf q l))
          && (cur (mkState buf q l) =? chr "(") = false) as Hcond.
  { destruct H as [H|H].
    - rewrite H. reflexivity.
    - apply andb_false_iff. right. apply Z.eqb_neq. exact H. }
  assert (scpiLex_ProgramExpression token (mkState buf q l)
          = (if 0 <? tok_len token
             then (mkToken SCPI_TOKEN_PROGRAM_EXPRESSION q (tok_len token),
                   tok_len token, mkState buf q l)
             else (mkToken SCPI_TOKEN_UNKNOWN q 0, 0, mkState buf q l))) as E.
  { unfold scpiLex_ProgramExpression, bind, get_pos, at_eos, peek, ret, put_pos.
    rewrite Hcond. cbn [pos tok_len with_ptr with_type with_len tok_ptr buffer len].
    destruct (0 <? tok_len token); reflexivity. }
  split; [exact E|]. rewrite E. cbn [pos].
  destruct (0 <? tok_len token) eqn:L; cbn [fst snd tok_type].
  - apply Z.ltb_lt in L. split; [discriminate|lia].
  - apply Z.ltb_ge in L. split; [intros _; exact L|reflexivity].
Qed.

Lemma expression_without_paren_reads_caller_len_witness :
  let token := mkToken SCPI_TOKEN_UNKNOWN 0 5 in
  let st := lex_at (bytes "A") 0 in
  (is_eos st = true \/ cur st <> chr "(")
  /\ (scpiLex_ProgramExpression token st
      = (if 0 <? tok_len token
         then (mkToken SCPI_TOKEN_PROGRAM_EXPRESSION (pos st) (tok_len token),
               tok_len token, st)
         else (mkToken SCPI_TOKEN_UNKNOWN (pos st) 0, 0, st))
      /\ (tok_type (fst (fst (scpiLex_ProgramExpression token st)))
          = SCPI_TOKEN_UNKNOWN <-> tok_len token <= 0)).
Proof.
  cbv zeta. split.
  - right. vm_compute. discriminate.
  - apply (expression_without_paren_reads_caller_len
             (mkToken SCPI_TOKEN_UNKNOWN 0 5) (lex_at (bytes "A") 0)).
    right. vm_compute. discriminate.
Defined.

(** ** Further properties of the code *)

Lemma whitespace_none token buf q l :
  l <= q \/ is_ws (char_at buf q) = false ->
  scpiLex_WhiteSpace token (mkState buf q l)
  = (mkToken SCPI_TOKEN_UNKNOWN q 0, 0, mkState buf q l).
Proof.
  intros Hn. apply wp_eq. unfold scpiLex_WhiteSpace, skipWs. wp_basic.
  apply wp_skip_while. intros k Hk Hb _ Hall.
  assert (k = 0) as ->.
  { assert (k = 0 \/ 0 < k) as [H|H] by lia; [exact H|]. exfalso.
    destruct Hn as [Hn|Hn]; [lia|].
    rewrite Hall in Hn by lia. discriminate Hn. }
  rewrite Z.add_0_r. apply wp_bind.
  apply wp_close_token; wp_simpl; intros; wp_basic; [lia|eq_done].
Qed.

(** X1.  scpiLex_WhiteSpace takes the longest run of blanks and tabs at the
    cursor: every byte of the token is a blank or a tab, the byte behind it
    is not, the token is tagged white space exactly when the run is not
    empty, and a second call right behind it finds nothing. *)
Theorem whitespace_takes_longest_run token st tok n st' :
  scpiLex_WhiteSpace token st = (tok, n, st') ->
  tok_ptr tok = pos st /\ tok_len tok = n /\ 0 <= n
  /\ st' = set_pos st (pos st + n)
  /\ (forall j, pos st <= j < pos st + n ->
        is_ws (char_at (buffer st) j) = true)
  /\ (is_eos st' = true \/ is_ws (cur st') = false)
  /\ tok_type tok = (if 0 <? n then SCPI_TOKEN_WS else SCPI_TOKEN_UNKNOWN)
  /\ (forall token',
        scpiLex_WhiteSpace token' st'
        = (mkToken SCPI_TOKEN_UNKNOWN (pos st') 0, 0, st')).
Proof.
  destruct st as [buf q l]. intros E. cbn [pos buffer len set_pos].
  assert (tok_ptr tok = q /\ tok_len tok = n /\ 0 <= n
          /\ st' = mkState buf (q + n) l
          /\ (forall j, q <= j < q + n -> is_ws (char_at buf j) = true)
          /\ (l <= q + n \/ is_ws (char_at buf (q + n)) = false)
          /\ tok_type tok
             = (if 0 <? n then SCPI_TOKEN_WS else SCPI_TOKEN_UNKNOWN)) as H.
  { apply (wp_run (scpiLex_WhiteSpace token) (mkState buf q l)
             (fun r s =>
                tok_ptr (fst r) = q /\ tok_len (fst r) = snd r /\ 0 <= snd r
                /\ s = mkState buf (q + snd r) l
                /\ (forall j, q <= j < q + snd r ->
                      is_ws (char_at buf j) = true)
                /\ (l <= q + snd r \/ is_ws (char_at buf (q + snd r)) = false)
                /\ tok_type (fst r)
                   = (if 0 <? snd r then SCPI_TOKEN_WS else SCPI_TOKEN_UNKNOWN))
             (tok, n) st'); [|exact E].
    unfold scpiLex_WhiteSpace, skipWs. wp_basic.
    apply wp_skip_while. intros k Hk Hb Hs Hall. apply wp_bind.
    apply wp_close_token; wp_simpl; intros Hlen; wp_basic;
      cbn [fst snd tok_ptr tok_len tok_type];
      replace (q + k - q) with k in * by lia.
    - assert ((0 <? k) = true) as -> by (apply Z.ltb_lt; lia).
      repeat split; try lia; assumption.
    - assert ((0 <? k) = false) as -> by (apply Z.ltb_ge; lia).
      repeat split; try lia; assumption. }
  destruct H as (H1 & H2 & H3 & -> & H5 & H6 & H7).
  split; [exact H1|]. split; [exact H2|]. split; [exact H3|].
  split; [reflexivity|]. split; [exact H5|]. split.
  { unfold is_eos, cur. cbn [pos len buffer]. fold (char_at buf (q + n)).
    destruct H6 as [H6|H6]; [left; apply Z.leb_le; exact H6|right; exact H6]. }
  split; [exact H7|].
  intros token'. cbn [pos]. apply whitespace_none. exact H6.
Qed.

Lemma whitespace_takes_longest_run_witness :
  let st := lex_at (bytes "  x") 0 in
  let r := scpiLex_WhiteSpace tok0 st in
  tok_ptr (fst (fst r)) = pos st /\ tok_len (fst (fst r)) = snd (fst r)
  /\ 0 <= snd (fst r)
  /\ snd r = set_pos st (pos st + snd (fst r))
  /\ (forall j, pos st <= j < pos st + snd (fst r) ->
        is_ws (char_at (buffer st) j) = true)
  /\ (is_eos (snd r) = true \/ is_ws (cur (snd r)) = false)
  /\ tok_type (fst (fst r))
     = (if 0 <? snd (fst r) then SCPI_TOKEN_WS else SCPI_TOKEN_UNKNOWN)
  /\ (forall token',
        scpiLex_WhiteSpace token' (snd r)
        = (mkToken SCPI_TOKEN_UNKNOWN (pos (snd r)) 0, 0, snd r)).
Proof.
  cbv zeta.
  apply (whitespace_takes_longest_run tok0 (lex_at (bytes "  x") 0)).
  vm_compute. reflexivity.
Defined.

(** X2.  scpiLex_CharacterProgramData matches exactly when a letter stands at
    the cursor; the token is that letter and the longest run of letters,
    digits and underscores behind it. *)
Theorem character_data_is_longest_mnemonic token st tok n st' :
  scpiLex_CharacterProgramData token st = (tok, n, st') ->
  tok_ptr tok = pos st /\ tok_len tok = n /\ 0 <= n
  /\ st' = set_pos st (pos st + n)
  /\ tok_type tok
     = (if 0 <? n then SCPI_TOKEN_PROGRAM_MNEMONIC else SCPI_TOKEN_UNKNOWN)
  /\ (n = 0 <-> is_eos st = true \/ isalpha (cur st) = false)
  /\ (forall j, pos st < j < pos st + n ->
        is_mnemonic_tail (char_at (buffer st) j) = true)
  /\ (0 < n -> is_eos st' = true \/ is_mnemonic_tail (cur st') = false).
Proof.
  destruct st as [buf q l]. intros E.
  unfold is_eos, cur. cbn [pos buffer len set_pos]. fold (char_at buf q).
  apply (wp_run (scpiLex_CharacterProgramData token) (mkState buf q l)
           (fun r s =>
              tok_ptr (fst r) = q /\ tok_len (fst r) = snd r /\ 0 <= snd r
              /\ s = mkState buf (q + snd r) l
              /\ tok_type (fst r)
                 = (if 0 <? snd r then SCPI_TOKEN_PROGRAM_MNEMONIC
                    else SCPI_TOKEN_UNKNOWN)
              /\ (snd r = 0 <->
                  (l <=? q) = true \/ isalpha (char_at buf q) = false)
              /\ (forall j, q < j < q + snd r ->
                    is_mnemonic_tail (char_at buf j) = true)
              /\ (0 < snd r ->
                  (len s <=? pos s) = true
                  \/ is_mnemonic_tail
                       (chr (nth (Z.to_nat (pos s)) (buffer s) x00)) = false))
           (tok, n) st'); [|exact E].
  unfold scpiLex_CharacterProgramData. wp_basic.
  apply wp_walk_mnemonic. intros k Hk Hb H0 H1 Hall. apply wp_bind.
  assert (k = 0 <-> (l <=? q) = true \/ isalpha (char_at buf q) = false)
    as Hzero.
  { split.
    - intros Hz. destruct (H0 Hz) as [H|H];
        [left; apply Z.leb_le; exact H|right; exact H].
    - intros Hc. assert (k = 0 \/ 0 < k) as [H|H] by lia; [exact H|].
      exfalso. destruct (H1 H) as (Ha & _).
      destruct Hc as [Hc|Hc]; [apply Z.leb_le in Hc; lia|].
      rewrite Hc in Ha. discriminate Ha. }
  apply wp_close_token; wp_simpl; intros Hlen; wp_basic;
    cbn [fst snd tok_ptr tok_len tok_type pos len buffer];
    replace (q + k - q) with k in * by lia.
  - assert ((0 <? k) = true) as -> by (apply Z.ltb_lt; lia).
    repeat split; try lia; try assumption; try (apply Hzero).
    intros Hpos. destruct (H1 Hpos) as (_ & [H|H]);
      [left; apply Z.leb_le; exact H|right; exact H].
  - assert ((0 <? k) = false) as -> by (apply Z.ltb_ge; lia).
    repeat split; try lia; try assumption; try (apply Hzero).
Qed.

Lemma character_data_is_longest_mnemonic_witness :
  let st := lex_at (bytes "ab_1 c") 0 in
  let r := scpiLex_CharacterProgramData tok0 st in
  tok_ptr (fst (fst r)) = pos st /\ tok_len (fst (fst r)) = snd (fst r)
  /\ 0 <= snd (fst r)
  /\ snd r = set_pos st (pos st + snd (fst r))
  /\ tok_type (fst (fst r))
     = (if 0 <? snd (fst r) then SCPI_TOKEN_PROGRAM_MNEMONIC
        else SCPI_TOKEN_UNKNOWN)
  /\ (snd (fst r) = 0 <-> is_eos st = true \/ isalpha (cur st) = false)
  /\ (forall j, pos st < j < pos st + snd (fst r) ->
        is_mnemonic_tail (char_at (buffer st) j) = true)
  /\ (0 < snd (fst r) ->
      is_eos (snd r) = true \/ is_mnemonic_tail (cur (snd r)) = false).
Proof.
  cbv zeta.
  apply (character_data_is_longest_mnemonic tok0 (lex_at (bytes "ab_1 c") 0)).
  vm_compute. reflexivity.
Defined.

(** X3.  The [int] skipProgramMnemonic returns: its magnitude is the number of
    bytes passed, it is 0 exactly when no letter stands at the cursor, and
    it is negative exactly when a mnemonic was passed and the buffer ends
    behind it.  scpiLex_CharacterProgramData passes the same bytes. *)
Theorem mnemonic_result_sign_and_magnitude st r st' :
  skipProgramMnemonic st = (r, st') ->
  st' = set_pos st (pos st + Z.abs r)
  /\ (r = 0 <-> is_eos st = true \/ isalpha (cur st) = false)
  /\ (r < 0 <-> r <> 0 /\ is_eos st' = true)
  /\ (0 < r -> is_mnemonic_tail (cur st') = false)
  /\ (forall token,
        snd (fst (scpiLex_CharacterProgramData token st)) = Z.abs r
        /\ snd (scpiLex_CharacterProgramData token st) = st').
Proof.
  destruct st as [buf q l]. intros E.
  unfold is_eos, cur. cbn [pos buffer len set_pos]. fold (char_at buf q).
  destruct (walk_mnemonic (mkState buf q l)) as [u s1] eqn:Ew.
  assert (exists k, s1 = mkState buf (q + k) l /\ 0 <= k
            /\ (k = 0 <-> (l <=? q) = true \/ isalpha (char_at buf q) = false)
            /\ (0 < k -> l <= q + k
                         \/ is_mnemonic_tail (char_at buf (q + k)) = false))
    as (k & -> & Hk & Hzero & Hstop).
  { apply (wp_run walk_mnemonic (mkState buf q l)
             (fun _ s => exists k, s = mkState buf (q + k) l /\ 0 <= k
                /\ (k = 0 <->
                    (l <=? q) = true \/ isalpha (char_at buf q) = false)
                /\ (0 < k -> l <= q + k
                     \/ is_mnemonic_tail (char_at buf (q + k)) = false))
             u s1); [|exact Ew].
    apply wp_walk_mnemonic. intros k Hk Hb H0 H1 _. exists k.
    split; [reflexivity|]. split; [exact Hk|]. split.
    - split.
      + intros Hz. destruct (H0 Hz) as [H|H];
          [left; apply Z.leb_le; exact H|right; exact H].
      + intros Hc. assert (k = 0 \/ 0 < k) as [H|H] by lia; [exact H|].
        exfalso. destruct (H1 H) as (Ha & _).
        destruct Hc as [Hc|Hc]; [apply Z.leb_le in Hc; lia|].
        rewrite Hc in Ha. discriminate Ha.
    - intros Hpos. exact (proj2 (H1 Hpos)). }
  unfold skipProgramMnemonic, bind, get_pos, at_eos, ret in E.
  rewrite Ew in E. unfold is_eos in E. cbn [pos len] in E.
  unfold SKIP_INCOMPLETE, SKIP_OK in E.
  replace (q + k - q) with k in E by lia.
  assert (st' = mkState buf (q + k) l
          /\ r = (if l <=? q + k then - k else k)) as (-> & Hr).
  { destruct (l <=? q + k); inversion E; split; try reflexivity; lia. }
  cbn [pos len buffer]. fold (char_at buf (q + k)).
  assert (Z.abs r = k) as Habs by (rewrite Hr; destruct (l <=? q + k); lia).
  split; [rewrite Habs; reflexivity|]. split.
  { rewrite <- Hzero. rewrite Hr. destruct (l <=? q + k); lia. }
  split.
  { rewrite Hr. destruct (l <=? q + k) eqn:F.
    - split; [intros H; split; [lia|reflexivity]|intros (H & _); lia].
    - split; [intros H; lia|intros (_ & H); discriminate H]. }
  split.
  { intros Hpos. assert (0 < k) as Hkpos by lia.
    destruct (Hstop Hkpos) as [H|H]; [|exact H].
    exfalso. rewrite Hr in Hpos.
    assert ((l <=? q + k) = true) as F by (apply Z.leb_le; exact H).
    rewrite F in Hpos. lia. }
  intros token.
  unfold scpiLex_CharacterProgramData, bind, get_pos, ret.
  rewrite Ew. unfold close_token, bind, get_pos, ret.
  cbn [pos with_ptr with_len tok_ptr tok_len].
  replace (q + k - q) with k by lia.
  destruct (0 <? k) eqn:F; cbv [with_len with_ptr with_type];
    cbn [fst snd tok_len].
  - split; [lia|reflexivity].
  - apply Z.ltb_ge in F. split; [lia|reflexivity].
Qed.

Lemma mnemonic_result_sign_and_magnitude_witness :
  let st := lex_at (bytes "SYST") 0 in
  let r := skipProgramMnemonic st in
  snd r = set_pos st (pos st + Z.abs (fst r))
  /\ (fst r = 0 <-> is_eos st = true \/ isalpha (cur st) = false)
  /\ (fst r < 0 <-> fst r <> 0 /\ is_eos (snd r) = true)
  /\ (0 < fst r -> is_mnemonic_tail (cur (snd r)) = false)
  /\ (forall token,
        snd (fst (scpiLex_CharacterProgramData token st)) = Z.abs (fst r)
        /\ snd (scpiLex_CharacterProgramData token st) = snd r).
Proof.
  cbv zeta.
  apply (mnemonic_result_sign_and_magnitude (lex_at (bytes "SYST") 0)).
  vm_compute. reflexivity.
Defined.

(** X4.  scpiLex_NewLine accepts a carriage return, a line feed, or a carriage
    return followed by a line feed, and nothing longer: a line feed followed
    by a carriage return gives a token of one byte. *)
Theorem newline_is_cr_lf_or_both token st tok n st' :
  scpiLex_NewLine token st = (tok, n, st') ->
  tok_ptr tok = pos st /\ tok_len tok = n /\ 0 <= n <= 2
  /\ st' = set_pos st (pos st + n)
  /\ tok_type tok = (if 0 <? n then SCPI_TOKEN_NL else SCPI_TOKEN_UNKNOWN)
  /\ (n = 0 <->
      is_eos st = true \/ (cur st <> chr x0d /\ cur st <> chr x0a))
  /\ (n = 2 <->
      is_eos st = false /\ cur st = chr x0d
      /\ is_eos (advance st) = false /\ cur (advance st) = chr x0a).
Proof.
  destruct st as [buf q l]. intros E.
  unfold is_eos, cur. cbn [pos buffer len set_pos advance].
  fold (char_at buf q) (char_at buf (q + 1)).
  apply (wp_run (scpiLex_NewLine token) (mkState buf q l)
           (fun r s =>
              tok_ptr (fst r) = q /\ tok_len (fst r) = snd r
              /\ 0 <= snd r <= 2
              /\ s = mkState buf (q + snd r) l
              /\ tok_type (fst r)
                 = (if 0 <? snd r then SCPI_TOKEN_NL else SCPI_TOKEN_UNKNOWN)
              /\ (snd r = 0 <->
                  (l <=? q) = true
                  \/ (char_at buf q <> chr x0d /\ char_at buf q <> chr x0a))
              /\ (snd r = 2 <->
                  (l <=? q) = false /\ char_at buf q = chr x0d
                  /\ (l <=? q + 1) = false /\ char_at buf (q + 1) = chr x0a))
           (tok, n) st'); [|exact E].
  assert (chr x0d <> chr x0a) as Hdiff by (vm_compute; discriminate).
  unfold scpiLex_NewLine, skipChr. wp_basic.
  apply wp_skip_one.
  - intros Hl Hc. apply Z.eqb_eq in Hc. apply wp_bind. apply wp_skip_one.
    + intros Hl1 Hc1. apply Z.eqb_eq in Hc1. apply wp_bind.
      apply wp_close_token; wp_simpl; intros Hlen; wp_basic; [|lia].
      cbn [fst snd tok_ptr tok_len tok_type].
      replace (q + 1 + 1 - q) with 2 by lia. cbn [Z.ltb Z.compare].
      split; [reflexivity|]. split; [reflexivity|]. split; [lia|].
      split; [f_equal; lia|]. split; [reflexivity|]. split.
      * split; [lia|]. intros [H|(H & _)];
          [apply Z.leb_le in H; lia|contradiction].
      * split; [|reflexivity]. intros _.
        repeat split; try assumption; apply Z.leb_gt; lia.
    + intros Hn1. apply wp_bind.
      apply wp_close_token; wp_simpl; intros Hlen; wp_basic; [|lia].
      cbn [fst snd tok_ptr tok_len tok_type].
      replace (q + 1 - q) with 1 by lia. cbn [Z.ltb Z.compare].
      split; [reflexivity|]. split; [reflexivity|]. split; [lia|].
      split; [reflexivity|]. split; [reflexivity|]. split.
      * split; [lia|]. intros [H|(H & _)];
          [apply Z.leb_le in H; lia|contradiction].
      * split; [lia|]. intros (_ & _ & H1 & H2). exfalso.
        apply Z.leb_gt in H1. destruct Hn1 as [Hn1|Hn1]; [lia|].
        rewrite H2, Z.eqb_refl in Hn1. discriminate Hn1.
  - intros Hn. apply wp_bind. apply wp_skip_one.
    + intros Hl1 Hc1. apply Z.eqb_eq in Hc1. apply wp_bind.
      apply wp_close_token; wp_simpl; intros Hlen; wp_basic; [|lia].
      cbn [fst snd tok_ptr tok_len tok_type].
      replace (q + 1 - q) with 1 by lia. cbn [Z.ltb Z.compare].
      split; [reflexivity|]. split; [reflexivity|]. split; [lia|].
      split; [reflexivity|]. split; [reflexivity|]. split.
      * split; [lia|]. intros [H|(_ & H)];
          [apply Z.leb_le in H; lia|contradiction].
      * split; [lia|]. intros (_ & H & _). exfalso.
        rewrite H in Hc1. contradiction.
    + intros Hn1. apply wp_bind.
      apply wp_close_token; wp_simpl; intros Hlen; wp_basic; [lia|].
      cbn [fst snd tok_ptr tok_len tok_type]. cbn [Z.ltb Z.compare].
      split; [reflexivity|]. split; [reflexivity|]. split; [lia|].
      split; [f_equal; lia|]. split; [reflexivity|]. split.
      * split; [|reflexivity]. intros _.
        destruct Hn as [Hn|Hn]; [left; apply Z.leb_le; exact Hn|].
        destruct Hn1 as [Hn1|Hn1]; [left; apply Z.leb_le; exact Hn1|].
        right. split; apply Z.eqb_neq; assumption.
      * split; [lia|]. intros (H0 & H & _). exfalso.
        apply Z.leb_gt in H0. destruct Hn as [Hn|Hn]; [lia|].
        rewrite H, Z.eqb_refl in Hn. discriminate Hn.
Qed.

Lemma newline_is_cr_lf_or_both_witness :
  let st := lex_at [x0a; x0d] 0 in
  let r := scpiLex_NewLine tok0 st in
  tok_ptr (fst (fst r)) = pos st /\ tok_len (fst (fst r)) = snd (fst r)
  /\ 0 <= snd (fst r) <= 2
  /\ snd r = set_pos st (pos st + snd (fst r))
  /\ tok_type (fst (fst r))
     = (if 0 <? snd (fst r) then SCPI_TOKEN_NL else SCPI_TOKEN_UNKNOWN)
  /\ (snd (fst r) = 0 <->
      is_eos st = true \/ (cur st <> chr x0d /\ cur st <> chr x0a))
  /\ (snd (fst r) = 2 <->
      is_eos st = false /\ cur st = chr x0d
      /\ is_eos (advance st) = false /\ cur (advance st) = chr x0a).
Proof.
  cbv zeta.
  apply (newline_is_cr_lf_or_both tok0 (lex_at [x0a; x0d] 0)).
  vm_compute. reflexivity.
Defined.

(** X5.  With [(] at the cursor, scpiLex_ProgramExpression answers from the
    buffer alone, whatever length the caller's token held: the longest run
    of expression bytes closed by [)] is the token, parentheses included;
    a run that ends at the end of the buffer or at any other byte, a second
    [(] among them, is a no-match with the cursor back on the [(]. *)
Theorem expression_needs_closing_paren token st c :
  pos st < c <= len st -> is_eos st = false -> cur st = chr "(" ->
  expression_body (buffer st) (pos st) c ->
  (c < len st -> char_at (buffer st) c = chr ")" ->
   scpiLex_ProgramExpression token st
   = (mkToken SCPI_TOKEN_PROGRAM_EXPRESSION (pos st) (c + 1 - pos st),
      c + 1 - pos st, set_pos st (c + 1)))
  /\ (c = len st
      \/ (isProgramExpression (char_at (buffer st) c) = false
          /\ char_at (buffer st) c <> chr ")") ->
      scpiLex_ProgramExpression token st
      = (mkToken SCPI_TOKEN_UNKNOWN (pos st) 0, 0, st)).
Proof.
  destruct st as [buf q l]. unfold is_eos, cur.
  cbn [pos buffer len set_pos]. fold (char_at buf q).
  intros Hc He Hp Hbody. apply Z.leb_gt in He.
  assert (forall k, 0 <= k -> (k = 0 \/ q + 1 + k <= l) ->
            (l <= q + 1 + k
             \/ isProgramExpression (char_at buf (q + 1 + k)) = false) ->
            (forall j, q + 1 <= j < q + 1 + k ->
               isProgramExpression (char_at buf j) = true) ->
            (c = l \/ isProgramExpression (char_at buf c) = false) ->
            q + 1 + k = c) as Hrun.
  { intros k Hk Hb Hs Hall Hstop.
    assert (q + 1 + k < c \/ q + 1 + k = c \/ c < q + 1 + k) as [H|[H|H]]
      by lia; [|exact H|]; exfalso.
    - destruct Hs as [Hs|Hs]; [lia|].
      rewrite Hbody in Hs by lia. discriminate Hs.
    - destruct Hstop as [Hstop|Hstop]; [lia|].
      rewrite Hall in Hstop by lia. discriminate Hstop. }
  split.
  - intros Hl Hclose. apply wp_eq.
    unfold scpiLex_ProgramExpression, skipProgramExpression. wp_basic.
    assert ((l <=? q) = false) as -> by (apply Z.leb_gt; lia).
    rewrite Hp, Z.eqb_refl. cbn [negb andb]. wp_basic.
    apply wp_skip_while. intros k Hk Hb Hs Hall.
    assert (q + 1 + k = c) as Hk'.
    { apply Hrun; try assumption. right. rewrite Hclose.
      vm_compute. reflexivity. }
    rewrite Hk'. wp_basic.
    assert ((l <=? c) = false) as -> by (apply Z.leb_gt; lia).
    rewrite Hclose, Z.eqb_refl. cbn [negb andb]. wp_basic.
    assert ((0 <? c + 1 - q) = true) as -> by (apply Z.ltb_lt; lia).
    wp_basic. reflexivity.
  - intros Hstop. apply wp_eq.
    unfold scpiLex_ProgramExpression, skipProgramExpression. wp_basic.
    assert ((l <=? q) = false) as -> by (apply Z.leb_gt; lia).
    rewrite Hp, Z.eqb_refl. cbn [negb andb]. wp_basic.
    apply wp_skip_while. intros k Hk Hb Hs Hall.
    assert (q + 1 + k = c) as Hk'.
    { apply Hrun; try assumption.
      destruct Hstop as [H|(H & _)]; [left; exact H|right; exact H]. }
    rewrite Hk'. wp_basic.
    assert (negb (l <=? c) && (char_at buf c =? chr ")") = false) as ->.
    { destruct Hstop as [H|(_ & H)].
      - assert ((l <=? c) = true) as -> by (apply Z.leb_le; lia). reflexivity.
      - apply Z.eqb_neq in H. rewrite H. apply andb_false_r. }
    wp_basic. zc. wp_basic. reflexivity.
Qed.

Lemma expression_needs_closing_paren_witness :
  let st := lex_at (bytes "(@1(2))") 0 in
  (pos st < 3 <= len st /\ is_eos st = false /\ cur st = chr "("
   /\ expression_body (buffer st) (pos st) 3)
  /\ scpiLex_ProgramExpression (mkToken SCPI_TOKEN_UNKNOWN 0 5) st
     = (mkToken SCPI_TOKEN_UNKNOWN (pos st) 0, 0, st).
Proof.
  cbv zeta.
  assert (pos (lex_at (bytes "(@1(2))") 0) < 3
          <= len (lex_at (bytes "(@1(2))") 0)) as H1 by (cbn; lia).
  assert (is_eos (lex_at (bytes "(@1(2))") 0) = false) as H2 by reflexivity.
  assert (cur (lex_at (bytes "(@1(2))") 0) = chr "(") as H3 by reflexivity.
  assert (expression_body (buffer (lex_at (bytes "(@1(2))") 0))
            (pos (lex_at (bytes "(@1(2))") 0)) 3) as H4.
  { intros j Hj. cbn [pos lex_at] in Hj.
    assert (j = 1 \/ j = 2) as [->| ->] by lia; reflexivity. }
  split; [repeat split; try assumption; apply H1|].
  apply (proj2 (expression_needs_closing_paren
                  (mkToken SCPI_TOKEN_UNKNOWN 0 5)
                  (lex_at (bytes "(@1(2))") 0) 3 H1 H2 H3 H4)).
  right. split; [reflexivity|]. vm_compute. discriminate.
Defined.

Lemma expression_ptr token buf q l :
  wp (scpiLex_ProgramExpression token) (mkState buf q l)
     (fun r _ => tok_ptr (fst r) = q).
Proof.
  unfold scpiLex_ProgramExpression, skipProgramExpression. wp_basic.
  destruct (negb (l <=? q) && (char_at buf q =? chr "(")).
  - wp_basic. apply wp_skip_while. intros k _ _ _ _. wp_basic.
    destruct (negb (l <=? q + 1 + k) && (char_at buf (q + 1 + k) =? chr ")"));
      wp_basic.
    + destruct (0 <? q + 1 + k + 1 - q); wp_basic; reflexivity.
    + zc. wp_basic. reflexivity.
  - wp_basic. destruct (0 <? tok_len token); wp_basic; reflexivity.
Qed.

Lemma token_type_eqb_eq a b : token_type_eqb a b = true <-> a = b.
Proof.
  destruct a, b; split; intros H; try reflexivity; discriminate H.
Qed.

(** No detector places its token before the cursor it was called with. *)
Lemma detect_ptr_from_cursor d token st tok n st' :
  detect d token st = (tok, n, st') -> pos st <= tok_ptr tok.
Proof.
  intros E.
  destruct (detect_frame_run d token st tok n st' E)
    as (q' & -> & Hq & Hb & Hu & Hm).
  assert (tok_type tok = SCPI_TOKEN_UNKNOWN
          \/ tok_type tok <> SCPI_TOKEN_UNKNOWN) as [Hty|Hty].
  { destruct (token_type_eqb (tok_type tok) SCPI_TOKEN_UNKNOWN) eqn:T.
    - left. apply token_type_eqb_eq. exact T.
    - right. intros H. apply token_type_eqb_eq in H. congruence. }
  - destruct (Hu Hty) as (_ & _ & Hp & _). lia.
  - destruct (Hm Hty) as [(H & _)|(-> & _)]; [exact H|].
    destruct st as [buf q l]. cbn [detect] in E.
    pose proof (wp_run _ _ _ _ _ (expression_ptr token buf q l) E) as Hp.
    cbn [fst pos] in *. lia.
Qed.

Lemma matched_frame d token st tok n st' :
  detect d token st = (tok, n, st') ->
  tok_type tok <> SCPI_TOKEN_UNKNOWN -> len_is_written d token st ->
  pos st <= tok_ptr tok /\ 0 <= tok_len tok
  /\ tok_ptr tok + tok_len tok = pos st' /\ n = pos st' - pos st
  /\ (pos st' = pos st \/ pos st' <= len st).
Proof.
  intros E Hty Hw.
  destruct (detect_frame_run d token st tok n st' E)
    as (q' & -> & Hq & Hb & _ & Hm).
  cbn [pos].
  destruct (Hm Hty) as [(H1 & H2 & H3 & H4)|(Hd & Hl & Hc & _)].
  - repeat split; assumption.
  - exfalso. destruct (Hw Hd) as [Hle|(He & Hp)]; [lia|].
    unfold is_eos in He. apply Z.leb_gt in He.
    destruct Hc as [Hc|Hc]; [lia|]. apply Hc. exact Hp.
Qed.

(** X6.  Two detector calls in a row, the second started where the first
    stopped.  When the first reports a match, its token ends where the
    second call begins and the second token does not start before that;
    when the second matches too, the two returned lengths add up to the
    distance the cursor has moved.  A match of the expression detector
    counts only with a [(] at the cursor or an incoming token length that
    is not positive: otherwise it answers from the caller's length and the
    statement fails. *)
Theorem successive_tokens_do_not_overlap
  d1 d2 token1 token2 st t1 n1 st1 t2 n2 st2 :
  detect d1 token1 st = (t1, n1, st1) ->
  detect d2 token2 st1 = (t2, n2, st2) ->
  tok_type t1 <> SCPI_TOKEN_UNKNOWN -> len_is_written d1 token1 st ->
  tok_ptr t1 + tok_len t1 = pos st1 /\ pos st1 <= tok_ptr t2
  /\ (tok_type t2 <> SCPI_TOKEN_UNKNOWN -> len_is_written d2 token2 st1 ->
      tok_ptr t2 + tok_len t2 = pos st2 /\ n1 + n2 = pos st2 - pos st).
Proof.
  intros E1 E2 Hty1 Hw1.
  destruct (matched_frame d1 token1 st t1 n1 st1 E1 Hty1 Hw1)
    as (_ & _ & Hend1 & Hn1 & _).
  pose proof (detect_ptr_from_cursor d2 token2 st1 t2 n2 st2 E2) as Hp2.
  split; [exact Hend1|]. split; [exact Hp2|].
  intros Hty2 Hw2.
  destruct (matched_frame d2 token2 st1 t2 n2 st2 E2 Hty2 Hw2)
    as (_ & _ & Hend2 & Hn2 & _).
  split; [exact Hend2|lia].
Qed.

Lemma successive_tokens_do_not_overlap_witness :
  let st := lex_at (bytes "#H1F,") 0 in
  let r1 := detect NondecimalNumericData tok0 st in
  let r2 := detect Comma tok0 (snd r1) in
  (tok_type (fst (fst r1)) <> SCPI_TOKEN_UNKNOWN
   /\ len_is_written NondecimalNumericData tok0 st)
  /\ tok_ptr (fst (fst r1)) + tok_len (fst (fst r1)) = pos (snd r1)
  /\ pos (snd r1) <= tok_ptr (fst (fst r2))
  /\ (tok_type (fst (fst r2)) <> SCPI_TOKEN_UNKNOWN ->
      len_is_written Comma tok0 (snd r1) ->
      tok_ptr (fst (fst r2)) + tok_len (fst (fst r2)) = pos (snd r2)
      /\ snd (fst r1) + snd (fst r2) = pos (snd r2) - pos st).
Proof.
  cbv zeta.
  assert (tok_type (fst (fst (detect NondecimalNumericData tok0
                                (lex_at (bytes "#H1F,") 0))))
          <> SCPI_TOKEN_UNKNOWN) as H1 by (vm_compute; discriminate).
  assert (len_is_written NondecimalNumericData tok0 (lex_at (bytes "#H1F,") 0))
    as H2 by (intros H; discriminate H).
  split; [split; assumption|].
  apply (successive_tokens_do_not_overlap NondecimalNumericData Comma
           tok0 tok0 (lex_at (bytes "#H1F,") 0)).
  - vm_compute. reflexivity.
  - vm_compute. reflexivity.
  - exact H1.
  - exact H2.
Defined.

Lemma length_slice buf a b :
  0 <= a <= b -> b <= Z.of_nat (List.length buf) ->
  Z.of_nat (List.length (slice buf a b)) = b - a.
Proof.
  intros Ha Hb. unfold slice. rewrite length_firstn, length_skipn. lia.
Qed.

(** X7.  A matched token views bytes of the buffer only: its range lies between
    the cursor the call began with and the end of the buffer, and it views
    as many bytes as its length says.  For the expression detector this
    needs a [(] at the cursor or an incoming token length that is not
    positive: otherwise the token has the caller's length and may reach
    beyond the buffer. *)
Theorem token_view_lies_inside_buffer d token st tok n st' :
  wf_state st ->
  detect d token st = (tok, n, st') ->
  tok_type tok <> SCPI_TOKEN_UNKNOWN -> len_is_written d token st ->
  0 <= pos st <= tok_ptr tok /\ 0 <= tok_len tok
  /\ tok_ptr tok + tok_len tok <= len st
  /\ Z.of_nat (List.length (token_bytes st tok)) = tok_len tok.
Proof.
  intros [Hlen Hpos] E Hty Hw.
  destruct (matched_frame d token st tok n st' E Hty Hw)
    as (H1 & H2 & H3 & H4 & H5).
  split; [lia|]. split; [exact H2|]. split; [lia|].
  rewrite token_bytes_slice, length_slice; lia.
Qed.

Lemma token_view_lies_inside_buffer_witness :
  let st := lex_at (bytes "#14ABCD") 0 in
  let r := detect ArbitraryBlockProgramData tok0 st in
  (wf_state st /\ tok_type (fst (fst r)) <> SCPI_TOKEN_UNKNOWN
   /\ len_is_written ArbitraryBlockProgramData tok0 st)
  /\ 0 <= pos st <= tok_ptr (fst (fst r)) /\ 0 <= tok_len (fst (fst r))
  /\ tok_ptr (fst (fst r)) + tok_len (fst (fst r)) <= len st
  /\ Z.of_nat (List.length (token_bytes st (fst (fst r))))
     = tok_len (fst (fst r)).
Proof.
  cbv zeta.
  assert (wf_state (lex_at (bytes "#14ABCD") 0)) as H0
    by (split; [reflexivity|cbn; lia]).
  assert (tok_type (fst (fst (detect ArbitraryBlockProgramData tok0
                                (lex_at (bytes "#14ABCD") 0))))
          <> SCPI_TOKEN_UNKNOWN) as H1 by (vm_compute; discriminate).
  assert (len_is_written ArbitraryBlockProgramData tok0
            (lex_at (bytes "#14ABCD") 0)) as H2
    by (intros H; discriminate H).
  split; [repeat split; try assumption; apply H0|].
  apply (token_view_lies_inside_buffer ArbitraryBlockProgramData tok0
           (lex_at (bytes "#14ABCD") 0) _
           (snd (fst (detect ArbitraryBlockProgramData tok0
                        (lex_at (bytes "#14ABCD") 0))))
           (snd (detect ArbitraryBlockProgramData tok0
                   (lex_at (bytes "#14ABCD") 0))) H0).
  - vm_compute. reflexivity.
  - exact H1.
  - exact H2.
Defined.

(** X8.  The payload of an arbitrary block is never read: two buffers with the
    same block header and as many bytes behind it give the same answer,
    whatever those bytes are. *)
Theorem arbitrary_block_payload_is_not_read token pre d ds rest rest' :
  isNonzeroDigit (chr d) = true ->
  Z.of_nat (List.length ds) = chr d - chr "0" ->
  all_digits ds ->
  List.length rest = List.length rest' ->
  let q := Z.of_nat (List.length pre) in
  outcome (scpiLex_ArbitraryBlockProgramData token
             (lex_at (pre ++ "#"%byte :: d :: ds ++ rest) q))
  = outcome (scpiLex_ArbitraryBlockProgramData token
               (lex_at (pre ++ "#"%byte :: d :: ds ++ rest') q)).
Proof.
  intros Hnz Hn Hds Hlen q.
  pose proof (arbitrary_block_by_content token pre d ds rest Hnz Hn Hds) as E.
  pose proof (arbitrary_block_by_content token pre d ds rest' Hnz Hn Hds) as E'.
  cbv zeta in E, E'. fold q in E, E'. rewrite E, E'.
  assert (List.length (pre ++ "#"%byte :: d :: ds ++ rest)
          = List.length (pre ++ "#"%byte :: d :: ds ++ rest')) as Hl.
  { rewrite !length_app. cbn [List.length]. rewrite !length_app. lia. }
  rewrite Hlen, Hl.
  destruct (decimal_value ds <=? Z.of_nat (List.length rest')); reflexivity.
Qed.

Lemma arbitrary_block_payload_is_not_read_witness :
  let q := Z.of_nat (List.length (bytes ",")) in
  (isNonzeroDigit (chr "1") = true
   /\ Z.of_nat (List.length (bytes "3")) = chr "1" - chr "0"
   /\ all_digits (bytes "3")
   /\ List.length (bytes "a;b?") = List.length [x00; x22; "#"%byte; xff])
  /\ outcome (scpiLex_ArbitraryBlockProgramData tok0
                (lex_at (bytes "," ++ "#"%byte :: "1"%byte :: bytes "3"
                           ++ bytes "a;b?") q))
     = outcome (scpiLex_ArbitraryBlockProgramData tok0
                  (lex_at (bytes "," ++ "#"%byte :: "1"%byte :: bytes "3"
                             ++ [x00; x22; "#"%byte; xff]) q)).
Proof.
  cbv zeta.
  assert (isNonzeroDigit (chr "1") = true) as H1 by reflexivity.
  assert (Z.of_nat (List.length (bytes "3")) = chr "1" - chr "0") as H2
    by reflexivity.
  assert (all_digits (bytes "3")) as H3 by (repeat constructor).
  assert (List.length (bytes "a;b?") = List.length [x00; x22; "#"%byte; xff])
    as H4 by reflexivity.
  split; [repeat split; assumption|].
  exact (arbitrary_block_payload_is_not_read tok0 (bytes ",") "1"%byte
           (bytes "3") (bytes "a;b?") [x00; x22; "#"%byte; xff] H1 H2 H3 H4).
Defined.

Lemma block_length_loop_short ds : forall i pre rest acc l,
  all_digits ds -> (List.length ds < i)%nat ->
  Z.of_nat (List.length pre) + Z.of_nat (List.length ds) <= l ->
  l <= Z.of_nat (List.length pre) + Z.of_nat (List.length ds)
  \/ isdigit (char_at (pre ++ ds ++ rest)
                (Z.of_nat (List.length pre) + Z.of_nat (List.length ds)))
     = false ->
  block_length_loop i acc
    (mkState (pre ++ ds ++ rest) (Z.of_nat (List.length pre)) l)
  = ((Z.of_nat (i - List.length ds), fold_left decimal_step ds acc),
     mkState (pre ++ ds ++ rest)
       (Z.of_nat (List.length pre) + Z.of_nat (List.length ds)) l).
Proof.
  induction ds as [|d ds IH]; intros i pre rest acc l Hd Hi Hl Hstop.
  - destruct i as [|i]; [cbn in Hi; lia|].
    cbn [List.length Z.of_nat] in *. rewrite Z.add_0_r in *.
    cbn [block_length_loop fold_left]. wp_simpl.
    assert (negb (l <=? Z.of_nat (List.length pre))
            && isdigit (char_at (pre ++ [] ++ rest)
                          (Z.of_nat (List.length pre))) = false) as ->.
    { destruct Hstop as [H|H].
      - assert ((l <=? Z.of_nat (List.length pre)) = true) as ->
          by (apply Z.leb_le; exact H). reflexivity.
      - rewrite H. apply andb_false_r. }
    rewrite Nat.sub_0_r. reflexivity.
  - destruct i as [|i]; [cbn in Hi; lia|].
    inversion Hd as [|? ? Hd1 Hd2]; subst.
    cbn [List.length] in Hi, Hl, Hstop.
    cbn [block_length_loop List.length fold_left]. wp_simpl.
    assert ((l <=? Z.of_nat (List.length pre)) = false) as ->
      by (apply Z.leb_gt; lia).
    cbn [app]. rewrite char_at_middle, Hd1. cbn [negb andb].
    assert (pre ++ d :: ds ++ rest = (pre ++ [d]) ++ ds ++ rest) as Hbuf
      by (rewrite <- app_assoc; reflexivity).
    assert (Z.of_nat (List.length pre) + 1
            = Z.of_nat (List.length (pre ++ [d]))) as Hpos
      by (rewrite length_app; cbn [List.length]; lia).
    cbn [app] in Hstop. rewrite Hbuf in *. rewrite Hpos.
    rewrite IH; [|exact Hd2|lia|rewrite <- Hpos; lia|].
    + eq_done.
    + rewrite <- Hpos.
      replace (Z.of_nat (List.length pre) + 1 + Z.of_nat (List.length ds))
        with (Z.of_nat (List.length pre) + Z.of_nat (S (List.length ds)))
        by lia.
      exact Hstop.
Qed.

Lemma arbitrary_block_short_header token pre d ds rest :
  isNonzeroDigit (chr d) = true ->
  all_digits ds ->
  Z.of_nat (List.length ds) < chr d - chr "0" ->
  match rest with
  | [] => True
  | x :: _ => isdigit (chr x) = false
  end ->
  let buf := pre ++ "#"%byte :: d :: ds ++ rest in
  let q := Z.of_nat (List.length pre) in
  scpiLex_ArbitraryBlockProgramData token (lex_at buf q)
  = (mkToken SCPI_TOKEN_UNKNOWN q 0, 0,
     set_pos (lex_at buf q)
       (match rest with [] => len (lex_at buf q) | _ :: _ => q end)).
Proof.
  intros Hnz Hds Hn Hrest buf q. apply wp_eq. unfold lex_at.
  cbn [set_pos buffer len pos].
  assert (Z.of_nat (List.length buf)
          = q + 2 + Z.of_nat (List.length ds) + Z.of_nat (List.length rest))
    as Hl.
  { subst buf q. rewrite length_app. cbn [List.length].
    rewrite length_app. lia. }
  set (l := Z.of_nat (List.length buf)) in *.
  assert (char_at buf q = chr "#") as Hc0 by apply char_at_middle.
  assert (char_at buf (q + 1) = chr d) as Hc1.
  { apply (char_at_split buf (pre ++ ["#"%byte]) d (ds ++ rest)).
    - subst buf. rewrite <- app_assoc. reflexivity.
    - subst q. rewrite length_app. cbn [List.length]. lia. }
  assert (buf = (pre ++ ["#"%byte; d]) ++ ds ++ rest) as Hbuf.
  { subst buf. rewrite <- app_assoc. reflexivity. }
  assert (q + 1 + 1 = Z.of_nat (List.length (pre ++ ["#"%byte; d]))) as Hq2.
  { subst q. rewrite length_app. cbn [List.length]. lia. }
  set (i := Z.to_nat (chr d - chr "0")) in *.
  assert (l <= q + 1 + 1 + Z.of_nat (List.length ds)
          \/ isdigit (char_at buf (q + 1 + 1 + Z.of_nat (List.length ds)))
             = false) as Hstop.
  { destruct rest as [|x rest]; [left; cbn [List.length] in Hl; lia|].
    right.
    rewrite (char_at_split buf (pre ++ "#"%byte :: d :: ds) x rest).
    - exact Hrest.
    - subst buf. rewrite <- app_assoc. reflexivity.
    - subst q. rewrite length_app. cbn [List.length]. lia. }
  assert (block_length_loop i 0 (mkState buf (q + 1 + 1) l)
          = ((Z.of_nat (i - List.length ds), decimal_value ds),
             mkState buf (q + 1 + 1 + Z.of_nat (List.length ds)) l))
    as Hloop.
  { clearbody buf. rewrite Hq2 in *. rewrite Hbuf in *.
    apply block_length_loop_short; [exact Hds|subst i; lia|lia|exact Hstop]. }
  unfold scpiLex_ArbitraryBlockProgramData, skipChr. wp_basic.
  apply wp_skip_one.
  - intros _ _. skips. wp_basic.
    assert ((l <=? q + 1) = false) as -> by (apply Z.leb_gt; lia).
    rewrite Hc1, Hnz. cbn [negb andb]. wp_basic. unfold wp at 1.
    fold i. rewrite Hloop. cbn [fst snd].
    assert ((Z.of_nat (i - List.length ds) =? 0) = false) as ->
      by (apply Z.eqb_neq; subst i; lia).
    wp_basic. destruct rest as [|x rest].
    + assert ((l <=? q + 1 + 1 + Z.of_nat (List.length ds)) = true) as ->
        by (apply Z.leb_le; cbn [List.length] in Hl; lia).
      wp_basic. zc. wp_basic. cbn [fst snd tok_len tok_ptr]. eq_done.
    + assert ((l <=? q + 1 + 1 + Z.of_nat (List.length ds)) = false) as ->
        by (apply Z.leb_gt; cbn [List.length] in Hl; lia).
      wp_basic. zc. wp_basic. cbn [fst snd tok_len tok_ptr]. eq_done.
  - intros [H|H]; [lia|]. rewrite Hc0, Z.eqb_refl in H. discriminate H.
Qed.

(** X9.  A block header that the buffer cuts short is incomplete, one that a
    wrong byte cuts short is invalid.  With fewer length digits than the
    first digit announces: if the buffer ends there, the answer is unknown
    with the cursor at the end of the buffer; if a byte that is no digit
    follows, the answer is unknown with the cursor back on the [#]. *)
Theorem arbitrary_block_header_cut_short token pre d ds :
  isNonzeroDigit (chr d) = true ->
  all_digits ds ->
  Z.of_nat (List.length ds) < chr d - chr "0" ->
  let q := Z.of_nat (List.length pre) in
  (let buf := pre ++ "#"%byte :: d :: ds in
   scpiLex_ArbitraryBlockProgramData token (lex_at buf q)
   = (mkToken SCPI_TOKEN_UNKNOWN q 0, 0,
      set_pos (lex_at buf q) (len (lex_at buf q))))
  /\ (forall x rest,
        isdigit (chr x) = false ->
        let buf := pre ++ "#"%byte :: d :: ds ++ x :: rest in
        scpiLex_ArbitraryBlockProgramData token (lex_at buf q)
        = (mkToken SCPI_TOKEN_UNKNOWN q 0, 0, lex_at buf q)).
Proof.
  intros Hnz Hds Hn q. split.
  - pose proof (arbitrary_block_short_header token pre d ds [] Hnz Hds Hn I)
      as E.
    cbv zeta in E. rewrite app_nil_r in E. exact E.
  - intros x rest Hx.
    exact (arbitrary_block_short_header token pre d ds (x :: rest)
             Hnz Hds Hn Hx).
Qed.

Lemma arbitrary_block_header_cut_short_witness :
  let q := Z.of_nat (List.length (bytes "x")) in
  (isNonzeroDigit (chr "3") = true /\ all_digits (bytes "12")
   /\ Z.of_nat (List.length (bytes "12")) < chr "3" - chr "0")
  /\ (let buf := bytes "x" ++ "#"%byte :: "3"%byte :: bytes "12" in
      scpiLex_ArbitraryBlockProgramData tok0 (lex_at buf q)
      = (mkToken SCPI_TOKEN_UNKNOWN q 0, 0,
         set_pos (lex_at buf q) (len (lex_at buf q))))
  /\ (forall x rest,
        isdigit (chr x) = false ->
        let buf := bytes "x" ++ "#"%byte :: "3"%byte :: bytes "12"
                     ++ x :: rest in
        scpiLex_ArbitraryBlockProgramData tok0 (lex_at buf q)
        = (mkToken SCPI_TOKEN_UNKNOWN q 0, 0, lex_at buf q)).
Proof.
  cbv zeta.
  assert (isNonzeroDigit (chr "3") = true) as H1 by reflexivity.
  assert (all_digits (bytes "12")) as H2 by (repeat constructor).
  assert (Z.of_nat (List.length (bytes "12")) < chr "3" - chr "0") as H3
    by (vm_compute; reflexivity).
  split; [repeat split; assumption|].
  exact (arbitrary_block_header_cut_short tok0 (bytes "x") "3"%byte
           (bytes "12") H1 H2 H3).
Defined.




Lemma skipExponent_advance buf q l x s :
  skipExponent (mkState buf q l) = (x, s) ->
  exists q1, s = mkState buf q1 l /\ 0 <= x /\ q + x <= q1.
Proof.
  intros E.
  apply (wp_run skipExponent (mkState buf q l)
           (fun x' s' => exists q1, s' = mkState buf q1 l
                                    /\ 0 <= x' /\ q + x' <= q1) x s);
    [|exact E].
  apply wp_skipExponent. intros x' q' H1 H2 _. exists q'.
  repeat split; assumption.
Qed.

(** X11.  The two other ways scpiLex_DecimalNumericProgramData ends.  With a
    mantissa of at least one digit and an exponent of at least one digit,
    the token runs from the cursor to the end of the exponent, the
    whitespace between them included.  With a mantissa without a digit, the
    answer is a no-match with the cursor where the call began, although a
    sign or a point may have been passed. *)
Theorem decimal_with_exponent_or_without_digits
  token st m st1 w st2 x st3 :
  skipMantissa st = (m, st1) ->
  skipWs st1 = (w, st2) ->
  skipExponent st2 = (x, st3) ->
  (m <> 0 -> x <> 0 ->
   scpiLex_DecimalNumericProgramData token st
   = (mkToken SCPI_TOKEN_DECIMAL_NUMERIC_PROGRAM_DATA (pos st)
        (pos st3 - pos st),
      pos st3 - pos st, st3)
   /\ pos st < pos st1 <= pos st2 /\ pos st2 < pos st3)
  /\ (m = 0 ->
      scpiLex_DecimalNumericProgramData token st
      = (mkToken SCPI_TOKEN_UNKNOWN (pos st) 0, 0, st)
      /\ pos st <= pos st1).
Proof.
  destruct st as [buf q l]. intros Em Ew Ex.
  destruct (skipMantissa_run buf q l m st1 Em) as (q1 & -> & Hm0 & Hq1).
  unfold skipWs in Ew.
  destruct (skip_while_run is_ws buf q1 l w st2 Ew) as (-> & Hw).
  destruct (skipExponent_advance buf (q1 + w) l x st3 Ex)
    as (q3 & -> & Hx0 & Hq3).
  cbn [pos]. split.
  - intros Hm Hx. split; [|lia].
    apply wp_eq. unfold scpiLex_DecimalNumericProgramData. wp_basic.
    eapply wp_of_eq; [exact Em|]. apply wp_bind. unfold truthy.
    assert ((m =? 0) = false) as -> by (apply Z.eqb_neq; exact Hm).
    cbn [negb]. wp_basic. eapply wp_of_eq; [exact Ew|].
    apply wp_bind. eapply wp_of_eq; [exact Ex|].
    assert ((x =? 0) = false) as -> by (apply Z.eqb_neq; exact Hx).
    cbn [negb]. wp_basic.
    apply wp_close_token; wp_simpl; intros; wp_basic; [reflexivity|lia].
  - intros ->. split; [|lia].
    apply wp_eq. unfold scpiLex_DecimalNumericProgramData. wp_basic.
    eapply wp_of_eq; [exact Em|]. apply wp_bind. unfold truthy.
    cbn [Z.eqb negb]. wp_basic.
    apply wp_close_token; wp_simpl; intros; wp_basic; [lia|].
    rewrite Z.sub_diag. reflexivity.
Qed.

Lemma decimal_with_exponent_or_without_digits_witness :
  let st := lex_at (bytes "-1 e 3,") 0 in
  (skipMantissa st = (1, set_pos st 2) /\ skipWs (set_pos st 2) = (1, set_pos st 3)
   /\ skipExponent (set_pos st 3) = (1, set_pos st 6) /\ 1 <> 0)
  /\ scpiLex_DecimalNumericProgramData tok0 st
     = (mkToken SCPI_TOKEN_DECIMAL_NUMERIC_PROGRAM_DATA (pos st)
          (pos (set_pos st 6) - pos st),
        pos (set_pos st 6) - pos st, set_pos st 6)
  /\ pos st < pos (set_pos st 2) <= pos (set_pos st 3)
  /\ pos (set_pos st 3) < pos (set_pos st 6).
Proof.
  cbv zeta.
  set (st := lex_at (bytes "-1 e 3,") 0).
  assert (skipMantissa st = (1, set_pos st 2)) as H1
    by (vm_compute; reflexivity).
  assert (skipWs (set_pos st 2) = (1, set_pos st 3)) as H2
    by (vm_compute; reflexivity).
  assert (skipExponent (set_pos st 3) = (1, set_pos st 6)) as H3
    by (vm_compute; reflexivity).
  assert (1 <> 0) as H4 by discriminate.
  split; [exact (conj H1 (conj H2 (conj H3 H4)))|].
  exact (proj1 (decimal_with_exponent_or_without_digits tok0 st 1 _ 1 _ 1 _
                  H1 H2 H3) H4 H4).
Defined.

Lemma wp_and {A} (m : Lex A) st (Q1 Q2 : A -> lex_state_t -> Prop) :
  wp m st Q1 -> wp m st Q2 -> wp m st (fun a s => Q1 a s /\ Q2 a s).
Proof. unfold wp. intros H1 H2. split; assumption. Qed.

Lemma skipCompound_none_iff buf q l :
  wp skipCompoundProgramHeader (mkState buf q l)
     (fun r _ => r = SKIP_NONE <-> header_cannot_start_compound buf q l).
Proof.
  unfold header_cannot_start_compound.
  assert (forall fuel q1 (P : Prop), ~ P ->
            wp (compound_loop fuel) (mkState buf q1 l)
               (fun r _ => r = SKIP_NONE <-> P)) as Hloop.
  { intros fuel q1 P HP. apply wp_compound_loop.
    intros r q' _ _ [->|(-> & _)]; split; intros H;
      try discriminate H; contradiction. }
  unfold skipCompoundProgramHeader, skipColon.
  apply wp_bind. apply wp_skip_one.
  - intros Hq Hc. apply Z.eqb_eq in Hc.
    assert (~ (l <= q \/ (char_at buf q <> chr ":"
                          /\ isalpha (char_at buf q) = false))) as Hno.
    { intros [H|(H & _)]; [lia|contradiction]. }
    apply wp_bind. apply wp_skipProgramMnemonic.
    intros k Hk Hb H0 H1 Ha. unfold SKIP_INCOMPLETE, SKIP_NONE, SKIP_OK.
    destruct (Z.eq_dec k 0) as [->|Hne].
    + rewrite Z.add_0_r in *.
      assert ((1 <=? (if l <=? q + 1 then - 0 else 0)) = false) as ->
        by (destruct (l <=? q + 1); reflexivity).
      assert (((if l <=? q + 1 then - 0 else 0) <=? -1) = false) as ->
        by (destruct (l <=? q + 1); reflexivity).
      cbn [truthy Z.eqb negb]. wp_basic.
      split; intros H; [discriminate H|contradiction].
    + destruct (l <=? q + 1 + k) eqn:E.
      * assert ((1 <=? - k) = false) as -> by (apply Z.leb_gt; lia).
        assert ((- k <=? -1) = true) as -> by (apply Z.leb_le; lia).
        wp_basic. split; intros H; [discriminate H|contradiction].
      * assert ((1 <=? k) = true) as -> by (apply Z.leb_le; lia).
        apply wp_fun. apply (Hloop _ _ _ Hno).
  - intros Hn. apply wp_bind. apply wp_skipProgramMnemonic.
    intros k Hk Hb H0 H1 Ha. unfold SKIP_INCOMPLETE, SKIP_NONE, SKIP_OK.
    destruct (Z.eq_dec k 0) as [->|Hne].
    + rewrite Z.add_0_r in *.
      assert ((1 <=? (if l <=? q then - 0 else 0)) = false) as ->
        by (destruct (l <=? q); reflexivity).
      assert (((if l <=? q then - 0 else 0) <=? -1) = false) as ->
        by (destruct (l <=? q); reflexivity).
      cbn [truthy Z.eqb negb]. wp_basic.
      split; [intros _|reflexivity].
      destruct Hn as [Hn|Hn]; [left; exact Hn|].
      destruct (H0 eq_refl) as [H|H]; [left; exact H|].
      right. split; [apply Z.eqb_neq; exact Hn|exact H].
    + assert (0 < k) as Hpos by lia. destruct (H1 Hpos) as (Halpha & _).
      assert (~ (l <= q \/ (char_at buf q <> chr ":"
                            /\ isalpha (char_at buf q) = false))) as Hno.
      { intros [H|(_ & H)]; [lia|]. rewrite H in Halpha. discriminate Halpha. }
      destruct (l <=? q + k) eqn:E.
      * assert ((1 <=? - k) = false) as -> by (apply Z.leb_gt; lia).
        assert ((- k <=? -1) = true) as -> by (apply Z.leb_le; lia).
        wp_basic. split; intros H; [discriminate H|contradiction].
      * assert ((1 <=? k) = true) as -> by (apply Z.leb_le; lia).
        apply wp_fun. apply (Hloop _ _ _ Hno).
Qed.

Lemma wp_skipCompound_full buf q l (Q : Z -> lex_state_t -> Prop) :
  (forall r q', q <= q' -> (q' = q \/ q' <= l) ->
     (r = SKIP_NONE /\ q' = q /\ header_cannot_start_compound buf q l)
     \/ ((r = SKIP_OK \/ r = SKIP_INCOMPLETE) /\ q < q'
         /\ ~ header_cannot_start_compound buf q l) ->
     Q r (mkState buf q' l)) ->
  wp skipCompoundProgramHeader (mkState buf q l) Q.
Proof.
  intros H.
  apply (wp_conseq skipCompoundProgramHeader (mkState buf q l)
           (fun r s =>
              (exists q', s = mkState buf q' l /\ q <= q'
                          /\ (q' = q \/ q' <= l)
                          /\ ((r = SKIP_NONE /\ q' = q)
                              \/ ((r = SKIP_OK \/ r = SKIP_INCOMPLETE)
                                  /\ q < q')))
              /\ (r = SKIP_NONE <-> header_cannot_start_compound buf q l))).
  - apply wp_and; [|apply skipCompound_none_iff].
    apply wp_skipCompoundProgramHeader.
    intros r q' Hq' Hb Hr. exists q'. split; [reflexivity|].
    split; [exact Hq'|]. split; [exact Hb|].
    destruct Hr as [(-> & ->)|[(-> & Hlt)|(-> & Hlt & _)]].
    + left. split; reflexivity.
    + right. split; [left; reflexivity|exact Hlt].
    + right. split; [right; reflexivity|exact Hlt].
  - intros r s ((q' & -> & Hq' & Hb & Hr) & Hiff).
    apply H; [exact Hq'|exact Hb|].
    destruct Hr as [(-> & ->)|(Hr & Hlt)].
    + left. split; [reflexivity|]. split; [reflexivity|].
      apply Hiff. reflexivity.
    + right. split; [exact Hr|]. split; [exact Hlt|].
      intros Hc. apply Hiff in Hc.
      destruct Hr as [Hr|Hr]; rewrite Hr in Hc; discriminate Hc.
Qed.

Ltac marks_intro q' :=
  cbn [fst snd]; unfold header_marks;
  exists q'; cbn [tok_type tok_ptr tok_len];
  split; [reflexivity|].

Ltac marks_absurd :=
  match goal with
  | H : _ \/ _ |- _ => destruct H as [H|H]; discriminate H
  | H : _ = _ |- _ => discriminate H
  end.

Lemma scpiLex_ProgramHeader_marks token buf q l :
  wp (scpiLex_ProgramHeader token) (mkState buf q l)
     (fun r s => header_marks buf q l (fst r) s).
Proof.
  unfold scpiLex_ProgramHeader. wp_basic.
  apply wp_skipCommonProgramHeader.
  - intros Hns. skips. apply wp_bind. apply wp_bind.
    apply wp_skipCompound_full.
    intros r q' Hq' Hb [(-> & -> & Hc)|(Hr & Hlt & Hc)].
    + skips. wp_basic. cbn [is_unknown token_type_eqb tok_type negb].
      wp_basic. marks_intro q. split; [|split; intros H; marks_absurd].
      split; [intros _; split; assumption|reflexivity].
    + assert (q' <= l) as Hl' by lia.
      destruct Hr as [->| ->]; skips.
      * apply wp_bind. unfold skipChr. apply wp_skip_one.
        -- intros Hl Hq. apply Z.eqb_eq in Hq. skips. wp_basic.
           cbn [is_unknown token_type_eqb tok_type negb]. wp_basic.
           marks_intro (q' + 1). split; [|split].
           ++ split; [intros H; discriminate H|intros (_ & H); contradiction].
           ++ intros _. split; [lia|]. split; [lia|].
              replace (q' + 1 - 1) with q' by lia. exact Hq.
           ++ intros H; marks_absurd.
        -- intros Hn. skips. wp_basic.
           cbn [is_unknown token_type_eqb tok_type negb]. wp_basic.
           marks_intro q'. split; [|split].
           ++ split; [intros H; discriminate H|intros (_ & H); contradiction].
           ++ intros H; marks_absurd.
           ++ intros _. destruct Hn as [Hn|Hn]; [left; exact Hn|right].
              apply Z.eqb_neq. exact Hn.
      * wp_basic. cbn [is_unknown token_type_eqb tok_type negb]. wp_basic.
        marks_intro q'. split; [|split; intros H; marks_absurd].
        split; [intros H; discriminate H|intros (_ & H); contradiction].
  - intros Hl Hc Hm. skips. wp_basic.
    cbn [is_unknown token_type_eqb tok_type negb]. wp_basic.
    marks_intro (q + 1). split; [|split; intros H; marks_absurd].
    split; [intros H; discriminate H|].
    intros ([H|H] & _); [lia|contradiction].
  - intros k Hl Hc Hk Hb Ha Hs Hall. skips. apply wp_bind. apply wp_bind.
    unfold skipChr. apply wp_skip_one.
    + intros Hl' Hq. apply Z.eqb_eq in Hq. skips. wp_basic.
      cbn [is_unknown token_type_eqb tok_type negb]. wp_basic.
      marks_intro (q + 1 + k + 1). split; [|split].
      * split; [intros H; discriminate H|].
        intros ([H|H] & _); [lia|contradiction].
      * intros _. split; [lia|]. split; [lia|].
        replace (q + 1 + k + 1 - 1) with (q + 1 + k) by lia. exact Hq.
      * intros H; marks_absurd.
    + intros Hn. skips. wp_basic.
      cbn [is_unknown token_type_eqb tok_type negb]. wp_basic.
      marks_intro (q + 1 + k). split; [|split].
      * split; [intros H; discriminate H|].
        intros ([H|H] & _); [lia|contradiction].
      * intros H; marks_absurd.
      * intros _. destruct Hn as [Hn|Hn]; [left; exact Hn|right].
        apply Z.eqb_neq. exact Hn.
Qed.

(** X12.  scpiLex_ProgramHeader answers no-match exactly when the buffer has ended
    or the byte at the cursor is none of [*], [:] and a letter; in every
    other case it reports one of the six header classifications and never
    any other token type. *)
Theorem program_header_decided_by_first_byte token st tok n st' :
  scpiLex_ProgramHeader token st = (tok, n, st') ->
  (tok_type tok = SCPI_TOKEN_UNKNOWN
   <-> is_eos st = true
       \/ (cur st <> chr "*" /\ cur st <> chr ":"
           /\ isalpha (cur st) = false))
  /\ In (tok_type tok)
       [SCPI_TOKEN_UNKNOWN;
        SCPI_TOKEN_COMMON_PROGRAM_HEADER;
        SCPI_TOKEN_COMMON_QUERY_PROGRAM_HEADER;
        SCPI_TOKEN_INCOMPLETE_COMMON_PROGRAM_HEADER;
        SCPI_TOKEN_COMPOUND_PROGRAM_HEADER;
        SCPI_TOKEN_COMPOUND_QUERY_PROGRAM_HEADER;
        SCPI_TOKEN_INCOMPLETE_COMPOUND_PROGRAM_HEADER].
Proof.
  destruct st as [buf q l]. intros E.
  pose proof (wp_run _ _ _ _ _ (scpiLex_ProgramHeader_marks token buf q l) E)
    as (q' & _ & Hiff & _).
  pose proof (wp_run _ _ _ _ _ (scpiLex_ProgramHeader_spec token buf q l) E)
    as (q2 & _ & _ & _ & _ & _ & _ & Hcls).
  cbn [fst snd] in *. unfold is_eos, cur. cbn [pos len buffer].
  fold (char_at buf q). split.
  - rewrite Hiff. unfold no_star, header_cannot_start_compound. split.
    + intros ([H1|H1] & [H2|(H2 & H3)]);
        try (left; apply Z.leb_le; assumption).
      right. split; [exact H1|]. split; assumption.
    + intros [H|(H1 & H2 & H3)].
      * apply Z.leb_le in H. split; left; exact H.
      * split; right; [exact H1|]. split; assumption.
  - cbn [In].
    destruct Hcls as [(H & _)|[(H & _)|[([H|H] & _)|[([H|H] & _)|(H & _)]]]];
      rewrite H; tauto.
Qed.

Lemma program_header_decided_by_first_byte_witness :
  let st := lex_at (bytes "1:A") 0 in
  scpiLex_ProgramHeader tok0 st
  = (mkToken SCPI_TOKEN_UNKNOWN 0 0, 0, st)
  /\ (SCPI_TOKEN_UNKNOWN = SCPI_TOKEN_UNKNOWN
      <-> is_eos st = true
          \/ (cur st <> chr "*" /\ cur st <> chr ":"
              /\ isalpha (cur st) = false)).
Proof.
  cbv zeta. set (st := lex_at (bytes "1:A") 0).
  assert (scpiLex_ProgramHeader tok0 st
          = (mkToken SCPI_TOKEN_UNKNOWN 0 0, 0, st)) as E
    by (vm_compute; reflexivity).
  split; [exact E|].
  exact (proj1 (program_header_decided_by_first_byte tok0 st _ _ _ E)).
Defined.

(** X13.  The question mark of a query header.  A header is classified as a query
    exactly by a [?] directly behind its last mnemonic, and that [?] is the
    last byte of the token; a header classified as a plain common or
    compound header is followed by the end of the buffer or by a byte other
    than [?]. *)
Theorem program_header_query_mark token st tok n st' :
  scpiLex_ProgramHeader token st = (tok, n, st') ->
  (tok_type tok = SCPI_TOKEN_COMMON_QUERY_PROGRAM_HEADER
   \/ tok_type tok = SCPI_TOKEN_COMPOUND_QUERY_PROGRAM_HEADER ->
   2 <= tok_len tok
   /\ char_at (buffer st) (tok_ptr tok + tok_len tok - 1) = chr "?"
   /\ pos st' = tok_ptr tok + tok_len tok /\ pos st' <= len st)
  /\ (tok_type tok = SCPI_TOKEN_COMMON_PROGRAM_HEADER
      \/ tok_type tok = SCPI_TOKEN_COMPOUND_PROGRAM_HEADER ->
      is_eos st' = true \/ cur st' <> chr "?").
Proof.
  destruct st as [buf q l]. intros E.
  pose proof (wp_run _ _ _ _ _ (scpiLex_ProgramHeader_marks token buf q l) E)
    as (q' & -> & _ & Hq & Hp).
  pose proof (wp_run _ _ _ _ _ (scpiLex_ProgramHeader_spec token buf q l) E)
    as (q2 & Hs & _ & _ & Hptr & Hlen & _ & _).
  injection Hs as <-.
  cbn [fst snd] in *. unfold is_eos, cur. cbn [pos len buffer].
  fold (char_at buf q'). split.
  - intros H. destruct (Hq H) as (H1 & H2 & H3). rewrite Hptr, Hlen.
    replace (q + (q' - q) - 1) with (q' - 1) by lia.
    split; [lia|]. split; [exact H3|]. split; lia.
  - intros H. destruct (Hp H) as [H1|H1]; [left|right; exact H1].
    apply Z.leb_le. exact H1.
Qed.

Lemma program_header_query_mark_witness :
  let st := lex_at (bytes ":SYST:ERR? 1") 0 in
  scpiLex_ProgramHeader tok0 st
  = (mkToken SCPI_TOKEN_COMPOUND_QUERY_PROGRAM_HEADER 0 10, 10, set_pos st 10)
  /\ 2 <= 10
  /\ char_at (buffer st) (0 + 10 - 1) = chr "?"
  /\ pos (set_pos st 10) = 0 + 10 /\ pos (set_pos st 10) <= len st.
Proof.
  cbv zeta. set (st := lex_at (bytes ":SYST:ERR? 1") 0).
  assert (scpiLex_ProgramHeader tok0 st
          = (mkToken SCPI_TOKEN_COMPOUND_QUERY_PROGRAM_HEADER 0 10, 10,
             set_pos st 10)) as E
    by (vm_compute; reflexivity).
  split; [exact E|].
  exact (proj1 (program_header_query_mark tok0 st _ _ _ E)
           (or_intror eq_refl)).
Defined.

Ltac adv_done :=
  cbn [fst snd]; unfold advances; cbn [tok_type tok_ptr tok_len pos];
  intros Hty;
  first [ discriminate Hty
        | exfalso; apply Hty; reflexivity
        | left; lia
        | contradiction ].

Ltac adv_close :=
  apply wp_bind; apply wp_close_token; wp_simpl; intros; wp_basic; adv_done.

Lemma advances_WhiteSpace token buf q l :
  wp (scpiLex_WhiteSpace token) (mkState buf q l)
     (fun r s => advances WhiteSpace token (mkState buf q l) (fst r) s).
Proof.
  unfold scpiLex_WhiteSpace, skipWs. wp_basic.
  apply wp_skip_while. intros k ? ? ? ?. adv_close.
Qed.

Lemma advances_ProgramHeader token buf q l :
  wp (scpiLex_ProgramHeader token) (mkState buf q l)
     (fun r s => advances ProgramHeader token (mkState buf q l) (fst r) s).
Proof.
  eapply wp_conseq; [apply scpiLex_ProgramHeader_spec|].
  intros [tok n] s (q' & -> & Hq & Hb & Hp & Hl & Hn & Hc). cbn [fst snd] in *.
  intros Hty. left. cbn [pos].
  destruct Hc as [(E & _)|[(_ & _ & _ & -> & _)|[(_ & _ & _ & H & _)
                 |[(_ & _ & H)|(_ & _ & H & _)]]]]; try lia.
  contradiction.
Qed.

Lemma advances_CharacterProgramData token buf q l :
  wp (scpiLex_CharacterProgramData token) (mkState buf q l)
     (fun r s => advances CharacterProgramData token (mkState buf q l) (fst r) s).
Proof.
  unfold scpiLex_CharacterProgramData. wp_basic.
  apply wp_walk_mnemonic. intros k ? ? ? ? ?. adv_close.
Qed.

Lemma advances_DecimalNumericProgramData token buf q l :
  wp (scpiLex_DecimalNumericProgramData token) (mkState buf q l)
     (fun r s => advances DecimalNumericProgramData token (mkState buf q l) (fst r) s).
Proof.
  unfold scpiLex_DecimalNumericProgramData, skipWs. wp_basic.
  apply wp_skipMantissa. intros m q1 ? ? ?. apply wp_bind.
  unfold truthy. destruct (m =? 0); cbn [negb].
  - wp_basic.
    apply wp_close_token; wp_simpl; intros; wp_basic; adv_done.
  - wp_basic. apply wp_skip_while. intros w ? ? ? ?.
    apply wp_bind. apply wp_skipExponent. intros x q3 ? ? ?.
    destruct (x =? 0); cbn [negb]; wp_basic;
      (apply wp_close_token; wp_simpl; intros; wp_basic; adv_done).
Qed.

Lemma advances_SuffixProgramData token buf q l :
  wp (scpiLex_SuffixProgramData token) (mkState buf q l)
     (fun r s => advances SuffixProgramData token (mkState buf q l) (fst r) s).
Proof.
  unfold scpiLex_SuffixProgramData, skipChr, skipAlpha, skipDigit. wp_basic.
  assert (forall q1,
    wp (token0 <- close_token (mkToken (tok_type token) q (tok_len token))
                    SCPI_TOKEN_SUFFIX_PROGRAM_DATA true ;;
        ret (token0, tok_len token0)) (mkState buf q1 l)
       (fun r s => advances SuffixProgramData token (mkState buf q l) (fst r) s))
    as Hclose.
  { intros q1. adv_close. }
  assert (forall q1,
    wp (a <- skip_while isalpha ;;
        (if truthy a then
           skip_one (fun x => x =? chr "-") ;;; skip_one isdigit ;;;
           (fun st => suffix_loop (remaining st) st)
         else ret tt) ;;;
        token0 <- close_token (mkToken (tok_type token) q (tok_len token))
                    SCPI_TOKEN_SUFFIX_PROGRAM_DATA true ;;
        ret (token0, tok_len token0)) (mkState buf q1 l)
       (fun r s => advances SuffixProgramData token (mkState buf q l) (fst r) s))
    as Hrest.
  { intros q1. apply wp_bind. apply wp_skip_while. intros a ? ? ? ?.
    apply wp_bind. unfold truthy. destruct (a =? 0); cbn [negb].
    - apply wp_ret. apply Hclose.
    - apply wp_bind. apply wp_skip_one; intros;
        (apply wp_bind; apply wp_skip_one; intros;
         apply wp_suffix_loop_run; intros; apply Hclose). }
  apply wp_skip_one; intros; apply Hrest.
Qed.

Lemma advances_single_char c ty d token buf q l :
  wp (single_char_token c ty token) (mkState buf q l)
     (fun r s => advances d token (mkState buf q l) (fst r) s).
Proof.
  unfold single_char_token, skipChr. wp_basic.
  apply wp_skip_one; intros; skips; wp_basic; adv_done.
Qed.

Lemma advances_NewLine token buf q l :
  wp (scpiLex_NewLine token) (mkState buf q l)
     (fun r s => advances NewLine token (mkState buf q l) (fst r) s).
Proof.
  unfold scpiLex_NewLine, skipChr. wp_basic.
  apply wp_skip_one; intros;
    (apply wp_bind; apply wp_skip_one; intros; adv_close).
Qed.

Lemma advances_NondecimalNumericData token buf q l :
  wp (scpiLex_NondecimalNumericData token) (mkState buf q l)
     (fun r s => advances NondecimalNumericData token (mkState buf q l) (fst r) s).
Proof.
  eapply wp_conseq; [apply scpiLex_NondecimalNumericData_spec|].
  intros [tok n] s (q' & -> & Hc). cbn [fst snd] in *.
  intros Hty. left. cbn [pos].
  destruct Hc as [(Ety & _)|(letter & digit & _ & _ & _ & _ & _ & Hlen & Hpos & _)];
    [contradiction|lia].
Qed.

Lemma advances_StringProgramData token buf q l :
  wp (scpiLex_StringProgramData token) (mkState buf q l)
     (fun r s => advances StringProgramData token (mkState buf q l) (fst r) s).
Proof.
  eapply wp_conseq; [apply scpiLex_StringProgramData_spec|].
  intros [tok n] s (q' & -> & Hp & Hc). cbn [fst snd] in *.
  intros Hty. left. cbn [pos].
  destruct Hc as [(Ety & _)|(quote & b & _ & _ & _ & _ & Hb & _ & -> & _)];
    [contradiction|lia].
Qed.

Lemma advances_ArbitraryBlockProgramData token buf q l :
  wp (scpiLex_ArbitraryBlockProgramData token) (mkState buf q l)
     (fun r s => advances ArbitraryBlockProgramData token (mkState buf q l) (fst r) s).
Proof.
  unfold scpiLex_ArbitraryBlockProgramData, skipChr. wp_basic.
  apply wp_skip_one.
  - intros Hl Hc. apply Z.eqb_eq in Hc. skips. wp_basic.
    destruct (l <=? q + 1) eqn:E; cbn [negb andb];
      [|destruct (isNonzeroDigit (char_at buf (q + 1))) eqn:D].
    + wp_basic. rewrite E. wp_basic. zc. wp_basic. adv_done.
    + apply Z.leb_gt in E. wp_basic.
      unfold wp at 1.
      destruct (block_length_loop_range
                  (Z.to_nat (char_at buf (q + 1) - chr "0")) 0 buf (q + 1 + 1) l)
        as (k & acc & -> & Hk & Hb & Hacc); [lia|].
      cbn [fst snd].
      destruct (Z.of_nat (Z.to_nat (char_at buf (q + 1) - chr "0")) - k =? 0).
      * wp_basic.
        destruct (q + 1 + 1 + k + acc <=? l) eqn:F; wp_basic; zc; wp_basic;
          adv_done.
      * wp_basic. destruct (l <=? q + 1 + 1 + k) eqn:F; wp_basic; zc; wp_basic;
          adv_done.
    + wp_basic. assert ((l <=? q + 1) = false) as -> by exact E.
      wp_basic. zc. wp_basic. adv_done.
  - intros Hn. skips. wp_basic. zc. wp_basic. adv_done.
Qed.

Lemma advances_ProgramExpression token buf q l :
  wp (scpiLex_ProgramExpression token) (mkState buf q l)
     (fun r s => advances ProgramExpression token (mkState buf q l) (fst r) s).
Proof.
  unfold scpiLex_ProgramExpression, skipProgramExpression. wp_basic.
  destruct (l <=? q) eqn:E; cbn [negb andb];
    [|destruct (char_at buf q =? chr "(") eqn:C].
  - apply Z.leb_le in E. wp_basic.
    destruct (0 <? tok_len token) eqn:L; wp_basic.
    + apply Z.ltb_lt in L. intros _. right.
      split; [reflexivity|]. split; [exact L|]. left.
      apply Z.leb_le. exact E.
    + adv_done.
  - apply Z.leb_gt in E. wp_basic. apply wp_skip_while. intros k ? ? ? ?.
    wp_basic.
    destruct (l <=? q + 1 + k) eqn:F; cbn [negb andb];
      [|destruct (char_at buf (q + 1 + k) =? chr ")")].
    + wp_basic. zc. wp_basic. adv_done.
    + apply Z.leb_gt in F. wp_basic.
      assert ((0 <? q + 1 + k + 1 - q) = true) as -> by (apply Z.ltb_lt; lia).
      wp_basic. adv_done.
    + wp_basic. zc. wp_basic. adv_done.
  - apply Z.eqb_neq in C. wp_basic.
    destruct (0 <? tok_len token) eqn:L; wp_basic.
    + apply Z.ltb_lt in L. intros _. right.
      split; [reflexivity|]. split; [exact L|]. right. exact C.
    + adv_done.
Qed.

Lemma detect_advances d token st tok n st' :
  detect d token st = (tok, n, st') -> advances d token st tok st'.
Proof.
  destruct st as [buf q l]. intros E.
  apply (wp_run (detect d token) (mkState buf q l)
           (fun r s => advances d token (mkState buf q l) (fst r) s) (tok, n) st');
    [|exact E].
  destruct d; cbn [detect].
  - apply advances_WhiteSpace.
  - apply advances_ProgramHeader.
  - apply advances_CharacterProgramData.
  - apply advances_DecimalNumericProgramData.
  - apply advances_SuffixProgramData.
  - apply advances_NondecimalNumericData.
  - apply advances_StringProgramData.
  - apply advances_ArbitraryBlockProgramData.
  - apply advances_ProgramExpression.
  - apply advances_single_char.
  - apply advances_single_char.
  - apply advances_single_char.
  - apply advances_single_char.
  - apply advances_NewLine.
Qed.

(** X14.  Every match makes progress.  Whichever detector reports a match, the
    value it returns is positive, the cursor has moved forward by exactly
    that many bytes and is still inside the buffer; so a caller that loops
    over matches terminates.  For the expression detector this needs a [(]
    at the cursor or an incoming token length that is not positive. *)
Theorem match_moves_cursor_forward d token st tok n st' :
  detect d token st = (tok, n, st') ->
  tok_type tok <> SCPI_TOKEN_UNKNOWN ->
  len_is_written d token st ->
  0 < n /\ pos st' = pos st + n /\ pos st' <= len st.
Proof.
  intros E Hty Hexpr.
  pose proof (detect_advances d token st tok n st' E Hty) as Hadv.
  destruct (detect_frame_run d token st tok n st' E)
    as (q' & -> & Hq & Hb & _ & Hm).
  cbn [pos] in *.
  assert (pos st < q') as Hlt.
  { destruct Hadv as [Hlt|(Hd & Hl & Hc)]; [exact Hlt|].
    exfalso. destruct (Hexpr Hd) as [Hle|(He & Hp)]; [lia|].
    destruct Hc as [Hc|Hc]; [rewrite Hc in He; discriminate He|].
    apply Hc. exact Hp. }
  destruct (Hm Hty) as [(_ & _ & _ & Hn)|(_ & _ & _ & Hn & _)]; lia.
Qed.

Lemma match_moves_cursor_forward_witness :
  let st := lex_at (bytes "#10,") 0 in
  (detect ArbitraryBlockProgramData tok0 st
   = (mkToken SCPI_TOKEN_ARBITRARY_BLOCK_PROGRAM_DATA 3 0, 3, set_pos st 3)
   /\ SCPI_TOKEN_ARBITRARY_BLOCK_PROGRAM_DATA <> SCPI_TOKEN_UNKNOWN
   /\ len_is_written ArbitraryBlockProgramData tok0 st)
  /\ 0 < 3 /\ pos (set_pos st 3) = pos st + 3 /\ pos (set_pos st 3) <= len st.
Proof.
  cbv zeta. set (st := lex_at (bytes "#10,") 0).
  assert (detect ArbitraryBlockProgramData tok0 st
          = (mkToken SCPI_TOKEN_ARBITRARY_BLOCK_PROGRAM_DATA 3 0, 3,
             set_pos st 3)) as E
    by (vm_compute; reflexivity).
  assert (SCPI_TOKEN_ARBITRARY_BLOCK_PROGRAM_DATA <> SCPI_TOKEN_UNKNOWN) as Hty
    by discriminate.
  assert (len_is_written ArbitraryBlockProgramData tok0 st) as Hw
    by (intros H; discriminate H).
  split; [exact (conj E (conj Hty Hw))|].
  exact (match_moves_cursor_forward ArbitraryBlockProgramData tok0 st _ _ _
           E Hty Hw).
Defined.

Lemma detect_at_end d token buf q l :
  l <= q ->
  (d = ProgramExpression -> tok_len token <= 0) ->
  detect d token (mkState buf q l)
  = (mkToken SCPI_TOKEN_UNKNOWN q 0, 0, mkState buf q l).
Proof.
  intros He Hexpr.
  destruct (detect d token (mkState buf q l)) as [[tok n] st'] eqn:E.
  pose proof (detect_advances d token _ tok n st' E) as Hadv.
  destruct (detect_frame_run d token _ tok n st' E)
    as (q' & -> & Hq & Hb & Hu & _).
  cbn [buffer pos len] in *.
  assert (q' = q) as -> by lia.
  destruct (token_type_eqb (tok_type tok) SCPI_TOKEN_UNKNOWN) eqn:T.
  - apply token_type_eqb_eq in T.
    destruct (Hu T) as (Hlen & -> & Hptr & _).
    destruct tok as [ty p k]. cbn [tok_type tok_ptr tok_len] in *.
    subst ty p k. reflexivity.
  - exfalso.
    assert (tok_type tok <> SCPI_TOKEN_UNKNOWN) as Hty.
    { intros H. apply token_type_eqb_eq in H. rewrite H in T. discriminate T. }
    destruct (Hadv Hty) as [Hlt|(Hd & Hl & _)].
    + cbn [pos] in Hlt. lia.
    + specialize (Hexpr Hd). lia.
Qed.

Lemma expression_at_end token buf q l :
  l <= q -> 0 < tok_len token ->
  scpiLex_ProgramExpression token (mkState buf q l)
  = (mkToken SCPI_TOKEN_PROGRAM_EXPRESSION q (tok_len token), tok_len token,
     mkState buf q l).
Proof.
  intros He Hl. apply wp_eq.
  unfold scpiLex_ProgramExpression. wp_basic.
  assert ((l <=? q) = true) as -> by (apply Z.leb_le; exact He).
  cbn [negb andb]. wp_basic.
  assert ((0 <? tok_len token) = true) as -> by (apply Z.ltb_lt; exact Hl).
  wp_basic. reflexivity.
Qed.

(** X15.  At the end of the buffer, the empty buffer included, every detector
    answers no-match: the token is unknown and empty at the cursor, the
    returned value is 0 and the state is unchanged.  For the expression
    detector this needs an incoming token length that is not positive. *)
Theorem no_match_at_end_of_buffer d token st :
  is_eos st = true ->
  (d = ProgramExpression -> tok_len token <= 0) ->
  detect d token st = (mkToken SCPI_TOKEN_UNKNOWN (pos st) 0, 0, st).
Proof.
  destruct st as [buf q l]. unfold is_eos. cbn [pos len].
  intros He Hexpr. apply detect_at_end; [|exact Hexpr].
  apply Z.leb_le. exact He.
Qed.

Lemma no_match_at_end_of_buffer_witness :
  let st := lex_at (bytes "12") 2 in
  is_eos st = true
  /\ detect DecimalNumericProgramData tok0 st
     = (mkToken SCPI_TOKEN_UNKNOWN (pos st) 0, 0, st).
Proof.
  cbv zeta. set (st := lex_at (bytes "12") 2).
  assert (is_eos st = true) as He by reflexivity.
  split; [exact He|].
  apply (no_match_at_end_of_buffer DecimalNumericProgramData tok0 st He).
  intros H. discriminate H.
Defined.

(** ** The bytes beyond [len] are never read *)

Lemma same_window_eos st st' : same_window st st' -> is_eos st' = is_eos st.
Proof. intros (Hp & Hl & _). unfold is_eos. rewrite Hp, Hl. reflexivity. Qed.

Lemma same_window_cur st st' :
  same_window st st' -> is_eos st = false -> cur st' = cur st.
Proof.
  intros (Hp & Hl & Hb) He. unfold is_eos in He. apply Z.leb_gt in He.
  unfold cur. rewrite Hp. apply (Hb (pos st)). exact He.
Qed.

Lemma same_window_remaining st st' :
  same_window st st' -> remaining st' = remaining st.
Proof. intros (Hp & Hl & _). unfold remaining. rewrite Hp, Hl. reflexivity. Qed.

Lemma same_window_set_pos st st' p :
  same_window st st' -> same_window (set_pos st p) (set_pos st' p).
Proof.
  intros (Hp & Hl & Hb). unfold same_window, set_pos. cbn [pos len buffer].
  split; [reflexivity|]. split; assumption.
Qed.

Lemma same_window_advance st st' :
  same_window st st' -> same_window (advance st) (advance st').
Proof.
  intros H. unfold advance. destruct H as (Hp & Hl & Hb). rewrite Hp.
  apply same_window_set_pos. split; [exact Hp|]. split; assumption.
Qed.

Lemma respects_ret {A} (a : A) : respects (ret a).
Proof. intros st st' H. split; [reflexivity|exact H]. Qed.

Lemma respects_bind {A B} (m : Lex A) (k : A -> Lex B) :
  respects m -> (forall a, respects (k a)) -> respects (bind m k).
Proof.
  intros Hm Hk st st' H. unfold bind.
  destruct (Hm st st' H) as [Ha Hs].
  destruct (m st) as [a s], (m st') as [a' s']. cbn [fst snd] in *.
  subst a'. apply Hk. exact Hs.
Qed.

Lemma respects_get_pos : respects get_pos.
Proof.
  intros st st' H. split; [|exact H]. destruct H as (Hp & _). exact Hp.
Qed.

Lemma respects_put_pos p : respects (put_pos p).
Proof.
  intros st st' H. split; [reflexivity|]. apply same_window_set_pos, H.
Qed.

Lemma respects_step : respects step.
Proof.
  intros st st' H. split; [reflexivity|]. apply same_window_advance, H.
Qed.

Lemma respects_at_eos : respects at_eos.
Proof.
  intros st st' H. split; [|exact H]. apply same_window_eos, H.
Qed.

Lemma respects_end_pos : respects end_pos.
Proof.
  intros st st' H. split; [|exact H]. destruct H as (_ & Hl & _). exact Hl.
Qed.

(** The byte at the cursor is fetched together with the end test, and is
    used only when the test says that the buffer has not ended. *)
Lemma respects_guarded_peek {A} (F : bool -> Z -> Lex A) :
  (forall c c', F true c = F true c') ->
  (forall e c, respects (F e c)) ->
  respects (e <- at_eos ;; c <- peek ;; F e c).
Proof.
  intros Hirr HF st st' H. unfold bind, at_eos, peek.
  rewrite (same_window_eos st st' H).
  destruct (is_eos st) eqn:E.
  - rewrite (Hirr (cur st') (cur st)). apply HF. exact H.
  - rewrite (same_window_cur st st' H E). apply HF. exact H.
Qed.

Lemma respects_skip_one p : respects (skip_one p).
Proof.
  intros st st' H. unfold skip_one.
  rewrite (same_window_eos st st' H).
  destruct (is_eos st) eqn:E; cbn [negb andb].
  - split; [reflexivity|exact H].
  - rewrite (same_window_cur st st' H E).
    destruct (p (cur st)); cbn [fst snd].
    + split; [reflexivity|]. apply same_window_advance, H.
    + split; [reflexivity|exact H].
Qed.

Lemma respects_skip_run p fuel : forall n, respects (skip_run p fuel n).
Proof.
  induction fuel as [|fuel IH]; intros n st st' H; cbn [skip_run].
  - split; [reflexivity|exact H].
  - rewrite (same_window_eos st st' H).
    destruct (is_eos st) eqn:E; cbn [negb andb].
    + split; [reflexivity|exact H].
    + rewrite (same_window_cur st st' H E).
      destruct (p (cur st)).
      * apply IH. apply same_window_advance, H.
      * split; [reflexivity|exact H].
Qed.

Lemma respects_skip_while p : respects (skip_while p).
Proof.
  intros st st' H. unfold skip_while.
  rewrite (same_window_remaining st st' H). apply respects_skip_run. exact H.
Qed.

Lemma respects_from_remaining {A} (f : nat -> Lex A) :
  (forall fuel, respects (f fuel)) ->
  respects (fun st => f (remaining st) st).
Proof.
  intros Hf st st' H. cbv beta.
  rewrite (same_window_remaining st st' H). apply Hf. exact H.
Qed.

Lemma respects_quote_loop quote fuel : forall st st',
  same_window st st' ->
  same_window (quote_loop quote fuel st) (quote_loop quote fuel st').
Proof.
  induction fuel as [|fuel IH]; intros st st' H; cbn [quote_loop].
  - exact H.
  - rewrite (same_window_eos st st' H).
    destruct (is_eos st) eqn:E; [exact H|].
    unfold ischr. rewrite (same_window_cur st st' H E).
    destruct (isascii7bit (cur st) && negb (cur st =? quote)).
    { apply IH. apply same_window_advance, H. }
    destruct (cur st =? quote); [|exact H].
    cbv zeta.
    pose proof (same_window_advance st st' H) as H1.
    rewrite (same_window_eos _ _ H1).
    destruct (is_eos (advance st)) eqn:E1; cbn [negb andb].
    + destruct H1 as (Hp & Hl & Hb). rewrite Hp.
      apply same_window_set_pos. split; [exact Hp|]. split; assumption.
    + rewrite (same_window_cur _ _ H1 E1).
      destruct (cur (advance st) =? quote).
      * apply IH. apply same_window_advance, H1.
      * destruct H1 as (Hp & Hl & Hb). rewrite Hp.
        apply same_window_set_pos. split; [exact Hp|]. split; assumption.
Qed.

Lemma respects_skipQuoteProgramData quote :
  respects (skipQuoteProgramData quote).
Proof.
  intros st st' H. unfold skipQuoteProgramData. cbn [fst snd].
  split; [reflexivity|].
  rewrite (same_window_remaining st st' H). apply respects_quote_loop, H.
Qed.

Lemma respects_block_length_loop i : forall acc,
  respects (block_length_loop i acc).
Proof.
  induction i as [|i IH]; intros acc st st' H; cbn [block_length_loop].
  - split; [reflexivity|exact H].
  - rewrite (same_window_eos st st' H).
    destruct (is_eos st) eqn:E; cbn [negb andb].
    + split; [reflexivity|exact H].
    + rewrite (same_window_cur st st' H E).
      destruct (isdigit (cur st)).
      * apply IH. apply same_window_advance, H.
      * split; [reflexivity|exact H].
Qed.

Create HintDb respects_db.

#[local] Hint Resolve respects_ret respects_get_pos respects_put_pos
  respects_step respects_at_eos respects_end_pos respects_skip_one
  respects_skip_while respects_skipQuoteProgramData
  respects_block_length_loop : respects_db.

(** One step of the syntax-directed proof that a computation built from the
    primitives respects the window. *)
Ltac respects_step_tac :=
  lazymatch goal with
  | |- respects (bind at_eos (fun e => bind peek _)) =>
      apply respects_guarded_peek; [intros; reflexivity|intros]
  | |- respects (bind _ _) => apply respects_bind; [|intros]
  | |- respects (if ?b then _ else _) => destruct b
  | |- respects (let _ := _ in _) => cbv zeta
  | |- respects (fun st => _ (remaining st) st) =>
      apply respects_from_remaining; intros
  | |- _ => solve [auto with respects_db]
  end.

Ltac respects_tac := repeat respects_step_tac.

Lemma respects_walk_mnemonic : respects walk_mnemonic.
Proof. unfold walk_mnemonic. respects_tac. Qed.

Lemma respects_skipProgramMnemonic : respects skipProgramMnemonic.
Proof.
  unfold skipProgramMnemonic. pose proof respects_walk_mnemonic.
  respects_tac.
Qed.

Lemma respects_close_token token ty (restore : bool) :
  respects (close_token token ty restore).
Proof. unfold close_token. respects_tac. Qed.

Lemma respects_skipCommonProgramHeader : respects skipCommonProgramHeader.
Proof.
  unfold skipCommonProgramHeader, skipStar.
  pose proof respects_skipProgramMnemonic. respects_tac.
Qed.

Lemma respects_compound_loop fuel : respects (compound_loop fuel).
Proof.
  pose proof respects_skipProgramMnemonic.
  induction fuel as [|fuel IH]; cbn [compound_loop]; unfold skipColon;
    respects_tac.
Qed.

Lemma respects_skipCompoundProgramHeader : respects skipCompoundProgramHeader.
Proof.
  unfold skipCompoundProgramHeader, skipColon.
  pose proof respects_skipProgramMnemonic.
  pose proof respects_compound_loop. respects_tac.
Qed.

Lemma respects_skipMantissa : respects skipMantissa.
Proof.
  unfold skipMantissa, skipPlusmn, skipNumbers, skipChr. respects_tac.
Qed.

Lemma respects_skipExponent : respects skipExponent.
Proof.
  unfold skipExponent, skipWs, skipPlusmn, skipNumbers. respects_tac.
Qed.

Lemma respects_suffix_loop fuel : respects (suffix_loop fuel).
Proof.
  induction fuel as [|fuel IH]; cbn [suffix_loop];
    unfold skipSlashDot, skipAlpha, skipChr, skipDigit; respects_tac.
Qed.

Lemma respects_quoted_branch token quote ty :
  respects (quoted_branch token (skipQuoteProgramData quote) quote ty).
Proof. unfold quoted_branch. respects_tac. Qed.

Lemma respects_detect d token : respects (detect d token).
Proof.
  pose proof respects_walk_mnemonic.
  pose proof respects_close_token.
  pose proof respects_skipCommonProgramHeader.
  pose proof respects_skipCompoundProgramHeader.
  pose proof respects_skipMantissa.
  pose proof respects_skipExponent.
  pose proof respects_suffix_loop.
  pose proof respects_quoted_branch.
  destruct d; cbn [detect];
    unfold scpiLex_WhiteSpace, scpiLex_ProgramHeader,
      scpiLex_CharacterProgramData, scpiLex_DecimalNumericProgramData,
      scpiLex_SuffixProgramData, scpiLex_NondecimalNumericData,
      scpiLex_StringProgramData, scpiLex_ArbitraryBlockProgramData,
      scpiLex_ProgramExpression, skipProgramExpression, scpiLex_Comma,
      scpiLex_Semicolon, scpiLex_Colon, scpiLex_SpecificCharacter,
      single_char_token, scpiLex_NewLine, skipWs, skipChr, skipAlpha,
      skipDigit, skipHexNum, skipOctNum, skipBinNum,
      skipDoubleQuoteProgramData, skipSingleQuoteProgramData;
    respects_tac.
Qed.

Lemma outcome_at_end d token buf buf' q l :
  l <= q ->
  outcome (detect d token (mkState buf' q l))
  = outcome (detect d token (mkState buf q l)).
Proof.
  intros He.
  destruct (0 <? tok_len token) eqn:L.
  - apply Z.ltb_lt in L.
    assert ({d = ProgramExpression} + {d <> ProgramExpression}) as [->|Hd]
      by (destruct d; (left; reflexivity) || (right; discriminate)).
    + cbn [detect]. rewrite !expression_at_end by assumption. reflexivity.
    + rewrite !detect_at_end by (assumption || (intros H; contradiction)).
      reflexivity.
  - apply Z.ltb_ge in L.
    rewrite !detect_at_end by (assumption || (intros _; exact L)).
    reflexivity.
Qed.

(** X16.  The lexer honours [len].  Two calls of the same detector on states with
    the same cursor and the same [len], over buffers that hold the same bytes
    below [len], give the same token, the same returned value and the same
    cursor: whatever is stored at or beyond [len] (a terminating NUL, the
    rest of a longer message) has no influence on the answer. *)
Theorem bytes_beyond_len_are_never_read d token st st' :
  0 <= pos st ->
  pos st' = pos st -> len st' = len st ->
  (forall j, 0 <= j < len st ->
     char_at (buffer st') j = char_at (buffer st) j) ->
  outcome (detect d token st') = outcome (detect d token st).
Proof.
  destruct st as [buf q l], st' as [buf' q' l']. cbn [pos len buffer].
  intros Hq -> -> Hb.
  destruct (Z_le_gt_dec l 0) as [Hl|Hl].
  - apply outcome_at_end. lia.
  - assert (same_window (mkState buf q l) (mkState buf' q l)) as Hw.
    { split; [reflexivity|]. split; [reflexivity|]. cbn [len buffer].
      intros j Hj. destruct (Z_lt_le_dec j 0) as [Hneg|Hpos].
      - unfold char_at. replace (Z.to_nat j) with (Z.to_nat 0) by lia.
        apply (Hb 0). lia.
      - apply Hb. lia. }
    destruct (respects_detect d token _ _ Hw) as [Hr (Hp & _)].
    destruct (detect d token (mkState buf q l)) as [[t n] s].
    destruct (detect d token (mkState buf' q l)) as [[t' n'] s'].
    cbn [fst snd outcome] in *. injection Hr as -> ->. rewrite Hp.
    reflexivity.
Qed.

Lemma bytes_beyond_len_are_never_read_witness :
  let st := mkState (bytes "12E5") 0 2 in
  let st' := mkState (bytes "12;*") 0 2 in
  (0 <= pos st /\ pos st' = pos st /\ len st' = len st
   /\ forall j, 0 <= j < len st ->
        char_at (buffer st') j = char_at (buffer st) j)
  /\ outcome (detect DecimalNumericProgramData tok0 st')
     = outcome (detect DecimalNumericProgramData tok0 st).
Proof.
  cbv zeta.
  assert (forall j, 0 <= j < 2 ->
            char_at (bytes "12;*") j = char_at (bytes "12E5") j) as Hb.
  { intros j Hj. assert (j = 0 \/ j = 1) as [-> | ->] by lia; reflexivity. }
  split.
  - split; [discriminate|]. split; [reflexivity|]. split; [reflexivity|].
    exact Hb.
  - apply bytes_beyond_len_are_never_read;
      [discriminate|reflexivity|reflexivity|exact Hb].
Defined.

(** ** The alphabet of suffix data *)

Lemma all_in_extend p buf a b c :
  all_in p buf a b ->
  (forall j, b <= j < c -> p (char_at buf j) = true) ->
  all_in p buf a c.
Proof.
  intros H1 H2 j Hj. destruct (Z_lt_le_dec j b) as [Hlt|Hge].
  - apply H1. lia.
  - apply H2. lia.
Qed.

Lemma all_in_one (p : Z -> bool) buf a b :
  all_in p buf a b -> p (char_at buf b) = true -> all_in p buf a (b + 1).
Proof.
  intros H1 H2. apply (all_in_extend p buf a b); [exact H1|].
  intros j Hj. assert (j = b) as -> by lia. exact H2.
Qed.

Lemma suffix_byte_alpha c : isalpha c = true -> is_suffix_byte c = true.
Proof. unfold is_suffix_byte. intros ->. reflexivity. Qed.

Lemma suffix_byte_digit c : isdigit c = true -> is_suffix_byte c = true.
Proof.
  unfold is_suffix_byte. intros ->. rewrite orb_true_r. reflexivity.
Qed.

Lemma suffix_byte_slash_dot c :
  (c =? chr "/") || (c =? chr ".") = true -> is_suffix_byte c = true.
Proof.
  unfold is_suffix_byte. intros H. apply orb_true_iff in H.
  destruct H as [-> | ->]; rewrite ?orb_true_r; reflexivity.
Qed.

Lemma suffix_byte_minus c : (c =? chr "-") = true -> is_suffix_byte c = true.
Proof.
  unfold is_suffix_byte. intros ->. rewrite ?orb_true_r. reflexivity.
Qed.

(** The tail [skipChr('-'); skipDigit()] of each unit. *)
Lemma wp_suffix_exponent q0 buf q l (Q : Z -> lex_state_t -> Prop) :
  all_in is_suffix_byte buf q0 q ->
  (forall r q', q <= q' -> all_in is_suffix_byte buf q0 q' ->
     Q r (mkState buf q' l)) ->
  wp (skipChr (chr "-") ;;; skipDigit) (mkState buf q l) Q.
Proof.
  intros Hin H. unfold skipChr, skipDigit.
  apply wp_bind. apply wp_skip_one.
  - intros _ Hm. apply wp_skip_one.
    + intros _ Hd. apply H; [lia|].
      apply all_in_one; [apply all_in_one; [exact Hin|]|].
      * apply suffix_byte_minus, Hm.
      * apply suffix_byte_digit, Hd.
    + intros _. apply H; [lia|]. apply all_in_one; [exact Hin|].
      apply suffix_byte_minus, Hm.
  - intros _. apply wp_skip_one.
    + intros _ Hd. apply H; [lia|]. apply all_in_one; [exact Hin|].
      apply suffix_byte_digit, Hd.
    + intros _. apply H; [lia|exact Hin].
Qed.

Lemma wp_suffix_loop_alphabet fuel : forall q0 buf q l
  (Q : unit -> lex_state_t -> Prop),
  all_in is_suffix_byte buf q0 q ->
  (forall q', q <= q' -> all_in is_suffix_byte buf q0 q' ->
     Q tt (mkState buf q' l)) ->
  wp (suffix_loop fuel) (mkState buf q l) Q.
Proof.
  induction fuel as [|fuel IH]; intros q0 buf q l Q Hin H.
  - cbn [suffix_loop]. wp_basic. apply H; [lia|exact Hin].
  - cbn [suffix_loop]. unfold skipSlashDot, skipAlpha.
    apply wp_bind. apply wp_skip_one.
    + intros _ Hs. skips. apply wp_bind. apply wp_skip_while.
      intros a Ha _ _ Hall.
      assert (all_in is_suffix_byte buf q0 (q + 1 + a)) as Hin1.
      { apply (all_in_extend _ buf q0 (q + 1)).
        - apply all_in_one; [exact Hin|]. apply suffix_byte_slash_dot, Hs.
        - intros j Hj. apply suffix_byte_alpha, Hall, Hj. }
      apply (wp_bind (skipChr (chr "-")) (fun _ => skipDigit ;;; suffix_loop fuel)).
      unfold skipChr, skipDigit. apply wp_skip_one.
      * intros _ Hm. apply wp_bind. apply wp_skip_one.
        -- intros _ Hd. apply (IH q0); [|intros q' ? ?; apply H; [lia|assumption]].
           apply all_in_one; [apply all_in_one; [exact Hin1|]|].
           ++ apply suffix_byte_minus, Hm.
           ++ apply suffix_byte_digit, Hd.
        -- intros _. apply (IH q0); [|intros q' ? ?; apply H; [lia|assumption]].
           apply all_in_one; [exact Hin1|]. apply suffix_byte_minus, Hm.
      * intros _. apply wp_bind. apply wp_skip_one.
        -- intros _ Hd. apply (IH q0); [|intros q' ? ?; apply H; [lia|assumption]].
           apply all_in_one; [exact Hin1|]. apply suffix_byte_digit, Hd.
        -- intros _. apply (IH q0); [|intros q' ? ?; apply H; [lia|assumption]].
           exact Hin1.
    + intros _. skips. wp_basic. apply H; [lia|exact Hin].
Qed.

Lemma wp_suffix_loop_alphabet_run q0 buf q l
  (Q : unit -> lex_state_t -> Prop) :
  all_in is_suffix_byte buf q0 q ->
  (forall q', q <= q' -> all_in is_suffix_byte buf q0 q' ->
     Q tt (mkState buf q' l)) ->
  wp (fun st => suffix_loop (remaining st) st) (mkState buf q l) Q.
Proof.
  intros Hin H. exact (wp_suffix_loop_alphabet _ q0 buf q l Q Hin H).
Qed.

Lemma scpiLex_SuffixProgramData_alphabet token buf q l :
  wp (scpiLex_SuffixProgramData token) (mkState buf q l)
     (fun r s => suffix_post buf q (fst r) (snd r) s).
Proof.
  unfold scpiLex_SuffixProgramData, skipChr, skipAlpha, skipDigit. wp_basic.
  assert (forall q1,
    (char_at buf q = chr "/" \/ isalpha (char_at buf q) = true) ->
    all_in is_suffix_byte buf q q1 ->
    wp (token0 <- close_token (mkToken (tok_type token) q (tok_len token))
                    SCPI_TOKEN_SUFFIX_PROGRAM_DATA true ;;
        ret (token0, tok_len token0)) (mkState buf q1 l)
       (fun r s => suffix_post buf q (fst r) (snd r) s))
    as Hclose.
  { intros q1 Hfirst Hin. apply wp_bind.
    apply wp_close_token; wp_simpl; intros; wp_basic;
      cbn [fst snd]; unfold suffix_post; cbn [tok_type tok_ptr tok_len pos];
      intros Hty; [|discriminate Hty].
    split; [reflexivity|]. split; [lia|]. split; [reflexivity|].
    split; [lia|]. split; [exact Hfirst|].
    replace (q + (q1 - q)) with q1 by lia. exact Hin. }
  assert (
    wp (token0 <- close_token (mkToken (tok_type token) q (tok_len token))
                    SCPI_TOKEN_SUFFIX_PROGRAM_DATA true ;;
        ret (token0, tok_len token0)) (mkState buf q l)
       (fun r s => suffix_post buf q (fst r) (snd r) s))
    as Hnone.
  { apply wp_bind.
    apply wp_close_token; wp_simpl; intros; wp_basic;
      cbn [fst snd]; unfold suffix_post; cbn [tok_type tok_ptr tok_len pos];
      intros Hty; [lia|discriminate Hty]. }
  assert (forall q1,
    q <= q1 ->
    (q < q1 -> char_at buf q = chr "/") ->
    all_in is_suffix_byte buf q q1 ->
    wp (a <- skip_while isalpha ;;
        (if truthy a then
           skip_one (fun x => x =? chr "-") ;;; skip_one isdigit ;;;
           (fun st => suffix_loop (remaining st) st)
         else ret tt) ;;;
        token0 <- close_token (mkToken (tok_type token) q (tok_len token))
                    SCPI_TOKEN_SUFFIX_PROGRAM_DATA true ;;
        ret (token0, tok_len token0)) (mkState buf q1 l)
       (fun r s => suffix_post buf q (fst r) (snd r) s))
    as Hrest.
  { intros q1 Hq1 Hslash Hin. apply wp_bind. apply wp_skip_while.
    intros a Ha _ _ Hall.
    assert (all_in is_suffix_byte buf q (q1 + a)) as Hin1.
    { apply (all_in_extend _ buf q q1); [exact Hin|].
      intros j Hj. apply suffix_byte_alpha, Hall, Hj. }
    apply wp_bind. unfold truthy. destruct (a =? 0) eqn:Ea; cbn [negb].
    - apply Z.eqb_eq in Ea. subst a. rewrite Z.add_0_r in *. apply wp_ret.
      destruct (Z.eq_dec q1 q) as [->|Hne]; [exact Hnone|].
      apply Hclose; [|exact Hin1]. left. apply Hslash. lia.
    - apply Z.eqb_neq in Ea.
      assert (char_at buf q = chr "/" \/ isalpha (char_at buf q) = true)
        as Hfirst.
      { destruct (Z.eq_dec q1 q) as [->|Hne].
        - right. apply Hall. lia.
        - left. apply Hslash. lia. }
      apply (wp_bind (skip_one (fun x => x =? chr "-"))
               (fun _ => skip_one isdigit ;;;
                         (fun st => suffix_loop (remaining st) st))).
      apply wp_skip_one.
      + intros _ Hm. apply wp_bind. apply wp_skip_one.
        * intros _ Hd. apply (wp_suffix_loop_alphabet_run q);
            [|intros q' ? ?; apply Hclose; assumption].
          apply all_in_one; [apply all_in_one; [exact Hin1|]|].
          -- apply suffix_byte_minus, Hm.
          -- apply suffix_byte_digit, Hd.
        * intros _. apply (wp_suffix_loop_alphabet_run q);
            [|intros q' ? ?; apply Hclose; assumption].
          apply all_in_one; [exact Hin1|]. apply suffix_byte_minus, Hm.
      + intros _. apply wp_bind. apply wp_skip_one.
        * intros _ Hd. apply (wp_suffix_loop_alphabet_run q);
            [|intros q' ? ?; apply Hclose; assumption].
          apply all_in_one; [exact Hin1|]. apply suffix_byte_digit, Hd.
        * intros _. apply (wp_suffix_loop_alphabet_run q);
            [|intros q' ? ?; apply Hclose; assumption].
          exact Hin1. }
  apply wp_skip_one.
  - intros _ Hs. apply Z.eqb_eq in Hs. apply Hrest; [lia|intros _; exact Hs|].
    intros j Hj. assert (j = q) as -> by lia. rewrite Hs. reflexivity.
  - intros _. apply Hrest; [lia|intros H; lia|]. intros j Hj. lia.
Qed.

(** X17.  What a suffix token is made of.  A match of scpiLex_SuffixProgramData
    starts at the cursor with a [/] or a letter, is not empty, and holds
    nothing but letters, digits and the characters [/], [.] and [-]; the
    cursor ends right behind it. *)
Theorem suffix_token_alphabet token st tok n st' :
  scpiLex_SuffixProgramData token st = (tok, n, st') ->
  tok_type tok = SCPI_TOKEN_SUFFIX_PROGRAM_DATA ->
  tok_ptr tok = pos st /\ 0 < tok_len tok /\ n = tok_len tok
  /\ pos st' = pos st + tok_len tok
  /\ (cur st = chr "/" \/ isalpha (cur st) = true)
  /\ forall j, pos st <= j < pos st + tok_len tok ->
       is_suffix_byte (char_at (buffer st) j) = true.
Proof.
  destruct st as [buf q l]. intros E Hty.
  exact (wp_run _ _ _ _ _ (scpiLex_SuffixProgramData_alphabet token buf q l)
           E Hty).
Qed.

Lemma suffix_token_alphabet_witness :
  let st := lex_at (bytes "m/s-2 ") 0 in
  (scpiLex_SuffixProgramData tok0 st
   = (mkToken SCPI_TOKEN_SUFFIX_PROGRAM_DATA 0 5, 5, set_pos st 5))
  /\ 0 = pos st /\ 0 < 5 /\ 5 = 5
  /\ pos (set_pos st 5) = pos st + 5
  /\ (cur st = chr "/" \/ isalpha (cur st) = true)
  /\ forall j, pos st <= j < pos st + 5 ->
       is_suffix_byte (char_at (buffer st) j) = true.
Proof.
  cbv zeta. set (st := lex_at (bytes "m/s-2 ") 0).
  assert (scpiLex_SuffixProgramData tok0 st
          = (mkToken SCPI_TOKEN_SUFFIX_PROGRAM_DATA 0 5, 5, set_pos st 5)) as E
    by (vm_compute; reflexivity).
  split; [exact E|].
  exact (suffix_token_alphabet tok0 st _ _ _ E eq_refl).
Defined.
